(** * md_to_notion_batch: Markdown + LaTeX to Notion blocks

    A shallow embedding of [src/md_to_notion_batch.py]:
    - [LatexToNotionConverter]  (the math normalizer),
    - [NotionBlockBuilder]      (block segmenter, inline span parser, size enforcer),
    - [NotionClient]            (the delivery engine),
    - [BatchProcessor]          (the title of a file and the batch loop),
    followed by the properties of the specification, each stated over these
    definitions, and by further properties of the code.

    Text.  A Python [str] is modelled as a list of characters, the characters
    being the 8-bit code points of [ascii] (the Latin-1 range).  The character
    classes used by [str.strip], [str.isdigit] and the [re] classes [\s] and
    [\d] are written out for that range. *)

From Stdlib Require Import Ascii String List Bool Arith Lia.
From stdpp Require Import base list strings gmap.

Local Open Scope list_scope.
Local Open Scope nat_scope.

(** ** Strings as the code uses them *)

Abbreviation str := (list ascii).

(** A string literal of the source. *)
Definition lit (s : string) : str := list_ascii_of_string s.
Arguments lit : simpl never.

Definition NL : ascii := "010"%char.
Definition CR : ascii := "013"%char.

Module Py.

(** [c.isspace()] / the [\s] class of [re] on [str] patterns: the code
    points 9-13, 28-32, 133 and 160. *)
Definition isspace (c : ascii) : bool :=
  let n := nat_of_ascii c in
  ((9 <=? n) && (n <=? 13)) || ((28 <=? n) && (n <=? 32))
  || (n =? 133) || (n =? 160).

(** The [\d] class of [re] on [str] patterns (decimal digits). *)
Definition re_digit (c : ascii) : bool :=
  let n := nat_of_ascii c in (48 <=? n) && (n <=? 57).

(** [c.isdigit()]: the decimal digits and the superscripts 2, 3 and 1
    (code points 178, 179, 185). *)
Definition isdigit (c : ascii) : bool :=
  let n := nat_of_ascii c in
  re_digit c || (n =? 178) || (n =? 179) || (n =? 185).

Fixpoint str_eqb (a b : str) : bool :=
  match a, b with
  | [], [] => true
  | x :: a', y :: b' => Ascii.eqb x y && str_eqb a' b'
  | _, _ => false
  end.

(** [s.lstrip()], [s.rstrip()], [s.strip()] *)
Fixpoint lstrip (s : str) : str :=
  match s with
  | [] => []
  | c :: s' => if isspace c then lstrip s' else s
  end.

Definition rstrip (s : str) : str := rev (lstrip (rev s)).

Definition strip (s : str) : str := lstrip (rstrip s).

(** [s.startswith(p)], [s.endswith(p)] *)
Fixpoint startswith (p s : str) : bool :=
  match p, s with
  | [], _ => true
  | x :: p', y :: s' => Ascii.eqb x y && startswith p' s'
  | _ :: _, [] => false
  end.

Definition endswith (p s : str) : bool := startswith (rev p) (rev s).

(** [s[:-n]] for a positive literal [n] *)
Definition drop_last (n : nat) (s : str) : str := firstn (length s - n) s.

(** [s[a:-b]] for literals [a] and positive [b] *)
Definition slice_mid (a b : nat) (s : str) : str :=
  firstn (length s - b - a) (skipn a s).

(** [s.split('\n')] *)
Fixpoint split_nl (s : str) : list str :=
  match s with
  | [] => [[]]
  | c :: s' =>
      if Ascii.eqb c NL then [] :: split_nl s'
      else match split_nl s' with
           | l :: ls => (c :: l) :: ls
           | [] => [[c]]
           end
  end.

(** [sep.join(ls)] *)
Fixpoint join (sep : str) (ls : list str) : str :=
  match ls with
  | [] => []
  | l :: ls' =>
      match ls' with
      | [] => l
      | _ :: _ => l ++ sep ++ join sep ls'
      end
  end.

(** [s.replace('\r\n', '\n')] *)
Fixpoint replace_crlf (s : str) : str :=
  match s with
  | [] => []
  | c :: s' =>
      match s' with
      | d :: s'' =>
          if Ascii.eqb c CR && Ascii.eqb d NL then NL :: replace_crlf s''
          else c :: replace_crlf s'
      | [] => [c]
      end
  end.

(** [p in s] for strings *)
Fixpoint contains (p s : str) : bool :=
  startswith p s ||
  match s with
  | [] => false
  | _ :: s' => contains p s'
  end.

(** truthiness of a string or list: non-empty *)
Definition truthy {A} (l : list A) : bool :=
  match l with [] => false | _ :: _ => true end.

End Py.

Import Py.

(** The tests on strings are kept folded by [simpl]; they are unfolded
    where a proof needs it. *)
Arguments str_eqb : simpl never.
Arguments startswith : simpl never.
Arguments endswith : simpl never.
Arguments contains : simpl never.
Arguments strip : simpl never.
Arguments rstrip : simpl never.
Arguments isspace : simpl never.

(** ** LatexToNotionConverter *)

Module LatexToNotionConverter.

(** The inner [while] of [_convert_block_math]: collect formula lines up
    to the closing [$$].  Result: the collected [math_lines], the flag
    [found_closing], and the lines from the cursor [i] on. *)
Fixpoint collect_math (math_lines : list str) (lines : list str)
  : list str * bool * list str :=
  match lines with
  | [] => (math_lines, false, [])
  | l :: rest =>
      let next_stripped := strip l in
      if str_eqb next_stripped (lit "$$") then
        (math_lines, true, rest)
      else if endswith (lit "$$") next_stripped
              && (2 <? length next_stripped) then
        (math_lines ++ [strip (drop_last 2 next_stripped)], true, rest)
      else if 30 <? length math_lines then
        (math_lines, false, lines)
      else
        collect_math (math_lines ++ [l]) rest
  end.

(** The five lines of the canonical wrapped form. *)
Definition wrapped (formula : str) : list str :=
  [ []; lit "$$"; formula; lit "$$"; [] ].

(** One turn of the outer [while] of [_convert_block_math] with the
    cursor on [line]: the lines appended to [result] and the lines from
    the new cursor on. *)
Definition block_math_step (line : str) (rest : list str)
  : list str * list str :=
  let stripped := strip line in
  if startswith (lit "$$") stripped then
    let content_after_open := strip (skipn 2 stripped) in
    if truthy content_after_open
       && endswith (lit "$$") content_after_open then
      let formula := strip (drop_last 2 content_after_open) in
      (wrapped formula, rest)
    else
      let math_lines0 :=
        if truthy content_after_open then [content_after_open] else [] in
      let '(math_lines, found_closing, rest') :=
        collect_math math_lines0 rest in
      if found_closing && truthy math_lines then
        (wrapped (strip (join [NL] math_lines)), rest')
      else
        (line :: math_lines, rest')
  else
    ([line], rest).

(** The outer [while i < len(lines)]; every turn moves the cursor by at
    least one line, so [length lines] turns are enough. *)
Fixpoint block_math_loop (fuel : nat) (lines : list str) : list str :=
  match fuel with
  | 0 => []
  | S fuel' =>
      match lines with
      | [] => []
      | line :: rest =>
          let '(out, rest') := block_math_step line rest in
          out ++ block_math_loop fuel' rest'
      end
  end.

Definition _convert_block_math (text : str) : str :=
  let lines := split_nl text in
  join [NL] (block_math_loop (length lines) lines).

(** *** The inline pass *)

(** The pattern [^[\d,\.]+$] of [replace_inline], applied with
    [re.match]: a non-empty run of digits, commas and periods that
    reaches the end of the string (or the newline that ends it). *)
Definition numeric_class (c : ascii) : bool :=
  re_digit c || Ascii.eqb c ","%char || Ascii.eqb c "."%char.

Fixpoint skip_numeric (s : str) : str :=
  match s with
  | [] => []
  | c :: s' => if numeric_class c then skip_numeric s' else s
  end.

Definition numeric_re (content : str) : bool :=
  match content with
  | [] => false
  | c :: _ =>
      numeric_class c &&
      (let r := skip_numeric content in str_eqb r [] || str_eqb r [NL])
  end.

(** [content[0].isdigit()], guarded by [content] being non-empty *)
Definition first_isdigit (content : str) : bool :=
  match content with
  | [] => false
  | c :: _ => isdigit c
  end.

(** The callback [replace_inline] on group 1 of a match; group 0, the
    whole match, is the opening dollar, [content] and the closing dollar. *)
Definition replace_inline (content : str) : str :=
  let group0 := lit "$" ++ content ++ lit "$" in
  if negb (truthy (strip content)) then group0
  else if truthy content && first_isdigit content && numeric_re content
  then group0
  else lit "$`" ++ content ++ lit "`$".

Definition is_dollar (c : ascii) : bool := Ascii.eqb c "$"%char.

(** The lazy group [(.+?)] followed by the closing [(?<!\$)\$(?!\$)]:
    [last] is the last character taken into the group so far and [t] the
    text after it.  Result: the further characters of the group and the
    text after the closing dollar. *)
Fixpoint close_after (last : ascii) (t : str) : option (str * str) :=
  match t with
  | [] => None
  | d :: t' =>
      if is_dollar d && negb (is_dollar last)
         && negb (startswith (lit "$") t') then
        Some ([], t')
      else if Ascii.eqb d NL then None
      else match close_after d t' with
           | Some (more, r) => Some (d :: more, r)
           | None => None
           end
  end.

(** A match of [(?<!\$)\$(?!\$)(.+?)(?<!\$)\$(?!\$)] at the head of [s],
    where [prev] is the character before it in the line.  Result:
    group 1 and the text after the match. *)
Definition match_inline (prev : option ascii) (s : str)
  : option (str * str) :=
  match s with
  | o :: c :: t =>
      if is_dollar o
         && negb (match prev with Some p => is_dollar p | None => false end)
         && negb (is_dollar c) && negb (Ascii.eqb c NL) then
        match close_after c t with
        | Some (more, r) => Some (c :: more, r)
        | None => None
        end
      else None
  | _ => None
  end.

(** [re.sub(pattern, replace_inline, line)]: the leftmost match is
    replaced and the scan resumes after it. *)
Fixpoint sub_inline (fuel : nat) (prev : option ascii) (s : str) : str :=
  match fuel with
  | 0 => s
  | S fuel' =>
      match s with
      | [] => []
      | c :: s' =>
          match match_inline prev s with
          | Some (content, r) =>
              replace_inline content
              ++ sub_inline fuel' (Some "$"%char) r
          | None => c :: sub_inline fuel' (Some c) s'
          end
      end
  end.

Definition sub_inline_line (line : str) : str :=
  sub_inline (length line) None line.

(** The [for line in lines] of [_convert_inline_math], with the flag
    [in_block_math]. *)
Fixpoint inline_lines (in_block_math : bool) (lines : list str)
  : list str :=
  match lines with
  | [] => []
  | line :: rest =>
      let stripped := strip line in
      if str_eqb stripped (lit "$$") then
        line :: inline_lines (negb in_block_math) rest
      else if in_block_math || contains (lit "$`") line then
        line :: inline_lines in_block_math rest
      else
        sub_inline_line line :: inline_lines in_block_math rest
  end.

Definition _convert_inline_math (text : str) : str :=
  join [NL] (inline_lines false (split_nl text)).

(** *** The whole conversion *)

(** [re.sub(r'\n{4,}', '\n\n\n', text)]; [run] counts the newlines of
    the run being read. *)
Definition emit_run (run : nat) : str :=
  repeat NL (if 4 <=? run then 3 else run).

Fixpoint collapse_newlines (run : nat) (s : str) : str :=
  match s with
  | [] => emit_run run
  | c :: s' =>
      if Ascii.eqb c NL then collapse_newlines (S run) s'
      else emit_run run ++ c :: collapse_newlines 0 s'
  end.

Definition convert (markdown_text : str) : str :=
  let text := replace_crlf markdown_text in
  let text := _convert_block_math text in
  let text := _convert_inline_math text in
  let text := collapse_newlines 0 text in
  strip text.

End LatexToNotionConverter.

(** ** NotionBlockBuilder *)

(** A rich-text element.  The source builds three shapes of dict:
    [{"type": "text", "text": {"content": c}}] with an optional
    ["annotations"] entry, the same with a ["link"] inside ["text"], and
    [{"type": "equation", "equation": {"expression": e}}]. *)
Inductive annotations := bold | italic | code.

Inductive rich_text_item :=
| TextItem (content : str) (ann : option annotations)
| LinkItem (content : str) (url : str)
| EquationItem (expression : str).

(** The text a rich-text element carries. *)
Definition item_content (it : rich_text_item) : str :=
  match it with
  | TextItem c _ => c
  | LinkItem c _ => c
  | EquationItem e => e
  end.

(** A value stored in the inner dict of a block. *)
Inductive attr :=
| ARichText (rt : list rich_text_item)
| AStr (s : str).

(** A block [{"type": T, T: inner}]: its tag and its inner dict. *)
Record block := Block { btype : string; inner : gmap string attr }.

Module NotionBlockBuilder.

Definition MAX_TEXT_LENGTH : nat := 2000.
Definition MAX_BLOCKS_PER_REQUEST : nat := 100.
Definition MAX_RICH_TEXT_ELEMENTS : nat := 100.

(** *** _chunk_text *)

(** The [while content] loop; each turn removes a non-empty prefix, so
    [length content] turns are enough. *)
Fixpoint chunk_loop (fuel : nat) (content : str) (ann : option annotations)
  : list rich_text_item :=
  match fuel with
  | 0 => []
  | S fuel' =>
      match content with
      | [] => []
      | _ :: _ =>
          TextItem (firstn MAX_TEXT_LENGTH content) ann
          :: chunk_loop fuel' (skipn MAX_TEXT_LENGTH content) ann
      end
  end.

Definition _chunk_text (content : str) (ann : option annotations)
  : list rich_text_item :=
  chunk_loop (length content) content ann.

(** *** _parse_rich_text *)

(** The longest prefix of characters other than [stop], and what
    follows: the greedy class [[^stop]+] of the patterns. *)
Fixpoint span_not (stop : ascii) (s : str) : str * str :=
  match s with
  | [] => ([], [])
  | c :: s' =>
      if Ascii.eqb c stop then ([], s)
      else let '(run, r) := span_not stop s' in (c :: run, r)
  end.

Definition after_prefix (p s : str) : option str :=
  if startswith p s then Some (skipn (length p) s) else None.

(** [open [^stop]+ close] at the head of [s]: the text after the match.
    In every pattern below [close] begins with [stop], so the greedy run
    is the only one that can be followed by [close]. *)
Definition delimited (open : str) (stop : ascii) (close : str) (s : str)
  : option str :=
  match after_prefix open s with
  | None => None
  | Some t =>
      let '(run, r) := span_not stop t in
      if truthy run then after_prefix close r else None
  end.

(** The five alternatives of [pattern], in their order. *)
Definition alt_math (s : str) := delimited (lit "$`") "`"%char (lit "`$") s.
Definition alt_bold (s : str) := delimited (lit "**") "*"%char (lit "**") s.
Definition alt_italic (s : str) := delimited (lit "*") "*"%char (lit "*") s.
Definition alt_code (s : str) := delimited (lit "`") "`"%char (lit "`") s.
Definition alt_link (s : str) : option str :=
  match delimited (lit "[") "]"%char (lit "]") s with
  | None => None
  | Some r => delimited (lit "(") ")"%char (lit ")") r
  end.

Definition or_else {A} (a b : option A) : option A :=
  match a with Some _ => a | None => b end.

(** A match of [pattern] at the head of [s]: the matched text and the
    text after it. *)
Definition match_at (s : str) : option (str * str) :=
  match or_else (alt_math s) (or_else (alt_bold s) (or_else (alt_italic s)
          (or_else (alt_code s) (alt_link s)))) with
  | None => None
  | Some r => Some (firstn (length s - length r) s, r)
  end.

(** [re.match(r'\[([^\]]+)\]\(([^)]+)\)', matched)]: groups 1 and 2 *)
Definition link_match (matched : str) : option (str * str) :=
  match after_prefix (lit "[") matched with
  | None => None
  | Some t =>
      let '(g1, r) := span_not "]"%char t in
      if truthy g1 then
        match after_prefix (lit "](") r with
        | None => None
        | Some u =>
            let '(g2, r') := span_not ")"%char u in
            if truthy g2 && startswith (lit ")") r' then Some (g1, g2)
            else None
        end
      else None
  end.

(** The body of the [for match in pattern.finditer(text)] loop after
    the plain text before the match has been emitted. *)
Definition decode (matched : str) : list rich_text_item :=
  if startswith (lit "$`") matched && endswith (lit "`$") matched then
    [EquationItem (slice_mid 2 2 matched)]
  else if startswith (lit "**") matched && endswith (lit "**") matched then
    _chunk_text (slice_mid 2 2 matched) (Some bold)
  else if startswith (lit "*") matched && endswith (lit "*") matched then
    _chunk_text (slice_mid 1 1 matched) (Some italic)
  else if startswith (lit "`") matched && endswith (lit "`") matched then
    _chunk_text (slice_mid 1 1 matched) (Some code)
  else if startswith (lit "[") matched then
    match link_match matched with
    | Some (g1, g2) => [LinkItem g1 g2]
    | None => []
    end
  else [].

(** [finditer]: [plain_rev] holds, reversed, the text since [last_end]. *)
Fixpoint parse_loop (fuel : nat) (plain_rev : str) (s : str)
  : list rich_text_item :=
  match fuel with
  | 0 => []
  | S fuel' =>
      match s with
      | [] => _chunk_text (rev plain_rev) None
      | c :: s' =>
          match match_at s with
          | Some (matched, r) =>
              _chunk_text (rev plain_rev) None
              ++ decode matched ++ parse_loop fuel' [] r
          | None => parse_loop fuel' (c :: plain_rev) s'
          end
      end
  end.

Definition _parse_rich_text (text : str) : list rich_text_item :=
  let rich_text := parse_loop (S (length text)) [] text in
  if truthy rich_text then rich_text else [TextItem text None].

(** *** _split_block_if_needed *)

(** [range(start, stop, step)] for a positive [step] *)
Fixpoint range_loop (fuel : nat) (i stop step : nat) : list nat :=
  match fuel with
  | 0 => []
  | S fuel' =>
      if i <? stop then i :: range_loop fuel' (i + step) stop step else []
  end.

Definition range (start stop step : nat) : list nat :=
  range_loop stop start stop step.

(** [len(v)], [not v] and [v[i:i + n]] on a value that is a list of
    rich-text elements or a string *)
Definition attr_len (v : attr) : nat :=
  match v with
  | ARichText rt => length rt
  | AStr s => length s
  end.

Definition attr_slice (i n : nat) (v : attr) : attr :=
  match v with
  | ARichText rt => ARichText (firstn n (skipn i rt))
  | AStr s => AStr (firstn n (skipn i s))
  end.

(** The clone built for one slice: [{"rich_text": chunk}] extended with
    every other entry of [inner]. *)
Definition clone_inner (chunk : attr) (inner : gmap string attr)
  : gmap string attr :=
  map_fold
    (fun key value new_inner =>
       if decide (key = "rich_text"%string) then new_inner
       else <[key := value]> new_inner)
    {[ "rich_text"%string := chunk ]}
    inner.

Definition _split_block_if_needed (b : block) : list block :=
  let block_type := btype b in
  if decide (block_type = ""%string) then [b]
  else
    match inner b !! "rich_text"%string with
    | None => [b]
    | Some rich_text =>
        if (attr_len rich_text =? 0)
           || (attr_len rich_text <=? MAX_RICH_TEXT_ELEMENTS) then [b]
        else
          map (fun i =>
                 let chunk :=
                   attr_slice i MAX_RICH_TEXT_ELEMENTS rich_text in
                 Block block_type (clone_inner chunk (inner b)))
              (range 0 (attr_len rich_text) MAX_RICH_TEXT_ELEMENTS)
    end.

(** The closing loop of [build_blocks]:
    [for block in blocks: final_blocks.extend(...)]. *)
Definition enforce (blocks : list block) : list block :=
  flat_map _split_block_if_needed blocks.

(** *** build_blocks *)

Definition rich_block (t : string) (rt : list rich_text_item) : block :=
  Block t {[ "rich_text"%string := ARichText rt ]}.

Definition equation_block (expression : str) : block :=
  Block "equation" {[ "expression"%string := AStr expression ]}.

Definition code_block (content language : str) : block :=
  Block "code"
    (<[ "language"%string := AStr language ]>
       {[ "rich_text"%string := ARichText [TextItem content None] ]}).

Definition divider_block : block := Block "divider" ∅.

(** The math loop:
    [while i < len(lines) and len(math_lines) < 50]. *)
Fixpoint collect_equation (math_lines : list str) (lines : list str)
  : list str * bool * list str :=
  match lines with
  | [] => (math_lines, false, [])
  | l :: rest =>
      if length math_lines <? 50 then
        if str_eqb (strip l) (lit "$$") then (math_lines, true, rest)
        else collect_equation (math_lines ++ [l]) rest
      else (math_lines, false, lines)
  end.

(** The code loop:
    [while i < len(lines) and not lines[i].strip().startswith(fence)]. *)
Fixpoint collect_code (lines : list str) : list str * list str :=
  match lines with
  | [] => ([], [])
  | l :: rest =>
      if startswith (lit "```") (strip l) then ([], lines)
      else let '(code_lines, r) := collect_code rest in
           (l :: code_lines, r)
  end.

(** The quote loop *)
Fixpoint collect_quote (lines : list str) : list str * list str :=
  match lines with
  | [] => ([], [])
  | l :: rest =>
      if startswith (lit "> ") (strip l) then
        let '(quote_lines, r) := collect_quote rest in
        (skipn 2 (strip l) :: quote_lines, r)
      else ([], lines)
  end.

(** The rest of the line (the dot does not match a newline) *)
Fixpoint take_line (s : str) : str :=
  match s with
  | [] => []
  | c :: s' => if Ascii.eqb c NL then [] else c :: take_line s'
  end.

Fixpoint span_class (cls : ascii -> bool) (s : str) : str * str :=
  match s with
  | [] => ([], [])
  | c :: s' =>
      if cls c then let '(run, r) := span_class cls s' in (c :: run, r)
      else ([], s)
  end.

(** [header_match]: the heading pattern under [re.match], one to three
    hashes (group 1), white space, the rest of the line (group 2).
    Result: the level and group 2.  With more than three hashes the
    character after the three taken is a hash, not a space. *)
Definition header_match (stripped : str) : option (nat * str) :=
  let '(hashes, r) := span_class (Ascii.eqb "#"%char) stripped in
  if (1 <=? length hashes) && (length hashes <=? 3) then
    let '(ws, r') := span_class isspace r in
    if truthy ws then Some (length hashes, take_line r') else None
  else None.

(** [num_match]: the numbered-item pattern under [re.match], digits, a
    period, white space, the rest of the line (group 1). *)
Definition num_match (stripped : str) : option str :=
  let '(digits, r) := span_class re_digit stripped in
  if truthy digits then
    match r with
    | c :: r1 =>
        if Ascii.eqb c "."%char then
          let '(ws, r') := span_class isspace r1 in
          if truthy ws then Some (take_line r') else None
        else None
    | [] => None
    end
  else None.

Definition is_rule (stripped : str) : bool :=
  str_eqb stripped (lit "---") || str_eqb stripped (lit "***")
  || str_eqb stripped (lit "___").

Definition heading_type (level : nat) : string :=
  match level with
  | 1 => "heading_1"
  | 2 => "heading_2"
  | _ => "heading_3"
  end.

(** The test that ends a paragraph *)
Definition ends_paragraph (next_s : str) : bool :=
  negb (truthy next_s) || startswith (lit "#") next_s
  || startswith (lit "- ") next_s || startswith (lit "* ") next_s
  || str_eqb next_s (lit "$$") || startswith (lit "```") next_s
  || startswith (lit "> ") next_s || is_rule next_s
  || (match num_match next_s with Some _ => true | None => false end).

(** The paragraph loop *)
Fixpoint collect_paragraph (lines : list str) : list str * list str :=
  match lines with
  | [] => ([], [])
  | l :: rest =>
      let next_s := strip l in
      if ends_paragraph next_s then ([], lines)
      else let '(para_lines, r) := collect_paragraph rest in
           (next_s :: para_lines, r)
  end.

(** One turn of the [while i < len(lines)] loop of [build_blocks] with
    the cursor on [line]: the block appended, if any, and the lines from
    the new cursor on. *)
Definition build_step (line : str) (rest : list str)
  : option block * list str :=
  let stripped := strip line in
  if negb (truthy stripped) then (None, rest)
  else if str_eqb stripped (lit "$$") then
    let '(math_lines, found_closing, rest') := collect_equation [] rest in
    if found_closing then
      (Some (equation_block (strip (join [NL] math_lines))), rest')
    else
      (Some (rich_block "paragraph"
               (_parse_rich_text (lit "$$" ++ join (lit " ") math_lines))),
       rest')
  else if startswith (lit "```") stripped then
    let lang := strip (skipn 3 stripped) in
    let '(code_lines, rest') := collect_code rest in
    (Some (code_block (join [NL] code_lines)
             (if truthy lang then lang else lit "plain text")),
     skipn 1 rest')
  else if is_rule stripped then (Some divider_block, rest)
  else
    match header_match stripped with
    | Some (level, g2) =>
        (Some (rich_block (heading_type level) (_parse_rich_text g2)), rest)
    | None =>
        if startswith (lit "> ") stripped then
          let '(quote_lines, rest') := collect_quote rest in
          (Some (rich_block "quote"
                   (_parse_rich_text
                      (join (lit " ") (skipn 2 stripped :: quote_lines)))),
           rest')
        else if startswith (lit "- ") stripped
                || startswith (lit "* ") stripped then
          (Some (rich_block "bulleted_list_item"
                   (_parse_rich_text (skipn 2 stripped))), rest)
        else
          match num_match stripped with
          | Some g1 =>
              (Some (rich_block "numbered_list_item" (_parse_rich_text g1)),
               rest)
          | None =>
              let '(para_lines, rest') := collect_paragraph rest in
              (Some (rich_block "paragraph"
                       (_parse_rich_text
                          (join (lit " ") (stripped :: para_lines)))),
               rest')
          end
    end.

(** The [while i < len(lines)] loop; every turn moves the cursor by at
    least one line. *)
Fixpoint segment_loop (fuel : nat) (lines : list str) : list block :=
  match fuel with
  | 0 => []
  | S fuel' =>
      match lines with
      | [] => []
      | line :: rest =>
          let '(b, rest') := build_step line rest in
          match b with
          | Some b => b :: segment_loop fuel' rest'
          | None => segment_loop fuel' rest'
          end
      end
  end.

(** The blocks before the size pass, from the cursor on. *)
Definition segment (lines : list str) : list block :=
  segment_loop (length lines) lines.

Definition build_blocks (text : str) : list block :=
  enforce (segment (split_nl text)).

End NotionBlockBuilder.

(** ** NotionClient *)

Module NotionClient.

(** The two requests of the client: [requests.post] on [/pages] with
    the body [{"parent", "properties", "children"}], and
    [requests.patch] on [/blocks/<page_id>/children] with the body
    [{"children"}]. *)
Inductive request :=
| PostPage (title : str) (parent_page_id : str) (children : list block)
| PatchChildren (page_id : str) (children : list block).

(** What the client reads of a response: [status_code] and the ["id"]
    of [resp.json()]. *)
Record response := Response { status_code : nat; json_id : str }.

Inductive level := WARNING | ERROR.

(** What the client does to the outside, in the order it does it;
    [time.sleep] is recorded in milliseconds. *)
Inductive event :=
| Call (req : request) (resp : response)
| Sleep (ms : nat)
| Log (l : level).

Definition is_patch (e : event) : bool :=
  match e with Call (PatchChildren _ _) _ => true | _ => false end.

Definition ok (resp : response) : bool := status_code resp =? 200.

Section Engine.

(** The remote system: any state, and any answer to a request. *)
Variable remote : Type.
Variable requests : remote -> request -> response * remote.

(** A computation of the client: from the state of the remote system to
    a result, the new state, and the events in the order they happened. *)
Definition M (A : Type) : Type := remote -> A * remote * list event.

Definition ret {A} (a : A) : M A := fun s => (a, s, []).

Definition bind {A B} (m : M A) (k : A -> M B) : M B :=
  fun s =>
    let '(a, s1, e1) := m s in
    let '(b, s2, e2) := k a s1 in
    (b, s2, e1 ++ e2).

Notation "x <- m ;; k" := (bind m (fun x => k))
  (at level 100, m at level 99, k at level 200).
Notation "m ;; k" := (bind m (fun _ => k))
  (at level 100, k at level 200).

Definition send (req : request) : M response :=
  fun s => let '(resp, s') := requests s req in (resp, s', [Call req resp]).

Definition sleep (ms : nat) : M unit := fun s => (tt, s, [Sleep ms]).

Definition log (l : level) : M unit := fun s => (tt, s, [Log l]).

(** The [for idx, block in enumerate(blocks)] loop of
    [_append_blocks] *)
Fixpoint retry_each (page_id : str) (blocks : list block) : M unit :=
  match blocks with
  | [] => ret tt
  | b :: blocks' =>
      resp <- send (PatchChildren page_id [b]) ;;
      (if negb (ok resp) then log ERROR else sleep 150) ;;
      retry_each page_id blocks'
  end.

Definition _append_blocks (page_id : str) (blocks : list block)
  : M unit :=
  resp <- send (PatchChildren page_id blocks) ;;
  if ok resp then ret tt
  else log WARNING ;; retry_each page_id blocks.

(** The [while remaining] loop of [create_page] *)
Fixpoint append_remaining (fuel : nat) (page_id : str)
    (remaining : list block) : M unit :=
  match fuel with
  | 0 => ret tt
  | S fuel' =>
      match remaining with
      | [] => ret tt
      | _ :: _ =>
          _append_blocks page_id (firstn 100 remaining) ;;
          sleep 350 ;;
          append_remaining fuel' page_id (skipn 100 remaining)
      end
  end.

Definition create_page (title : str) (blocks : list block)
    (parent_page_id : str) : M (option response) :=
  let first_batch := firstn 100 blocks in
  resp <- send (PostPage title parent_page_id first_batch) ;;
  if negb (ok resp) then
    log WARNING ;;
    resp <- send (PostPage title parent_page_id []) ;;
    if negb (ok resp) then
      log ERROR ;; ret None
    else
      append_remaining (length blocks) (json_id resp) blocks ;;
      ret (Some resp)
  else
    append_remaining (length (skipn 100 blocks)) (json_id resp)
      (skipn 100 blocks) ;;
    ret (Some resp).

End Engine.

End NotionClient.

(** ** BatchProcessor *)

Module BatchProcessor.
Import LatexToNotionConverter NotionBlockBuilder NotionClient.

(** The title pattern of [_extract_title], a hash, white space, the rest
    of the line, searched with [re.MULTILINE].  [t] is the text after the
    hash.  The white-space group is greedy and the group after it needs
    one character that is not a newline: with [k] characters of white
    space taken the match succeeds when such a character follows, and
    otherwise one character is given back, down to one character of
    white space.  Result: group 1. *)
Fixpoint give_back (k : nat) (t : str) : option str :=
  match k with
  | 0 => None
  | S k' =>
      match skipn k t with
      | c :: _ =>
          if Ascii.eqb c NL then give_back k' t
          else Some (take_line (skipn k t))
      | [] => give_back k' t
      end
  end.

(** A match of the pattern at the head of [s], a position where a line
    starts: group 1. *)
Definition title_at (s : str) : option str :=
  match s with
  | c :: t =>
      if Ascii.eqb c "#"%char then
        give_back (length (span_class isspace t).1) t
      else None
  | [] => None
  end.

(** [re.search]: the first position, from left to right, where the
    pattern matches; [at_line_start] tells whether the position is the
    start of the text or follows a newline. *)
Fixpoint search_title (at_line_start : bool) (s : str) : option str :=
  match (if at_line_start then title_at s else None) with
  | Some g => Some g
  | None =>
      match s with
      | [] => None
      | c :: s' => search_title (Ascii.eqb c NL) s'
      end
  end.

(** [filepath] enters through [filepath.stem] only. *)
Definition _extract_title (text : str) (stem : str) : str :=
  match search_title true text with
  | Some g => strip g
  | None => stem
  end.

(** The dict that [process_file] returns.  The entries ["notion_url"] and
    ["notion_id"] are there after an upload that gave a page, the entry
    ["error"] (a fixed message) after an upload that gave none. *)
Record result := Result {
  file : str;
  title : str;
  blocks_count : nat;
  converted_text : str;
  notion_url : option str;
  notion_id : option str;
  error : bool
}.

(** What the processor does to the outside, in the order it does it: the
    events of the client, its own [log.info] and [log.error] entries, and
    its own [time.sleep], in milliseconds. *)
Inductive batch_event :=
| OfClient (e : event)
| LogInfo
| LogError
| Wait (ms : nat).

Section Batch.

Variable remote : Type.
Variable requests : remote -> request -> response * remote.

(** A path: [str(filepath)], [filepath.stem] and [filepath.read_text]
    are functions of it. *)
Variable path : Type.
Variable path_str : path -> str.
Variable path_stem : path -> str.
Variable read_text : path -> str.

(** The ["url"] entry of the JSON of a response *)
Variable json_url : response -> str.

(** [self.client] is there or not; [self.parent_page_id] is [None] or a
    string, which counts as true when it is not empty. *)
Variable client : bool.
Variable parent_page_id : option str.

Definition process_file (filepath : path) (upload : bool)
  : remote -> result * remote * list batch_event :=
  fun s =>
    let text := read_text filepath in
    let converted := convert text in
    let blocks := build_blocks converted in
    let result :=
      Result (path_str filepath)
        (_extract_title text (path_stem filepath))
        (length blocks) converted None None false in
    match parent_page_id with
    | Some parent =>
        if upload && client && truthy parent then
          let '(data, s', evs) :=
            create_page remote requests (title result) blocks parent s in
          match data with
          | Some data =>
              (Result (file result) (title result) (blocks_count result)
                 (converted_text result)
                 (Some (json_url data)) (Some (json_id data)) false,
               s', LogInfo :: map OfClient evs ++ [LogInfo])
          | None =>
              (Result (file result) (title result) (blocks_count result)
                 (converted_text result) None None true,
               s', LogInfo :: map OfClient evs ++ [LogError])
          end
        else (result, s, [LogInfo])
    | None => (result, s, [LogInfo])
    end.

(** The [for idx, fp in enumerate(filepaths, 1)] loop of
    [process_files] *)
Fixpoint process_loop (total idx : nat) (filepaths : list path)
    (upload : bool) : remote -> list result * remote * list batch_event :=
  fun s =>
    match filepaths with
    | [] => ([], s, [])
    | fp :: filepaths' =>
        let '(result, s1, e1) := process_file fp upload s in
        let pause :=
          if upload && (idx <? total) then [Wait 500] else [] in
        let '(results, s2, e2) :=
          process_loop total (S idx) filepaths' upload s1 in
        (result :: results, s2, LogInfo :: e1 ++ pause ++ e2)
    end.

Definition process_files (filepaths : list path) (upload : bool)
  : remote -> list result * remote * list batch_event :=
  process_loop (length filepaths) 1 filepaths upload.

End Batch.

End BatchProcessor.

(** * Notions used in the statements *)

Import LatexToNotionConverter NotionBlockBuilder NotionClient.

(** A line: a string without a newline. *)
Definition one_line (l : str) : bool :=
  forallb (fun c => negb (Ascii.eqb c NL)) l.

(** Strings whose first, respectively last, character is not white
    space *)
Definition head_ok (s : str) : bool :=
  match s with
  | [] => false
  | a :: _ => negb (isspace a)
  end.

Definition last_ok (s : str) : bool := head_ok (rev s).

(** Strings of white space only *)
Definition all_space (s : str) : bool := forallb isspace s.

Definition ceil_div (n d : nat) : nat := (n + (d - 1)) / d.

(** A formula line: trimmed, not empty, without a newline, and not ending
    in the delimiter. *)
Definition formula_line (f : str) : bool :=
  str_eqb (strip f) f && truthy f && one_line f
  && negb (endswith (lit "$$") f).

(** A formula body: one line whose trimmed text is not empty and does not
    end in the delimiter. *)
Definition formula_body (f : str) : bool :=
  one_line f && truthy (strip f) && negb (endswith (lit "$$") (strip f)).

(** The text made of the given lines *)
Definition text_of (lines : list str) : str := join [NL] lines.

Definition no_dollar (s : str) : bool :=
  forallb (fun c => negb (is_dollar c)) s.

(** Content that [replace_inline] leaves alone: blank, or a digit followed
    by digits, commas and periods only. *)
Definition blank (content : str) : bool := negb (truthy (strip content)).

Definition currency_like (content : str) : bool :=
  match content with
  | [] => false
  | d :: _ => isdigit d && forallb numeric_class content
  end.

Definition prev_ok (prev : option ascii) : bool :=
  match prev with
  | Some p => negb (is_dollar p)
  | None => true
  end.

(** A line seen as text without dollars, [pre], followed by single-dollar
    spans: each span has a content [c] and is followed by text without
    dollars, [mid]. *)
Definition span_line (pre : str) (spans : list (str * str)) : str :=
  pre ++ concat (map (fun '(c, mid) => lit "$" ++ c ++ lit "$" ++ mid) spans).

(** The contents have no dollar, are not empty and stay on the line; the
    text between two spans is not empty. *)
Fixpoint spans_ok (spans : list (str * str)) : bool :=
  match spans with
  | [] => true
  | (c, mid) :: rest =>
      no_dollar c && truthy c && one_line c
      && no_dollar mid && one_line mid
      && (truthy mid || negb (truthy rest))
      && spans_ok rest
  end.

(** The same line with each span kept as it is when its content is blank
    or currency-like, and put in the canonical marker otherwise. *)
Definition rewritten_line (pre : str) (spans : list (str * str)) : str :=
  pre ++ concat (map (fun '(c, mid) =>
                        (if blank c || currency_like c
                         then lit "$" ++ c ++ lit "$"
                         else lit "$`" ++ c ++ lit "`$") ++ mid) spans).

(** Text without the characters that open a pattern of [_parse_rich_text]
    (the dollar opens one only before a backtick) *)
Definition plain_char (c : ascii) : bool :=
  negb (Ascii.eqb c "`"%char || Ascii.eqb c "*"%char || Ascii.eqb c "["%char).

Definition plain_text (s : str) : bool := forallb plain_char s.

(** The rich-text elements of a block *)
Definition block_items (b : block) : list rich_text_item :=
  match inner b !! "rich_text"%string with
  | Some (ARichText rt) => rt
  | _ => []
  end.

(** A fence followed by one line of 2001 characters. *)
Definition long_code_text : str :=
  lit "```" ++ NL :: repeat "a"%char 2001.

(** A code block with 250 rich-text elements and a language: three clones,
    each with the language. *)
Definition wide_code_block : block :=
  Block "code"
    (<["language"%string := AStr (lit "python")]>
       {[ "rich_text"%string :=
            ARichText (repeat (TextItem (lit "a") None) 250) ]}).

(** A remote system that refuses the first request it gets and accepts
    the others, and one that refuses every request; the state counts the
    requests. *)
Definition refuse_first (n : nat) (req : request) : response * nat :=
  (Response (if n =? 0 then 400 else 200) (lit "page-1"), S n).

Definition refuse_all (n : nat) (req : request) : response * nat :=
  (Response 400 [], S n).

Definition is_sleep (e : event) : bool :=
  match e with Sleep _ => true | _ => false end.

(** ** Notions used in the further properties *)

Import BatchProcessor.

(** Text free of a given character *)
Definition no_char (x : ascii) (s : str) : bool :=
  forallb (fun c => negb (Ascii.eqb c x)) s.

(** Text before a span of [_parse_rich_text]: without the characters that
    open a pattern and not ending in a dollar (which would open the
    inline-math pattern before a backtick). *)
Definition text_before (pre : str) : bool :=
  plain_text pre && negb (endswith (lit "$") pre).

(** The delimiter of an annotated span and the character its content
    cannot hold. *)
Definition marker (a : annotations) : str :=
  match a with
  | bold => lit "**"
  | italic => lit "*"
  | code => lit "`"
  end.

Definition marker_stop (a : annotations) : ascii :=
  match a with
  | code => "`"%char
  | _ => "*"%char
  end.

(** The number of dollar signs of a line *)
Definition dollars (s : str) : nat := length (List.filter is_dollar s).

(** The blocks a request carries, and the requests among the events *)
Definition children_of (req : request) : list block :=
  match req with
  | PostPage _ _ children => children
  | PatchChildren _ children => children
  end.

Definition event_children (e : event) : list block :=
  match e with
  | Call req _ => children_of req
  | _ => []
  end.

Definition calls (evs : list event) : list request :=
  flat_map (fun e => match e with Call req _ => [req] | _ => [] end) evs.

(** A remote system that accepts every request. *)
Definition accept_all (n : nat) (req : request) : response * nat :=
  (Response 200 (lit "page-1"), S n).

(** The line after a run of lines, trimmed, passes [test], or there is
    none. *)
Definition next_line (test : str -> bool) (rest : list str) : bool :=
  match rest with
  | [] => true
  | r :: _ => test (strip r)
  end.

(** A line that begins with a character that opens no kind of block and
    no span: not white space, not a digit, none of the markup
    characters. *)
Definition text_head (s : str) : bool :=
  match s with
  | [] => false
  | c :: _ =>
      negb (isspace c || re_digit c
            || existsb (Ascii.eqb c) (lit "#-*$`>_["))
  end.

(** A line where the title pattern can start: a hash followed by white
    space or by the end of the line. *)
Definition title_line (l : str) : bool :=
  match l with
  | [] => false
  | c :: r =>
      Ascii.eqb c "#"%char
      && match r with
         | [] => true
         | d :: _ => isspace d
         end
  end.

(** The text of lines that each end in a newline *)
Definition lines_text (lines : list str) : str :=
  concat (map (fun l => l ++ [NL]) lines).

(** The events of the retry loop of [_append_blocks] on blocks that got
    the given answers: each request is followed by a pause when it was
    accepted and by an error entry when it was not. *)
Definition retry_trace (page_id : str) (answers : list (block * response))
  : list event :=
  flat_map (fun '(b, resp) =>
              [ Call (PatchChildren page_id [b]) resp;
                if ok resp then Sleep 150 else Log ERROR ])
           answers.

(** A request that appends to the page [page_id], or no request that
    appends *)
Definition appends_to (page_id : str) (e : event) : bool :=
  match e with
  | Call (PatchChildren p _) _ => str_eqb p page_id
  | _ => true
  end.

Definition is_log (e : event) : bool :=
  match e with Log _ => true | _ => false end.

(** The pauses of the processor and the events of the client among the
    events of a batch *)
Definition is_wait (e : batch_event) : bool :=
  match e with Wait _ => true | _ => false end.

Definition of_client (e : batch_event) : bool :=
  match e with OfClient _ => true | _ => false end.

(** The block types that [build_blocks] writes *)
Definition block_types : list string :=
  [ "equation"; "paragraph"; "code"; "divider"; "heading_1"; "heading_2";
    "heading_3"; "quote"; "bulleted_list_item"; "numbered_list_item" ]%string.

(** The events of the [while remaining] loop of [create_page] on batches
    that were accepted with the given answers: each request is followed
    by the pause of 0.35 s. *)
Definition append_trace (page_id : str)
    (answers : list (list block * response)) : list event :=
  flat_map (fun '(batch, resp) =>
              [ Call (PatchChildren page_id batch) resp; Sleep 350 ])
           answers.

(** Lists put end to end with [sep] between two of them *)
Fixpoint interleave {A} (sep : list A) (ls : list (list A)) : list A :=
  match ls with
  | [] => []
  | l :: ls' =>
      match ls' with
      | [] => l
      | _ :: _ => l ++ sep ++ interleave sep ls'
      end
  end.

(** ** Notions used for the lines of a text *)

(** A line whose trimmed text is the block delimiter: the inline pass
    turns its flag [in_block_math] over on it. *)
Definition is_marker (l : str) : bool := str_eqb (strip l) (lit "$$").

(** The flag [in_block_math] of the inline pass after the lines [before]:
    set when an odd number of them are delimiter lines. *)
Definition in_block_math (before : list str) : bool :=
  Nat.odd (length (List.filter is_marker before)).

(** A line outside block math: its trimmed text does not start with the
    delimiter. *)
Definition other_line (l : str) : bool :=
  one_line l && negb (startswith (lit "$$") (strip l)).

(** A line inside a formula body: its trimmed text does not end in the
    delimiter, so that it does not close the formula. *)
Definition body_line (l : str) : bool :=
  one_line l && negb (endswith (lit "$$") (strip l)).

(** The lines of a formula body: at most 31, the bound of the search for
    the closing delimiter. *)
Definition body_lines (ls : list str) : bool :=
  forallb body_line ls && (length ls <=? 31).

(** ** Documents *)

(** The parts of a document: a line outside block math, or block math in
    one of its spellings: on one line, [OneLine]; with both delimiters on
    lines of their own, [Standard]; with the first line of the body on the
    line of the opening delimiter, [OpenInline]; with the last line of the
    body on the line of the closing delimiter, [CloseInline]. *)
Inductive part :=
| TextLine (l : str)
| OneLine (f : str)
| Standard (body : list str)
| OpenInline (l1 : str) (ls : list str)
| CloseInline (ls : list str) (lk : str).

Definition part_lines (q : part) : list str :=
  match q with
  | TextLine l => [l]
  | OneLine f => [lit "$$" ++ f ++ lit "$$"]
  | Standard body => lit "$$" :: body ++ [lit "$$"]
  | OpenInline l1 ls => (lit "$$" ++ l1) :: ls ++ [lit "$$"]
  | CloseInline ls lk => lit "$$" :: ls ++ [lk ++ lit "$$"]
  end.

(** The lines that the block pass collects for a formula: a line written
    on the line of a delimiter is trimmed, the others are kept. *)
Definition math_lines_of (q : part) : list str :=
  match q with
  | TextLine _ => []
  | OneLine f => [f]
  | Standard body => body
  | OpenInline l1 ls => strip l1 :: ls
  | CloseInline ls lk => ls ++ [strip lk]
  end.

(** The formula of the canonical form: the collected lines, trimmed as a
    whole. *)
Definition formula_text (q : part) : str :=
  strip (text_of (math_lines_of q)).

(** Block math that the block pass recognises: the line written on the
    line of a delimiter is not blank, no line of the body closes the
    formula, and the bound of the search is kept. *)
Definition spelled (q : part) : bool :=
  match q with
  | TextLine _ => false
  | OneLine f => formula_body f
  | Standard body => truthy body && body_lines body
  | OpenInline l1 ls => formula_body l1 && body_lines (l1 :: ls)
  | CloseInline ls lk => formula_body lk && body_lines (ls ++ [lk])
  end.

Definition is_math (q : part) : nat :=
  match q with
  | TextLine _ => 0
  | _ => 1
  end.

(** A document: a first part and further parts, each after a number of
    empty lines.  [lines_from f rest] are the lines of the further parts
    when [f] gives the lines of a part. *)
Definition lines_from (f : part -> list str) (rest : list (nat * part))
  : list str :=
  flat_map (fun '(gap, q) => repeat [] gap ++ f q) rest.

Definition doc_lines (p : part) (rest : list (nat * part)) : list str :=
  part_lines p ++ lines_from part_lines rest.

(** A line outside block math as the inline pass leaves it. *)
Definition inline_line (l : str) : str :=
  if contains (lit "$`") l then l else sub_inline_line l.

(** Block math in the canonical form; the other lines as they are. *)
Definition canonical (q : part) : part :=
  match q with
  | TextLine l => TextLine l
  | _ => Standard (split_nl (formula_text q))
  end.

(** The lines of a part with the empty lines that the block pass puts
    around block math. *)
Definition padded (q : part) : list str :=
  repeat [] (is_math q) ++ part_lines q ++ repeat [] (is_math q).

(** What [convert] makes of a document: the lines outside block math go
    through the inline pass, block math is put in the canonical form, and
    the empty lines between two parts, with one more for each of the two
    that is block math, are capped at two. *)
Definition settle_part (q : part) : part :=
  match q with
  | TextLine l => TextLine (inline_line l)
  | _ => canonical q
  end.

Fixpoint settle (prev : part) (rest : list (nat * part))
  : list (nat * part) :=
  match rest with
  | [] => []
  | (gap, q) :: rest' =>
      (Nat.min 2 (gap + is_math prev + is_math q), settle_part q)
      :: settle q rest'
  end.

(** The documents considered: without carriage return; the lines outside
    block math are not empty; block math is recognised, its formula is not
    empty and has no run of four newlines; the document does not begin or
    end with white space. *)
Definition good_part (q : part) : bool :=
  match q with
  | TextLine l => truthy l && other_line l
  | _ => spelled q && truthy (formula_text q)
         && negb (contains (repeat NL 4) (formula_text q))
  end.

Definition last_part (p : part) (rest : list (nat * part)) : part :=
  List.last (map snd rest) p.

Definition good_doc (p : part) (rest : list (nat * part)) : bool :=
  forallb good_part (p :: map snd rest)
  && forallb (no_char CR) (doc_lines p rest)
  && head_ok (hd [] (part_lines p))
  && last_ok (List.last (part_lines (last_part p rest)) []).

(** Block math is set off: between block math and a line outside block
    math there is an empty line. *)
Fixpoint set_off (prev : part) (rest : list (nat * part)) : bool :=
  match rest with
  | [] => true
  | (gap, q) :: rest' =>
      ((is_math prev =? is_math q) || (1 <=? gap)) && set_off q rest'
  end.

(** A settled document: every line outside block math has the canonical
    marker or at most one dollar; block math is in the canonical form, its
    formula trimmed; there are at most two empty lines between two parts,
    and exactly two next to block math. *)
Definition settled_part (q : part) : bool :=
  match q with
  | TextLine l => contains (lit "$`") l || (dollars l <=? 1)
  | Standard body => head_ok (hd [] body) && last_ok (List.last body [])
  | _ => false
  end.

Fixpoint settled_gaps (prev : part) (rest : list (nat * part)) : bool :=
  match rest with
  | [] => true
  | (gap, q) :: rest' =>
      (gap =? Nat.min 2 (gap + is_math prev + is_math q))
      && settled_gaps q rest'
  end.

Definition settled (p : part) (rest : list (nat * part)) : bool :=
  forallb settled_part (p :: map snd rest) && settled_gaps p rest.

(** * Facts about strings *)

Module StrFacts.

Lemma startswith_cons x p c s :
  startswith (x :: p) (c :: s) = Ascii.eqb x c && startswith p s.
Proof. reflexivity. Qed.

Lemma startswith_nil s : startswith [] s = true.
Proof. by destruct s. Qed.

Lemma str_eqb_cons x a y b :
  str_eqb (x :: a) (y :: b) = Ascii.eqb x y && str_eqb a b.
Proof. reflexivity. Qed.

Lemma str_eqb_eq a : forall b, str_eqb a b = true <-> a = b.
Proof.
  induction a as [|x a IH]; intros [|y b]; try (by split).
  rewrite str_eqb_cons, andb_true_iff, Ascii.eqb_eq, IH.
  split; [intros [-> ->]; done | intros [= -> ->]; done].
Qed.

Lemma str_eqb_refl a : str_eqb a a = true.
Proof. by apply str_eqb_eq. Qed.

Lemma str_eqb_neq a b : str_eqb a b = false <-> a <> b.
Proof.
  rewrite <- str_eqb_eq. destruct (str_eqb a b); split; done.
Qed.

Lemma startswith_app p s : startswith p (p ++ s) = true.
Proof.
  induction p as [|x p IH]; simpl; [apply startswith_nil|].
  by rewrite startswith_cons, Ascii.eqb_refl, IH.
Qed.

Lemma startswith_spec p : forall s,
  startswith p s = true <-> exists t, s = p ++ t.
Proof.
  induction p as [|x p IH]; intros s.
  - rewrite startswith_nil. split; [eauto|done].
  - destruct s as [|c s]; [split; [done|intros [t [=]]]|].
    rewrite startswith_cons, andb_true_iff, Ascii.eqb_eq, IH.
    split.
    + intros [-> [t ->]]. by exists t.
    + intros [t [= -> ->]]. eauto.
Qed.

(** [split] and [join] on lines *)
Lemma split_nl_one_line l : one_line l = true -> split_nl l = [l].
Proof.
  induction l as [|c l IH]; [done|]. simpl.
  intros [Hc Hl]%andb_true_iff. apply negb_true_iff in Hc.
  by rewrite Hc, IH.
Qed.

Lemma split_nl_app l s :
  one_line l = true -> split_nl (l ++ NL :: s) = l :: split_nl s.
Proof.
  induction l as [|c l IH]; [done|]. simpl.
  intros [Hc Hl]%andb_true_iff. apply negb_true_iff in Hc.
  by rewrite Hc, IH.
Qed.

Lemma join_cons sep l l' ls :
  join sep (l :: l' :: ls) = l ++ sep ++ join sep (l' :: ls).
Proof. reflexivity. Qed.

Lemma split_nl_join l ls :
  Forall (fun l => one_line l = true) (l :: ls) ->
  split_nl (join [NL] (l :: ls)) = l :: ls.
Proof.
  revert l. induction ls as [|l' ls IH]; intros l H.
  - simpl. apply split_nl_one_line. by inversion H.
  - rewrite join_cons. inversion H; subst. cbn [app].
    rewrite split_nl_app by done. by rewrite IH.
Qed.

(** [strip] and the ends of a string *)
Lemma lstrip_cons c s : isspace c = false -> lstrip (c :: s) = c :: s.
Proof. intros H. simpl. by rewrite H. Qed.

Lemma lstrip_space c s : isspace c = true -> lstrip (c :: s) = lstrip s.
Proof. intros H. simpl. by rewrite H. Qed.

Lemma rstrip_snoc s z : isspace z = false -> rstrip (s ++ [z]) = s ++ [z].
Proof.
  intros H. unfold rstrip. rewrite rev_app_distr. simpl.
  rewrite H. simpl. by rewrite rev_involutive.
Qed.

Lemma rstrip_snoc_space s z : isspace z = true -> rstrip (s ++ [z]) = rstrip s.
Proof.
  intros H. unfold rstrip. rewrite rev_app_distr. simpl. by rewrite H.
Qed.

Lemma lstrip_length s : length (lstrip s) <= length s.
Proof.
  induction s as [|c s IH]; simpl; [lia|].
  destruct (isspace c); simpl; lia.
Qed.

Lemma lstrip_fixed s : length (lstrip s) = length s -> lstrip s = s.
Proof.
  destruct s as [|c s]; [done|]. simpl.
  destruct (isspace c); [|done].
  pose proof (lstrip_length s). simpl. lia.
Qed.

(** A trimmed, non-empty string begins and ends with a character that is
    not white space. *)
Lemma strip_fixed_ends f :
  strip f = f -> f <> [] ->
  exists g z, f = g ++ [z] /\ isspace z = false /\ lstrip f = f.
Proof.
  intros Hs Hne.
  assert (Hr : rstrip f = f /\ lstrip f = f).
  { pose proof (lstrip_length (rstrip f)) as H1.
    pose proof (lstrip_length (rev f)) as H2.
    unfold strip in Hs. rewrite Hs in H1.
    unfold rstrip in H1 at 1. rewrite length_rev in H1, H2.
    assert (Hrev : lstrip (rev f) = rev f).
    { apply lstrip_fixed. rewrite length_rev. lia. }
    assert (Hrs : rstrip f = f).
    { unfold rstrip. by rewrite Hrev, rev_involutive. }
    split; [done|]. by rewrite Hrs in Hs. }
  destruct Hr as [Hr Hl].
  destruct (exists_last Hne) as (g & z & ->).
  exists g, z. split; [done|]. split; [|done].
  destruct (isspace z) eqn:E; [|done].
  rewrite rstrip_snoc_space in Hr by done.
  pose proof (lstrip_length (rev g)) as H.
  apply (f_equal (@length ascii)) in Hr.
  unfold rstrip in Hr. rewrite length_rev, length_app in Hr.
  rewrite length_rev in H. simpl in Hr. lia.
Qed.

Lemma endswith_app p s : endswith p (s ++ p) = true.
Proof. unfold endswith. rewrite rev_app_distr. apply startswith_app. Qed.

Lemma drop_last_app s p : drop_last (length p) (s ++ p) = s.
Proof.
  unfold drop_last. rewrite length_app.
  replace (length s + length p - length p) with (length s) by lia.
  by rewrite take_app_length.
Qed.

Lemma rstrip_ok s : last_ok s = true -> rstrip s = s.
Proof.
  unfold rstrip, last_ok. intros Hl. destruct (rev s) as [|z r] eqn:E.
  - done.
  - simpl in Hl. apply negb_true_iff in Hl.
    rewrite lstrip_cons by done. by rewrite <- E, rev_involutive.
Qed.

Lemma strip_ok s : head_ok s = true -> last_ok s = true -> strip s = s.
Proof.
  intros Hh Hl. unfold strip. rewrite rstrip_ok by done.
  destruct s as [|a s]; [done|].
  simpl in Hh. apply negb_true_iff in Hh. by apply lstrip_cons.
Qed.

Lemma head_ok_app s t : head_ok s = true -> head_ok (s ++ t) = true.
Proof. by destruct s. Qed.

Lemma last_ok_app s t : last_ok t = true -> last_ok (s ++ t) = true.
Proof. unfold last_ok. rewrite rev_app_distr. apply head_ok_app. Qed.

Lemma last_ok_cons a t : last_ok t = true -> last_ok (a :: t) = true.
Proof. apply (last_ok_app [a]). Qed.

Lemma strip_fixed_ok f :
  strip f = f -> f <> [] -> head_ok f = true /\ last_ok f = true.
Proof.
  intros Hs Hne. destruct (strip_fixed_ends f Hs Hne) as (g & z & -> & Hz & Hl).
  split.
  - destruct (g ++ [z]) as [|a t] eqn:E; [by destruct g|].
    simpl in *. destruct (isspace a); [|done].
    pose proof (lstrip_length t) as H. rewrite Hl in H. simpl in H. lia.
  - unfold last_ok. rewrite rev_app_distr. simpl. by rewrite Hz.
Qed.

(** [strip] takes white space off both ends and leaves the rest. *)
Lemma all_space_rev s : all_space (rev s) = all_space s.
Proof.
  unfold all_space. induction s as [|c s IH]; [done|].
  simpl. rewrite forallb_app, IH. simpl. by rewrite andb_true_r, andb_comm.
Qed.

Lemma lstrip_space_app p t :
  all_space p = true -> lstrip (p ++ t) = lstrip t.
Proof.
  induction p as [|c p IH]; [done|]. simpl.
  intros [Hc Hp]%andb_true_iff. rewrite Hc. by apply IH.
Qed.

Lemma rstrip_app_space s q :
  all_space q = true -> rstrip (s ++ q) = rstrip s.
Proof.
  intros Hq. unfold rstrip. rewrite rev_app_distr.
  rewrite lstrip_space_app; [done|]. by rewrite all_space_rev.
Qed.

Lemma strip_core p m q :
  all_space p = true -> all_space q = true ->
  head_ok m = true -> last_ok m = true ->
  strip (p ++ m ++ q) = m.
Proof.
  intros Hp Hq Hh Hl. unfold strip.
  rewrite app_assoc, rstrip_app_space by done.
  rewrite rstrip_ok by (by apply last_ok_app).
  rewrite lstrip_space_app by done.
  destruct m as [|a m]; [done|].
  simpl in Hh. apply negb_true_iff in Hh. by apply lstrip_cons.
Qed.

Lemma lstrip_parts s :
  exists p, s = p ++ lstrip s /\ all_space p = true.
Proof.
  induction s as [|c s (p & Hp & Hs)].
  - by exists [].
  - simpl. destruct (isspace c) eqn:E.
    + exists (c :: p). simpl. rewrite E, Hs. split; [|done]. by f_equal.
    + by exists [].
Qed.

Lemma lstrip_head_ok s : lstrip s <> [] -> head_ok (lstrip s) = true.
Proof.
  induction s as [|c s IH]; [done|]. simpl.
  destruct (isspace c) eqn:E; [done|]. intros _. simpl. by rewrite E.
Qed.

Lemma last_ok_suffix p u :
  u <> [] -> last_ok (p ++ u) = true -> last_ok u = true.
Proof.
  unfold last_ok. rewrite rev_app_distr. intros Hu.
  destruct (rev u) as [|z r] eqn:E; [|done].
  apply (f_equal (@rev ascii)) in E. rewrite rev_involutive in E. done.
Qed.

(** A string is white space, its trimmed text, white space; the trimmed
    text, when not empty, begins and ends with other characters. *)
Lemma strip_parts f :
  exists p q, f = p ++ strip f ++ q
              /\ all_space p = true /\ all_space q = true.
Proof.
  destruct (lstrip_parts (rev f)) as (q & Hq & Hqs).
  destruct (lstrip_parts (rstrip f)) as (p & Hp & Hps).
  exists p, (rev q). split; [|split; [done|by rewrite all_space_rev]].
  unfold strip. rewrite app_assoc, <- Hp.
  unfold rstrip. rewrite <- rev_app_distr, <- Hq. by rewrite rev_involutive.
Qed.

Lemma strip_nonempty_ok f :
  strip f <> [] -> head_ok (strip f) = true /\ last_ok (strip f) = true.
Proof.
  intros Hne. split; [by apply lstrip_head_ok|].
  unfold strip in *.
  destruct (lstrip_parts (rstrip f)) as (p & Hp & _).
  apply (last_ok_suffix p); [done|]. rewrite <- Hp.
  unfold rstrip, last_ok. rewrite rev_involutive.
  apply lstrip_head_ok. intros E.
  unfold rstrip in Hne. rewrite E in Hne. done.
Qed.

End StrFacts.

(** * The loops have fuel enough

    Each loop of the source that is written with fuel here moves forward
    at every turn; with the fuel it is given it comes to its end, and
    more fuel changes nothing. *)

Module FuelFacts.
Import StrFacts.

(** **** [_chunk_text]: the pieces, put end to end, are the content. *)
Lemma chunk_loop_cons fuel c content ann :
  chunk_loop (S fuel) (c :: content) ann
  = TextItem (firstn MAX_TEXT_LENGTH (c :: content)) ann
    :: chunk_loop fuel (skipn MAX_TEXT_LENGTH (c :: content)) ann.
Proof. reflexivity. Qed.

Lemma chunk_loop_concat fuel : forall content ann,
  length content <= fuel ->
  concat (map item_content (chunk_loop fuel content ann)) = content.
Proof.
  induction fuel as [|fuel IH]; intros content ann Hf.
  - destruct content; [done | simpl in Hf; lia].
  - destruct content as [|c content]; [done|].
    rewrite chunk_loop_cons, map_cons, concat_cons.
    rewrite IH; [apply firstn_skipn|].
    rewrite length_drop. unfold MAX_TEXT_LENGTH. cbn [length] in *. lia.
Qed.

Lemma chunk_text_concat content ann :
  concat (map item_content (_chunk_text content ann)) = content.
Proof. by apply chunk_loop_concat. Qed.

(** **** [_convert_block_math] *)
Lemma collect_math_rest lines : forall math_lines,
  length (collect_math math_lines lines).2 <= length lines.
Proof.
  induction lines as [|l rest IH]; intros math_lines; [done|].
  cbn [collect_math].
  destruct (str_eqb _ _); [simpl; lia|].
  destruct (_ && _); [simpl; lia|].
  destruct (30 <? _); [simpl; lia|].
  etrans; [apply IH|simpl; lia].
Qed.

Lemma block_math_step_rest line rest :
  length (block_math_step line rest).2 <= length rest.
Proof.
  unfold block_math_step.
  destruct (startswith _ _); [|done].
  destruct (_ && _); [done|].
  match goal with
  | |- context [collect_math ?m rest] =>
      pose proof (collect_math_rest rest m) as H;
      destruct (collect_math m rest) as [[ml found] rest']
  end.
  simpl in H. by destruct (_ && _).
Qed.

Lemma block_math_loop_fuel fuel1 : forall fuel2 lines,
  length lines <= fuel1 -> length lines <= fuel2 ->
  block_math_loop fuel1 lines = block_math_loop fuel2 lines.
Proof.
  induction fuel1 as [|fuel1 IH]; intros fuel2 lines H1 H2.
  - destruct lines; [|simpl in H1; lia]. by destruct fuel2.
  - destruct lines as [|line rest]; [by destruct fuel2|].
    destruct fuel2 as [|fuel2]; [simpl in H2; lia|]. simpl in *.
    pose proof (block_math_step_rest line rest) as Hr.
    destruct (block_math_step line rest) as [out rest']. simpl in Hr.
    by rewrite (IH fuel2 rest') by lia.
Qed.

(** **** [re.sub] of the inline pass *)
Lemma close_after_rest t : forall last more r,
  close_after last t = Some (more, r) -> length r < length t.
Proof.
  induction t as [|d t IH]; intros last more r H; [done|].
  cbn [close_after] in H.
  destruct (_ && _); [injection H as _ <-; simpl; lia|].
  destruct (Ascii.eqb d NL); [done|].
  destruct (close_after d t) as [[m r']|] eqn:E; [|done].
  injection H as _ <-. apply IH in E. simpl. lia.
Qed.

Lemma match_inline_rest prev s content r :
  match_inline prev s = Some (content, r) -> length r < length s.
Proof.
  unfold match_inline. destruct s as [|o [|c t]]; try done.
  destruct (_ && _); [|done].
  destruct (close_after c t) as [[m r']|] eqn:E; [|done].
  intros [= _ <-]. apply close_after_rest in E. simpl. lia.
Qed.

Lemma sub_inline_fuel fuel1 : forall fuel2 prev s,
  length s <= fuel1 -> length s <= fuel2 ->
  sub_inline fuel1 prev s = sub_inline fuel2 prev s.
Proof.
  induction fuel1 as [|fuel1 IH]; intros fuel2 prev s H1 H2.
  - destruct s; [|simpl in H1; lia]. by destruct fuel2.
  - destruct s as [|c s]; [by destruct fuel2|].
    destruct fuel2 as [|fuel2]; [simpl in H2; lia|].
    cbn [sub_inline].
    destruct (match_inline prev (c :: s)) as [[content r]|] eqn:E.
    + apply match_inline_rest in E. simpl in *.
      by rewrite (IH fuel2) by lia.
    + simpl in *. by rewrite (IH fuel2) by lia.
Qed.

(** **** [finditer] of [_parse_rich_text] *)
Lemma after_prefix_rest p s t :
  after_prefix p s = Some t -> length t + length p = length s.
Proof.
  unfold after_prefix. destruct (startswith p s) eqn:E; [|done].
  intros [= <-]. apply startswith_spec in E as [u ->].
  rewrite length_drop, length_app. lia.
Qed.

Lemma span_not_rest stop s :
  length (span_not stop s).2 <= length s.
Proof.
  induction s as [|c s IH]; [done|]. cbn [span_not].
  destruct (Ascii.eqb c stop); [done|].
  destruct (span_not stop s) as [run r]. simpl in *. lia.
Qed.

Lemma delimited_rest open stop close s r :
  delimited open stop close s = Some r ->
  length r + length open <= length s.
Proof.
  unfold delimited.
  destruct (after_prefix open s) as [t|] eqn:E; [|done].
  apply after_prefix_rest in E.
  pose proof (span_not_rest stop t) as Hs.
  destruct (span_not stop t) as [run u]. simpl in Hs.
  destruct (truthy run); [|done].
  intros H%after_prefix_rest. lia.
Qed.

Lemma match_at_rest s matched r :
  match_at s = Some (matched, r) -> length r < length s.
Proof.
  unfold match_at, or_else, alt_math, alt_bold, alt_italic, alt_code,
    alt_link.
  intros H.
  repeat match type of H with
  | context [delimited ?o ?st ?cl ?x] =>
      let E := fresh "E" in
      let r0 := fresh "r" in
      destruct (delimited o st cl x) as [r0|] eqn:E;
      [apply delimited_rest in E; cbn [length lit list_ascii_of_string] in E|]
  end; simplify_eq; simpl in *; lia.
Qed.

Lemma parse_loop_fuel fuel1 : forall fuel2 plain_rev s,
  length s < fuel1 -> length s < fuel2 ->
  parse_loop fuel1 plain_rev s = parse_loop fuel2 plain_rev s.
Proof.
  induction fuel1 as [|fuel1 IH]; intros fuel2 plain_rev s H1 H2; [lia|].
  destruct fuel2 as [|fuel2]; [lia|].
  destruct s as [|c s]; [done|]. cbn [parse_loop].
  destruct (match_at (c :: s)) as [[matched r]|] eqn:E.
  - apply match_at_rest in E. simpl in *.
    by rewrite (IH fuel2) by lia.
  - simpl in *. by rewrite (IH fuel2) by lia.
Qed.

End FuelFacts.

(** * Properties of the size enforcer *)

Module EnforceProofs.
Import NotionBlockBuilder.

Lemma clone_inner_insert (chunk : attr) (m : gmap string attr) :
  clone_inner chunk m = <["rich_text"%string := chunk]> m.
Proof.
  unfold clone_inner.
  apply (map_fold_weak_ind
           (fun r m => r = <["rich_text"%string := chunk]> m)).
  - by rewrite insert_empty.
  - intros i x m' r Hi ->. destruct (decide (i = "rich_text"%string)) as [->|Hne].
    + by rewrite insert_insert_eq.
    + by rewrite insert_insert_ne.
Qed.

Lemma ceil_div_step n d : 0 < d -> 0 < n -> ceil_div n d = S (ceil_div (n - d) d).
Proof.
  intros Hd Hn. unfold ceil_div.
  destruct (le_lt_dec d n) as [Hle|Hlt].
  - replace (n + (d - 1)) with ((n - d) + (d - 1) + 1 * d) by lia.
    rewrite Nat.div_add by lia. lia.
  - replace (n - d) with 0 by lia. simpl.
    rewrite (Nat.div_small (d - 1) d) by lia.
    replace (n + (d - 1)) with ((n - 1) + 1 * d) by lia.
    rewrite Nat.div_add by lia. rewrite Nat.div_small by lia. lia.
Qed.

Lemma ceil_div_0 d : 0 < d -> ceil_div 0 d = 0.
Proof. intros. unfold ceil_div. simpl. apply Nat.div_small. lia. Qed.

(** [range(i, stop, step)] is [i, i + step, ...], [ceil((stop - i) / step)]
    numbers in all. *)
Lemma range_loop_spec step : 0 < step -> forall fuel i stop,
  stop - i <= fuel ->
  range_loop fuel i stop step
  = map (fun k => i + k * step) (seq 0 (ceil_div (stop - i) step)).
Proof.
  intros Hs. induction fuel as [|fuel IH]; intros i stop Hf.
  - replace (stop - i) with 0 by lia. by rewrite ceil_div_0.
  - simpl. destruct (i <? stop) eqn:E.
    + apply Nat.ltb_lt in E.
      rewrite (ceil_div_step (stop - i)) by lia.
      rewrite IH by lia. simpl. f_equal; [lia|].
      rewrite <- seq_shift, map_map.
      replace (stop - (i + step)) with (stop - i - step) by lia.
      apply map_ext. intros k. lia.
    + apply Nat.ltb_ge in E. replace (stop - i) with 0 by lia.
      by rewrite ceil_div_0.
Qed.

Lemma range_spec n step : 0 < step ->
  range 0 n step = map (fun k => k * step) (seq 0 (ceil_div n step)).
Proof.
  intros Hs. unfold range. rewrite range_loop_spec by lia.
  by rewrite Nat.sub_0_r.
Qed.

(** The slices taken at the offsets of [range], put end to end, are the
    list again. *)
Lemma slices_concat {A} (l : list A) step : 0 < step -> forall fuel i,
  length l - i <= fuel ->
  concat (map (fun j => firstn step (skipn j l))
              (range_loop fuel i (length l) step))
  = skipn i l.
Proof.
  intros Hs. induction fuel as [|fuel IH]; intros i Hf.
  - simpl. symmetry. apply skipn_all2. lia.
  - simpl. destruct (i <? length l) eqn:E.
    + simpl. rewrite IH by lia.
      rewrite <- drop_drop. apply firstn_skipn.
    + apply Nat.ltb_ge in E. simpl. symmetry. by apply skipn_all2.
Qed.

Lemma slices_concat_seq {A} (l : list A) :
  concat (map (fun k => firstn 100 (skipn (k * 100) l))
              (seq 0 (ceil_div (length l) 100))) = l.
Proof.
  pose proof (slices_concat l 100 ltac:(lia) (length l) 0 ltac:(lia)) as H.
  rewrite range_loop_spec in H by lia.
  rewrite map_map, Nat.sub_0_r in H. exact H.
Qed.

Local Abbreviation RT := "rich_text"%string.

Lemma split_within (b : block) :
  (forall v, inner b !! RT = Some v -> attr_len v <= 100) ->
  _split_block_if_needed b = [b].
Proof.
  intros H. unfold _split_block_if_needed.
  destruct (decide (btype b = ""%string)); [done|].
  destruct (inner b !! RT) as [v|] eqn:E; [|done].
  specialize (H v eq_refl).
  destruct (attr_len v =? 0); [done|].
  unfold MAX_RICH_TEXT_ELEMENTS. simpl.
  destruct (Nat.leb_spec (attr_len v) 100); [done|lia].
Qed.

Lemma split_clones (b : block) (v : attr) :
  btype b <> ""%string -> inner b !! RT = Some v -> 100 < attr_len v ->
  _split_block_if_needed b
  = map (fun k => Block (btype b)
                    (<[RT := attr_slice (k * 100) 100 v]> (inner b)))
        (seq 0 (ceil_div (attr_len v) 100)).
Proof.
  intros Ht E Hlen. unfold _split_block_if_needed.
  destruct (decide (btype b = ""%string)); [done|]. rewrite E.
  destruct (Nat.eqb_spec (attr_len v) 0); [lia|].
  unfold MAX_RICH_TEXT_ELEMENTS. simpl.
  destruct (Nat.leb_spec (attr_len v) 100); [lia|].
  rewrite range_spec by lia. rewrite map_map.
  apply map_ext. intros k. by rewrite clone_inner_insert.
Qed.

Lemma attr_slice_len i v : attr_len (attr_slice i 100 v) <= 100.
Proof. destruct v; simpl; rewrite length_take; lia. Qed.

(** Every block that the split returns is within the limits, unless
    the block has no tag. *)
Lemma split_bounded (b c : block) (v : attr) :
  btype b <> ""%string -> In c (_split_block_if_needed b) ->
  inner c !! RT = Some v -> attr_len v <= 100.
Proof.
  intros Ht Hin Hc.
  destruct (inner b !! RT) as [w|] eqn:E.
  - destruct (le_lt_dec (attr_len w) 100) as [Hle|Hlt].
    + rewrite split_within in Hin.
      * destruct Hin as [<-|[]]. congruence.
      * intros ?. rewrite E. congruence.
    + rewrite (split_clones b w) in Hin by done.
      apply in_map_iff in Hin as (k & <- & _). simpl in Hc.
      rewrite lookup_insert_eq in Hc. injection Hc as <-.
      apply attr_slice_len.
  - rewrite split_within in Hin.
    + destruct Hin as [<-|[]]. congruence.
    + intros ?. rewrite E. congruence.
Qed.

Lemma split_idempotent (b : block) :
  flat_map _split_block_if_needed (_split_block_if_needed b)
  = _split_block_if_needed b.
Proof.
  destruct (decide (btype b = ""%string)) as [Ht|Ht].
  { unfold _split_block_if_needed at 2. rewrite decide_True by done.
    simpl. rewrite app_nil_r.
    unfold _split_block_if_needed. by rewrite decide_True. }
  assert (H : Forall (fun c => _split_block_if_needed c = [c])
                (_split_block_if_needed b)).
  { apply Forall_forall. intros c Hc. apply split_within.
    intros v Hv. eapply split_bounded; eauto. by apply list_elem_of_In. }
  induction H as [|c cs Hc _ IH]; [done|].
  simpl. by rewrite Hc, IH.
Qed.

Lemma enforce_idempotent (units : list block) :
  enforce (enforce units) = enforce units.
Proof.
  unfold enforce. induction units as [|b units IH]; [done|].
  simpl. rewrite flat_map_app. by rewrite split_idempotent, IH.
Qed.

Lemma split_other_keys (b c : block) (k : string) :
  In c (_split_block_if_needed b) -> k <> RT ->
  btype c = btype b /\ inner c !! k = inner b !! k.
Proof.
  intros Hin Hk. unfold _split_block_if_needed in Hin.
  destruct (decide (btype b = ""%string)).
  { by destruct Hin as [<-|[]]. }
  destruct (inner b !! RT) as [v|] eqn:E.
  2: { by destruct Hin as [<-|[]]. }
  destruct (_ || _).
  { by destruct Hin as [<-|[]]. }
  apply in_map_iff in Hin as (i & <- & _). simpl.
  rewrite clone_inner_insert. by rewrite lookup_insert_ne.
Qed.

(** Every block the segmenter builds carries a tag. *)
Lemma build_step_tagged line rest b rest' :
  build_step line rest = (Some b, rest') -> btype b <> ""%string.
Proof.
  unfold build_step. intros H.
  repeat case_match; simplify_eq; try done.
  match goal with
  | |- context [heading_type ?n] => by destruct n as [|[|[|]]]
  end.
Qed.

Lemma segment_loop_tagged fuel : forall lines,
  Forall (fun b => btype b <> ""%string) (segment_loop fuel lines).
Proof.
  induction fuel as [|fuel IH]; intros lines; simpl; [done|].
  destruct lines as [|line rest]; [done|].
  destruct (build_step line rest) as [[b|] rest'] eqn:E; [|done].
  constructor; [|done]. by eapply build_step_tagged.
Qed.

End EnforceProofs.

Import NotionBlockBuilder.

(** * Properties of the block segmenter *)

Module SegmentProofs.

Lemma collect_equation_rest lines : forall math_lines,
  length (collect_equation math_lines lines).2 <= length lines.
Proof.
  induction lines as [|l rest IH]; intros math_lines; simpl; [lia|].
  destruct (length math_lines <? 50); [|simpl; lia].
  destruct (str_eqb (strip l) (lit "$$")); [simpl; lia|].
  etrans; [apply IH|lia].
Qed.

Lemma collect_code_rest lines :
  length (collect_code lines).2 <= length lines.
Proof.
  induction lines as [|l rest IH]; simpl; [lia|].
  destruct (startswith (lit "```") (strip l)); [simpl; lia|].
  destruct (collect_code rest) as [c r]. simpl in *. lia.
Qed.

Lemma collect_quote_rest lines :
  length (collect_quote lines).2 <= length lines.
Proof.
  induction lines as [|l rest IH]; simpl; [lia|].
  destruct (startswith (lit "> ") (strip l)); [|simpl; lia].
  destruct (collect_quote rest) as [c r]. simpl in *. lia.
Qed.

Lemma collect_paragraph_rest lines :
  length (collect_paragraph lines).2 <= length lines.
Proof.
  induction lines as [|l rest IH]; simpl; [lia|].
  destruct (ends_paragraph (strip l)); [simpl; lia|].
  destruct (collect_paragraph rest) as [c r]. simpl in *. lia.
Qed.

(** A turn of the loop never moves the cursor back. *)
Lemma build_step_rest line rest :
  length (build_step line rest).2 <= length rest.
Proof.
  unfold build_step.
  pose proof (collect_equation_rest rest []) as He.
  pose proof (collect_code_rest rest) as Hc.
  pose proof (collect_quote_rest rest) as Hq.
  pose proof (collect_paragraph_rest rest) as Hp.
  repeat case_match; simplify_eq; simpl in *; try lia.
  all: rewrite length_drop; lia.
Qed.

(** The loop does not depend on its fuel once there is one unit of it
    per line. *)
Lemma segment_loop_fuel fuel1 : forall fuel2 lines,
  length lines <= fuel1 -> length lines <= fuel2 ->
  segment_loop fuel1 lines = segment_loop fuel2 lines.
Proof.
  induction fuel1 as [|fuel1 IH]; intros fuel2 lines H1 H2.
  - destruct lines; [|simpl in H1; lia]. by destruct fuel2.
  - destruct lines as [|line rest]; [by destruct fuel2|].
    destruct fuel2 as [|fuel2]; [simpl in H2; lia|]. simpl in *.
    pose proof (build_step_rest line rest) as Hr.
    destruct (build_step line rest) as [b rest']. simpl in Hr.
    rewrite (IH fuel2 rest') by lia. done.
Qed.

(** The loop, one turn at a time. *)
Lemma segment_cons line rest :
  segment (line :: rest)
  = match build_step line rest with
    | (Some b, rest') => b :: segment rest'
    | (None, rest') => segment rest'
    end.
Proof.
  unfold segment. simpl.
  pose proof (build_step_rest line rest) as Hr.
  destruct (build_step line rest) as [b rest']. simpl in Hr.
  by rewrite (segment_loop_fuel (length rest) (length rest') rest').
Qed.

Import StrFacts.

Lemma collect_code_unclosed lines :
  Forall (fun l => startswith (lit "```") (strip l) = false) lines ->
  collect_code lines = (lines, []).
Proof.
  induction 1 as [|l rest Hl _ IH]; [done|].
  simpl. by rewrite Hl, IH.
Qed.

Lemma collect_equation_unclosed lines : forall math_lines,
  Forall (fun l => str_eqb (strip l) (lit "$$") = false)
         (firstn (50 - length math_lines) lines) ->
  collect_equation math_lines lines
  = (math_lines ++ firstn (50 - length math_lines) lines, false,
     skipn (50 - length math_lines) lines).
Proof.
  induction lines as [|l rest IH]; intros math_lines H.
  - simpl. by rewrite firstn_nil, skipn_nil, app_nil_r.
  - simpl. destruct (Nat.ltb_spec (length math_lines) 50) as [Hlt|Hge].
    + destruct (50 - length math_lines) as [|k] eqn:Ek; [lia|].
      simpl in H. inversion H as [|? ? Hl Hrest]; subst.
      rewrite Hl. rewrite IH.
      * rewrite length_app. simpl.
        replace (50 - (length math_lines + 1)) with k by lia.
        simpl. by rewrite <- app_assoc.
      * rewrite length_app. simpl.
        by replace (50 - (length math_lines + 1)) with k by lia.
    + replace (50 - length math_lines) with 0 by lia.
      simpl. by rewrite app_nil_r.
Qed.

Lemma collect_equation_closed pre : forall math_lines c post,
  length math_lines + length pre < 50 ->
  Forall (fun l => str_eqb (strip l) (lit "$$") = false) pre ->
  str_eqb (strip c) (lit "$$") = true ->
  collect_equation math_lines (pre ++ c :: post)
  = (math_lines ++ pre, true, post).
Proof.
  induction pre as [|l pre IH]; intros math_lines c post Hlen Hpre Hc.
  - simpl in *. destruct (Nat.ltb_spec (length math_lines) 50); [|lia].
    by rewrite Hc, app_nil_r.
  - simpl in *. destruct (Nat.ltb_spec (length math_lines) 50); [|lia].
    inversion Hpre as [|? ? Hl Hrest]; subst. rewrite Hl.
    rewrite IH; try done.
    + by rewrite <- app_assoc.
    + rewrite length_app. simpl. lia.
Qed.

(** A line that opens a fence is neither blank nor the math marker. *)
Lemma fence_not_blank s :
  startswith (lit "```") s = true ->
  truthy s = true /\ str_eqb s (lit "$$") = false.
Proof.
  intros [t ->]%startswith_spec. by vm_compute.
Qed.

(** *** Text without markup goes through [_parse_rich_text] whole *)

Lemma startswith_plain c s :
  plain_char c = true ->
  startswith (lit "*") (c :: s) = false
  /\ startswith (lit "**") (c :: s) = false
  /\ startswith (lit "`") (c :: s) = false
  /\ startswith (lit "[") (c :: s) = false.
Proof.
  unfold plain_char. rewrite negb_true_iff, !orb_false_iff.
  intros [[H1 H2] H3].
  change (lit "*") with ["*"%char]. change (lit "**") with ["*"%char; "*"%char].
  change (lit "`") with ["`"%char]. change (lit "[") with ["["%char].
  rewrite !startswith_cons.
  rewrite (Ascii.eqb_sym "*"%char), (Ascii.eqb_sym "`"%char),
    (Ascii.eqb_sym "["%char). by rewrite H1, H2, H3.
Qed.

Lemma match_at_plain c s :
  plain_text (c :: s) = true -> match_at (c :: s) = None.
Proof.
  intros [Hc Hs]%andb_true_iff.
  destruct (startswith_plain c s Hc) as (H1 & H2 & H3 & H4).
  assert (H0 : startswith (lit "$`") (c :: s) = false).
  { change (lit "$`") with ["$"%char; "`"%char]. rewrite startswith_cons.
    destruct s as [|d s]; [by rewrite andb_false_r|].
    simpl in Hs. apply andb_true_iff in Hs as [Hd _].
    destruct (startswith_plain d s Hd) as (_ & _ & H & _).
    change (lit "`") with ["`"%char] in H. by rewrite H, andb_false_r. }
  unfold match_at, alt_math, alt_bold, alt_italic, alt_code, alt_link,
    delimited, after_prefix.
  by rewrite H0, H1, H2, H3, H4.
Qed.

Lemma parse_loop_plain s : forall fuel plain_rev,
  plain_text s = true -> length s < fuel ->
  parse_loop fuel plain_rev s = _chunk_text (rev plain_rev ++ s) None.
Proof.
  induction s as [|c s IH]; intros fuel plain_rev Hs Hf.
  - destruct fuel; [lia|]. by rewrite app_nil_r.
  - destruct fuel as [|fuel]; [lia|]. cbn [parse_loop].
    rewrite match_at_plain by done.
    pose proof Hs as [_ Hs']%andb_true_iff.
    rewrite IH by (done || simpl in Hf; lia).
    cbn [rev]. by rewrite <- app_assoc.
Qed.

(** The contents of the rich text of a text without markup, put end to
    end, are the text. *)
Lemma parse_plain_concat text :
  plain_text text = true ->
  concat (map item_content (_parse_rich_text text)) = text.
Proof.
  intros Hp. unfold _parse_rich_text.
  rewrite parse_loop_plain by (done || lia). cbn [rev app].
  destruct (truthy (_chunk_text text None)) eqn:E.
  - apply FuelFacts.chunk_text_concat.
  - simpl. apply app_nil_r.
Qed.

Lemma plain_text_app s t :
  plain_text (s ++ t) = plain_text s && plain_text t.
Proof. apply forallb_app. Qed.

Lemma plain_text_join ls :
  Forall (fun l => plain_text l = true) ls ->
  plain_text (join (lit " ") ls) = true.
Proof.
  induction 1 as [|l ls Hl _ IH]; [done|].
  destruct ls as [|l' ls]; [done|].
  rewrite join_cons, !plain_text_app, Hl, IH. done.
Qed.

End SegmentProofs.

Import StrFacts.

(** C10.  A fence that is never closed: when the cursor is on a line that,
    trimmed, starts with three backticks and no later line does, the
    segmenter emits one code block holding every remaining line, verbatim,
    joined by newlines, with the language of the fence (or "plain text");
    there is no bound on the number of lines and no paragraph.  The same
    holds of [build_blocks] on the text made of these lines. *)
Theorem unclosed_fence_takes_all_lines (l0 : str) (rest : list str) :
  startswith (lit "```") (strip l0) = true ->
  Forall (fun l => startswith (lit "```") (strip l) = false) rest ->
  let lang := strip (skipn 3 (strip l0)) in
  let cb := code_block (join [NL] rest)
              (if truthy lang then lang else lit "plain text") in
  segment (l0 :: rest) = [cb]
  /\ (Forall (fun l => one_line l = true) (l0 :: rest) ->
      build_blocks (join [NL] (l0 :: rest)) = [cb]).
Proof.
  intros Hopen Hrest lang cb.
  assert (Hseg : segment (l0 :: rest) = [cb]).
  { rewrite SegmentProofs.segment_cons. unfold build_step.
    destruct (SegmentProofs.fence_not_blank _ Hopen) as [-> ->].
    rewrite Hopen. simpl.
    rewrite SegmentProofs.collect_code_unclosed by done. done. }
  split; [done|].
  intros Hlines. unfold build_blocks.
  rewrite split_nl_join by done. rewrite Hseg.
  unfold enforce. simpl. rewrite app_nil_r.
  apply EnforceProofs.split_within. intros v Hv.
  vm_compute in Hv. injection Hv as <-. simpl. lia.
Qed.

Lemma unclosed_fence_takes_all_lines_witness :
  build_blocks
    (text_of [lit "```python"; lit "x = 1"; []; lit "$$"; lit "y = 2"])
  = [code_block (text_of [lit "x = 1"; []; lit "$$"; lit "y = 2"])
       (lit "python")].
Proof.
  apply (unclosed_fence_takes_all_lines (lit "```python")
           [lit "x = 1"; []; lit "$$"; lit "y = 2"]).
  - reflexivity.
  - repeat constructor.
  - repeat constructor.
Defined.

(** C8.  The math marker in the segmenter.  With the cursor on a line that,
    trimmed, is [$$]:
    - when none of the next 50 lines (or of the lines left, if fewer) is a
      [$$] line, the segmenter emits a paragraph whose rich text is parsed
      from [$$] followed by these lines (all of them, verbatim) joined by
      single spaces, and goes on with the lines after them; when these
      lines have no markup, the contents of the rich text, put end to end,
      are that very text;
    - when the first [$$] line comes after fewer than 50 lines, it emits an
      equation whose expression is these lines joined by newlines and
      trimmed, and goes on after the closing line. *)
Theorem math_marker_paragraph_or_equation (l0 : str) (rest : list str) :
  str_eqb (strip l0) (lit "$$") = true ->
  (Forall (fun l => str_eqb (strip l) (lit "$$") = false) (firstn 50 rest) ->
   let text := lit "$$" ++ join (lit " ") (firstn 50 rest) in
   segment (l0 :: rest)
   = rich_block "paragraph" (_parse_rich_text text)
     :: segment (skipn 50 rest)
   /\ (Forall (fun l => plain_text l = true) (firstn 50 rest) ->
       concat (map item_content (_parse_rich_text text)) = text))
  /\ (forall pre c post,
        rest = pre ++ c :: post ->
        length pre < 50 ->
        Forall (fun l => str_eqb (strip l) (lit "$$") = false) pre ->
        str_eqb (strip c) (lit "$$") = true ->
        segment (l0 :: rest)
        = equation_block (strip (join [NL] pre)) :: segment post).
Proof.
  intros Hopen. apply str_eqb_eq in Hopen. split.
  - intros Hnone text. split.
    + rewrite SegmentProofs.segment_cons. unfold build_step.
      rewrite Hopen. change (truthy (lit "$$")) with true.
      rewrite str_eqb_refl. cbn [negb].
      by rewrite (SegmentProofs.collect_equation_unclosed rest []).
    + intros Hplain. apply SegmentProofs.parse_plain_concat.
      subst text. rewrite SegmentProofs.plain_text_app.
      by rewrite SegmentProofs.plain_text_join.
  - intros pre c post -> Hlen Hpre Hc.
    rewrite SegmentProofs.segment_cons. unfold build_step.
    rewrite Hopen. change (truthy (lit "$$")) with true.
    rewrite str_eqb_refl. cbn [negb].
    by rewrite (SegmentProofs.collect_equation_closed pre [] c post).
Qed.

Lemma math_marker_paragraph_or_equation_witness :
  segment [lit "$$"; lit "a = b"; lit "c"]
  = [rich_block "paragraph" [TextItem (lit "$$a = b c") None]]
  /\ segment [lit " $$"; lit "a = b"; lit "  c "; lit "$$ "; lit "tail"]
     = [equation_block (text_of [lit "a = b"; lit "  c"]);
        rich_block "paragraph" [TextItem (lit "tail") None]].
Proof.
  split.
  - destruct (math_marker_paragraph_or_equation (lit "$$")
                [lit "a = b"; lit "c"] eq_refl) as [H _].
    destruct H as [H _]; [repeat constructor|].
    rewrite H. reflexivity.
  - destruct (math_marker_paragraph_or_equation (lit " $$")
                [lit "a = b"; lit "  c "; lit "$$ "; lit "tail"] eq_refl)
      as [_ H].
    rewrite (H [lit "a = b"; lit "  c "] (lit "$$ ") [lit "tail"]).
    + reflexivity.
    + reflexivity.
    + simpl. lia.
    + repeat constructor.
    + reflexivity.
Defined.

(** * The length of rich-text content *)

(** What [_chunk_text] returns respects [MAX_TEXT_LENGTH]. *)
Lemma chunk_loop_bounded fuel : forall content ann,
  Forall (fun it => length (item_content it) <= MAX_TEXT_LENGTH)
         (chunk_loop fuel content ann).
Proof.
  induction fuel as [|fuel IH]; intros content ann; simpl; [done|].
  destruct content as [|c content]; [done|].
  constructor; [|apply IH].
  cbn [item_content]. rewrite length_take. lia.
Qed.

Lemma chunk_text_bounded content ann :
  Forall (fun it => length (item_content it) <= MAX_TEXT_LENGTH)
         (_chunk_text content ann).
Proof. apply chunk_loop_bounded. Qed.

(** C1.  [build_blocks] on a fence followed by a line of 2001 characters:
    the code block carries one rich-text element whose content has all
    2001 characters, more than [MAX_TEXT_LENGTH].  On a run of 5000 plain
    characters it gives one paragraph of three elements with 2000, 2000 and
    1000 characters.  The text of a link is not cut either. *)
Theorem code_block_content_exceeds_limit :
  (exists b it,
      In b (build_blocks long_code_text)
      /\ btype b = "code"%string
      /\ In it (block_items b)
      /\ length (item_content it) = 2001
      /\ MAX_TEXT_LENGTH < length (item_content it))
  /\ map (fun b => (btype b, map (fun it => length (item_content it))
                                 (block_items b)))
         (build_blocks (repeat "a"%char 5000))
     = [("paragraph"%string, [2000; 2000; 1000])]
  /\ build_blocks (lit "[" ++ repeat "a"%char 2001 ++ lit "](u)")
     = [rich_block "paragraph" [LinkItem (repeat "a"%char 2001) (lit "u")]].
Proof.
  split.
  - assert (H : build_blocks long_code_text
                = [code_block (repeat "a"%char 2001) (lit "plain text")])
      by (vm_compute; reflexivity).
    exists (code_block (repeat "a"%char 2001) (lit "plain text")),
           (TextItem (repeat "a"%char 2001) None).
    rewrite H. split; [|split; [|split; [|split]]].
    + apply in_eq.
    + reflexivity.
    + apply in_eq.
    + cbn [item_content]. apply repeat_length.
    + cbn [item_content]. rewrite repeat_length. unfold MAX_TEXT_LENGTH. lia.
  - split; vm_compute; reflexivity.
Qed.

(** * Properties of the normalizer *)

Module NormalizeProofs.
Import LatexToNotionConverter.

Lemma formula_line_inv f :
  formula_line f = true ->
  strip f = f /\ f <> [] /\ one_line f = true
  /\ endswith (lit "$$") f = false
  /\ head_ok f = true /\ last_ok f = true
  /\ str_eqb f (lit "$$") = false.
Proof.
  unfold formula_line. rewrite !andb_true_iff, negb_true_iff, str_eqb_eq.
  intros [[[Hs Ht] Hl] He].
  assert (Hne : f <> []) by (by destruct f).
  destruct (strip_fixed_ok f Hs Hne) as [Hh Hla].
  repeat split; try done.
  apply str_eqb_neq. intros ->. by vm_compute in He.
Qed.

Lemma convert_block_math_lines l ls :
  Forall (fun l => one_line l = true) (l :: ls) ->
  _convert_block_math (text_of (l :: ls))
  = text_of (block_math_loop (S (length ls)) (l :: ls)).
Proof.
  intros H. unfold _convert_block_math, text_of.
  by rewrite split_nl_join.
Qed.

Lemma drop_last_marker f : drop_last 2 (f ++ lit "$$") = f.
Proof. exact (drop_last_app f (lit "$$")). Qed.

Lemma collect_close ml rest :
  collect_math ml (lit "$$" :: rest) = (ml, true, rest).
Proof. reflexivity. Qed.

(** What a formula body is made of *)
Lemma formula_body_inv f :
  formula_body f = true ->
  exists p m q,
    f = p ++ m ++ q /\ strip f = m
    /\ all_space p = true /\ all_space q = true
    /\ head_ok m = true /\ last_ok m = true /\ truthy m = true
    /\ endswith (lit "$$") m = false /\ str_eqb m (lit "$$") = false
    /\ one_line f = true.
Proof.
  unfold formula_body. rewrite !andb_true_iff, negb_true_iff.
  intros [[Hl Ht] He].
  destruct (strip_parts f) as (p & q & E & Hp & Hq).
  assert (Hne : strip f <> []) by (by destruct (strip f)).
  destruct (strip_nonempty_ok f Hne) as [Hh Hla].
  exists p, (strip f), q. repeat split; try done.
  apply str_eqb_neq. intros Hm. rewrite Hm in He. by vm_compute in He.
Qed.

Lemma formula_line_body f :
  formula_line f = true -> formula_body f = true /\ strip f = f.
Proof.
  intros (Hs & Hne & Hl & He & _)%formula_line_inv.
  unfold formula_body. rewrite Hs, Hl, He. by destruct f.
Qed.

Lemma one_line_app s t : one_line (s ++ t) = one_line s && one_line t.
Proof. apply forallb_app. Qed.

(** Every listed line is a line. *)
Ltac lines_ok :=
  repeat (apply List.Forall_cons; [rewrite ?one_line_app|]);
  [ .. | apply List.Forall_nil ];
  repeat match goal with H : one_line _ = true |- _ => rewrite H end;
  reflexivity.

Lemma formula_line_one_line f : formula_line f = true -> one_line f = true.
Proof. by intros (_ & _ & H & _)%formula_line_inv. Qed.

Lemma formula_body_one_line f : formula_body f = true -> one_line f = true.
Proof. by intros (p & m & q & _ & _ & _ & _ & _ & _ & _ & _ & _ & H)%formula_body_inv. Qed.

Lemma strip_core_left p m :
  all_space p = true -> head_ok m = true -> last_ok m = true ->
  strip (p ++ m) = m.
Proof.
  intros Hp Hh Hl. rewrite <- (app_nil_r m) at 1. by apply strip_core.
Qed.

Lemma strip_core_right m q :
  all_space q = true -> head_ok m = true -> last_ok m = true ->
  strip (m ++ q) = m.
Proof. intros Hq Hh Hl. by apply (strip_core [] m q). Qed.

(** The trimmed text of a body followed by the delimiter *)
Lemma strip_body_close p m q :
  all_space p = true -> head_ok m = true ->
  strip ((p ++ m ++ q) ++ lit "$$") = m ++ q ++ lit "$$".
Proof.
  intros Hp Hh. rewrite <- !app_assoc.
  apply strip_core_left; [done| |].
  - by apply head_ok_app.
  - by apply last_ok_app, last_ok_app.
Qed.

(** The trimmed text of the delimiter followed by a body *)
Lemma strip_open_body p m q :
  all_space q = true -> last_ok m = true ->
  strip (lit "$$" ++ p ++ m ++ q) = lit "$$" ++ p ++ m.
Proof.
  intros Hq Hl.
  replace (lit "$$" ++ p ++ m ++ q) with ((lit "$$" ++ p ++ m) ++ q)
    by (by rewrite <- !app_assoc).
  apply strip_core_right; [done| |].
  - by apply head_ok_app.
  - by apply last_ok_app, last_ok_app.
Qed.

Lemma collect_line ml f rest :
  formula_body f = true -> length ml <= 30 ->
  collect_math ml (f :: rest) = collect_math (ml ++ [f]) rest.
Proof.
  intros (p & m & q & _ & Hs & _ & _ & _ & _ & _ & He & Hm & _)%formula_body_inv
    Hlen.
  cbn [collect_math]. rewrite Hs, Hm, He. cbn [andb].
  by destruct (Nat.ltb_spec 30 (length ml)); [lia|].
Qed.

Lemma collect_close_inline ml f rest :
  formula_body f = true ->
  collect_math ml ((f ++ lit "$$") :: rest) = (ml ++ [strip f], true, rest).
Proof.
  intros (p & m & q & -> & Hs & Hp & Hq & Hh & Hl & Ht & _)%formula_body_inv.
  cbn [collect_math]. rewrite strip_body_close by done.
  assert (Hm : str_eqb (m ++ q ++ lit "$$") (lit "$$") = false).
  { apply str_eqb_neq. intros H. apply (f_equal (@length ascii)) in H.
    rewrite !length_app in H. destruct m; [done|]. simpl in H. lia. }
  rewrite Hm, app_assoc, endswith_app. cbn [andb].
  assert (Hlen : (2 <? length ((m ++ q) ++ lit "$$")) = true).
  { apply Nat.ltb_lt. rewrite !length_app.
    destruct m; [done|]. simpl. lia. }
  rewrite Hlen, drop_last_marker, Hs. by rewrite strip_core_right.
Qed.

Lemma step_single_line f rest :
  formula_body f = true ->
  block_math_step (lit "$$" ++ f ++ lit "$$") rest
  = (wrapped (strip f), rest).
Proof.
  intros (p & m & q & -> & Hs & Hp & Hq & Hh & Hl & Ht & _)%formula_body_inv.
  unfold block_math_step.
  assert (H1 : strip (lit "$$" ++ (p ++ m ++ q) ++ lit "$$")
               = lit "$$" ++ (p ++ m ++ q) ++ lit "$$").
  { apply strip_ok; [by apply head_ok_app|].
    by apply last_ok_app, last_ok_app. }
  rewrite H1, startswith_app.
  change (skipn 2 (lit "$$" ++ (p ++ m ++ q) ++ lit "$$"))
    with ((p ++ m ++ q) ++ lit "$$").
  rewrite strip_body_close by done.
  rewrite app_assoc, endswith_app.
  assert (Htr : truthy ((m ++ q) ++ lit "$$") = true) by (by destruct m).
  rewrite Htr. cbn [andb].
  by rewrite drop_last_marker, Hs, strip_core_right.
Qed.

Lemma step_open_alone rest :
  block_math_step (lit "$$") rest
  = let '(m, found, r) := collect_math [] rest in
    if found && truthy m then (wrapped (strip (join [NL] m)), r)
    else (lit "$$" :: m, r).
Proof. reflexivity. Qed.

Lemma step_open_inline f rest :
  formula_body f = true ->
  block_math_step (lit "$$" ++ f) rest
  = let '(m, found, r) := collect_math [strip f] rest in
    if found && truthy m then (wrapped (strip (join [NL] m)), r)
    else ((lit "$$" ++ f) :: m, r).
Proof.
  intros (p & m & q & -> & Hs & Hp & Hq & Hh & Hl & Ht & He & _)%formula_body_inv.
  unfold block_math_step.
  rewrite strip_open_body by done. rewrite startswith_app.
  change (skipn 2 (lit "$$" ++ p ++ m)) with (p ++ m).
  rewrite strip_core_left by done. by rewrite Hs, Ht, He.
Qed.

(** The trimmed text of a body is a formula line. *)
Lemma strip_twice f : formula_body f = true -> strip (strip f) = strip f.
Proof.
  intros (p & m & q & _ & -> & _ & _ & Hh & Hl & _)%formula_body_inv.
  by apply strip_ok.
Qed.

(** The block pass on each spelling, as lines. *)
Lemma loop_single_line f :
  formula_body f = true ->
  block_math_loop 1 [lit "$$" ++ f ++ lit "$$"] = wrapped (strip f).
Proof.
  intros Hf. cbn [block_math_loop]. by rewrite step_single_line.
Qed.

Lemma loop_standard f :
  formula_body f = true ->
  block_math_loop 3 [lit "$$"; f; lit "$$"] = wrapped (strip f).
Proof.
  intros Hf. cbn [block_math_loop]. rewrite step_open_alone.
  rewrite collect_line by (done || simpl; lia).
  rewrite collect_close. by cbn [app andb truthy join].
Qed.

Lemma loop_open_inline f :
  formula_body f = true ->
  block_math_loop 2 [lit "$$" ++ f; lit "$$"] = wrapped (strip f).
Proof.
  intros Hf. cbn [block_math_loop]. rewrite step_open_inline by done.
  rewrite collect_close. cbn [app andb truthy join].
  by rewrite strip_twice.
Qed.

Lemma loop_close_inline f :
  formula_body f = true ->
  block_math_loop 2 [lit "$$"; f ++ lit "$$"] = wrapped (strip f).
Proof.
  intros Hf. cbn [block_math_loop]. rewrite step_open_alone.
  rewrite collect_close_inline by done.
  cbn [app andb truthy join]. by rewrite strip_twice.
Qed.

Lemma strip_two_lines f1 f2 :
  formula_line f1 = true -> formula_line f2 = true ->
  strip (f1 ++ NL :: f2) = f1 ++ NL :: f2.
Proof.
  intros (_ & _ & _ & _ & Hh & _)%formula_line_inv
         (_ & _ & _ & _ & _ & Hl & _)%formula_line_inv.
  apply strip_ok; [by apply head_ok_app|].
  by apply last_ok_app, last_ok_cons.
Qed.

Lemma loop_leading_content f1 f2 :
  formula_line f1 = true -> formula_line f2 = true ->
  block_math_loop 3 [lit "$$" ++ f1; f2; lit "$$"]
  = wrapped (f1 ++ NL :: f2).
Proof.
  intros Hf1 Hf2.
  destruct (formula_line_body f1 Hf1) as [Hb1 Hs1].
  destruct (formula_line_body f2 Hf2) as [Hb2 Hs2].
  cbn [block_math_loop]. rewrite step_open_inline by done. rewrite Hs1.
  rewrite collect_line by (done || simpl; lia).
  rewrite collect_close. cbn [app andb truthy join].
  by rewrite strip_two_lines.
Qed.

Lemma loop_standard_two f1 f2 :
  formula_line f1 = true -> formula_line f2 = true ->
  block_math_loop 4 [lit "$$"; f1; f2; lit "$$"]
  = wrapped (f1 ++ NL :: f2).
Proof.
  intros Hf1 Hf2.
  destruct (formula_line_body f1 Hf1) as [Hb1 Hs1].
  destruct (formula_line_body f2 Hf2) as [Hb2 Hs2].
  cbn [block_math_loop]. rewrite step_open_alone.
  rewrite collect_line by (done || simpl; lia).
  rewrite collect_line by (done || simpl; lia).
  rewrite collect_close. cbn [app andb truthy join].
  by rewrite strip_two_lines.
Qed.

(** The block pass on each spelling, as text. *)
Lemma block_pass_single_line f :
  formula_body f = true ->
  _convert_block_math (text_of [lit "$$" ++ f ++ lit "$$"])
  = text_of (wrapped (strip f)).
Proof.
  intros Hf. pose proof (formula_body_one_line f Hf) as Hl.
  rewrite convert_block_math_lines by lines_ok.
  cbn [length]. by rewrite loop_single_line.
Qed.

Lemma block_pass_standard f :
  formula_body f = true ->
  _convert_block_math (text_of [lit "$$"; f; lit "$$"])
  = text_of (wrapped (strip f)).
Proof.
  intros Hf. pose proof (formula_body_one_line f Hf) as Hl.
  rewrite convert_block_math_lines by lines_ok.
  cbn [length]. by rewrite loop_standard.
Qed.

Lemma block_pass_open_inline f :
  formula_body f = true ->
  _convert_block_math (text_of [lit "$$" ++ f; lit "$$"])
  = text_of (wrapped (strip f)).
Proof.
  intros Hf. pose proof (formula_body_one_line f Hf) as Hl.
  rewrite convert_block_math_lines by lines_ok.
  cbn [length]. by rewrite loop_open_inline.
Qed.

Lemma block_pass_close_inline f :
  formula_body f = true ->
  _convert_block_math (text_of [lit "$$"; f ++ lit "$$"])
  = text_of (wrapped (strip f)).
Proof.
  intros Hf. pose proof (formula_body_one_line f Hf) as Hl.
  rewrite convert_block_math_lines by lines_ok.
  cbn [length]. by rewrite loop_close_inline.
Qed.

Lemma block_pass_leading_content f1 f2 :
  formula_line f1 = true -> formula_line f2 = true ->
  _convert_block_math (text_of [lit "$$" ++ f1; f2; lit "$$"])
  = text_of (wrapped (f1 ++ NL :: f2)).
Proof.
  intros Hf1 Hf2. pose proof (formula_line_one_line f1 Hf1) as Hl1.
  pose proof (formula_line_one_line f2 Hf2) as Hl2.
  rewrite convert_block_math_lines by lines_ok.
  cbn [length]. by rewrite loop_leading_content.
Qed.

Lemma block_pass_standard_two f1 f2 :
  formula_line f1 = true -> formula_line f2 = true ->
  _convert_block_math (text_of [lit "$$"; f1; f2; lit "$$"])
  = text_of (wrapped (f1 ++ NL :: f2)).
Proof.
  intros Hf1 Hf2. pose proof (formula_line_one_line f1 Hf1) as Hl1.
  pose proof (formula_line_one_line f2 Hf2) as Hl2.
  rewrite convert_block_math_lines by lines_ok.
  cbn [length]. by rewrite loop_standard_two.
Qed.

(** The same for a formula line, which is its own trimmed text. *)
Lemma line_pass_single_line f :
  formula_line f = true ->
  _convert_block_math (text_of [lit "$$" ++ f ++ lit "$$"])
  = text_of (wrapped f).
Proof.
  intros [Hb Hs]%formula_line_body.
  by rewrite block_pass_single_line, Hs.
Qed.

Lemma line_pass_standard f :
  formula_line f = true ->
  _convert_block_math (text_of [lit "$$"; f; lit "$$"])
  = text_of (wrapped f).
Proof.
  intros [Hb Hs]%formula_line_body. by rewrite block_pass_standard, Hs.
Qed.

Lemma line_pass_open_inline f :
  formula_line f = true ->
  _convert_block_math (text_of [lit "$$" ++ f; lit "$$"])
  = text_of (wrapped f).
Proof.
  intros [Hb Hs]%formula_line_body. by rewrite block_pass_open_inline, Hs.
Qed.

Lemma line_pass_close_inline f :
  formula_line f = true ->
  _convert_block_math (text_of [lit "$$"; f ++ lit "$$"])
  = text_of (wrapped f).
Proof.
  intros [Hb Hs]%formula_line_body. by rewrite block_pass_close_inline, Hs.
Qed.

(** *** The later passes on the canonical form *)

Lemma nonspace_not_nl z : isspace z = false -> Ascii.eqb z NL = false.
Proof.
  intros H. destruct (Ascii.eqb_spec z NL) as [->|]; [|done].
  by vm_compute in H.
Qed.

Lemma nonspace_not_cr z : isspace z = false -> Ascii.eqb z CR = false.
Proof.
  intros H. destruct (Ascii.eqb_spec z CR) as [->|]; [|done].
  by vm_compute in H.
Qed.

Lemma replace_crlf_nl t : replace_crlf (NL :: t) = NL :: replace_crlf t.
Proof. by destruct t. Qed.

Lemma replace_crlf_cons c d s :
  replace_crlf (c :: d :: s)
  = if Ascii.eqb c CR && Ascii.eqb d NL then NL :: replace_crlf s
    else c :: replace_crlf (d :: s).
Proof. reflexivity. Qed.

(** [replace] leaves a line alone when its last character is not white
    space. *)
Lemma replace_crlf_line g : forall z t,
  one_line g = true -> isspace z = false ->
  replace_crlf (g ++ z :: NL :: t) = g ++ z :: NL :: replace_crlf t.
Proof.
  induction g as [|c g IH]; intros z t Hg Hz.
  - cbn [app]. rewrite replace_crlf_cons.
    rewrite (nonspace_not_cr z Hz). cbn [andb].
    by rewrite replace_crlf_nl.
  - simpl in Hg. apply andb_true_iff in Hg as [Hc Hg].
    rewrite <- !app_comm_cons.
    assert (Hd : exists d u, g ++ z :: NL :: t = d :: u
                             /\ Ascii.eqb d NL = false).
    { destruct g as [|d g'].
      - exists z, (NL :: t). split; [done|]. by apply nonspace_not_nl.
      - exists d, (g' ++ z :: NL :: t). split; [done|].
        simpl in Hg. apply andb_true_iff in Hg as [Hd _].
        by apply negb_true_iff in Hd. }
    destruct Hd as (d & u & E & Hd).
    rewrite <- (IH z t Hg Hz). rewrite E.
    rewrite replace_crlf_cons. by rewrite Hd, andb_false_r.
Qed.

Lemma collapse_line f : forall t,
  one_line f = true ->
  collapse_newlines 0 (f ++ t) = f ++ collapse_newlines 0 t.
Proof.
  induction f as [|c f IH]; intros t Hf; [done|].
  simpl in Hf. apply andb_true_iff in Hf as [Hc Hf].
  apply negb_true_iff in Hc. simpl. rewrite Hc. simpl. by rewrite IH.
Qed.

Lemma collapse_line_after_nl f t :
  one_line f = true -> f <> [] ->
  collapse_newlines 1 (f ++ t) = NL :: f ++ collapse_newlines 0 t.
Proof.
  intros Hf Hne. destruct f as [|c f]; [done|].
  simpl in Hf. apply andb_true_iff in Hf as [Hc Hf].
  apply negb_true_iff in Hc. simpl. rewrite Hc. simpl.
  by rewrite collapse_line.
Qed.

(** The canonical form is the standard spelling between two newlines. *)
Lemma canonical_shape f :
  text_of (wrapped f) = (NL :: text_of [lit "$$"; f; lit "$$"]) ++ [NL].
Proof.
  unfold text_of, wrapped. cbn [join].
  change (lit "$$") with ["$"%char; "$"%char].
  cbn [app]. rewrite <- !app_assoc. reflexivity.
Qed.

Lemma inline_canonical f :
  formula_line f = true ->
  _convert_inline_math (text_of (wrapped f)) = text_of (wrapped f).
Proof.
  intros Hf. pose proof Hf as (Hs & _ & Hl & _ & _ & _ & Hm)%formula_line_inv.
  unfold _convert_inline_math, text_of, wrapped.
  rewrite split_nl_join by lines_ok.
  cbn [inline_lines].
  change (str_eqb (strip []) (lit "$$")) with false.
  change (str_eqb (strip (lit "$$")) (lit "$$")) with true.
  change (contains (lit "$`") []) with false.
  rewrite Hs, Hm. cbn [negb orb]. done.
Qed.

Lemma collapse_canonical f :
  formula_line f = true ->
  collapse_newlines 0 (text_of (wrapped f)) = text_of (wrapped f).
Proof.
  intros (_ & Hne & Hl & _)%formula_line_inv.
  unfold text_of, wrapped. cbn [join].
  change (lit "$$") with ["$"%char; "$"%char]. cbn [app].
  change (collapse_newlines 0
            (NL :: "$"%char :: "$"%char :: NL
                :: f ++ NL :: "$"%char :: "$"%char :: [NL]))
    with (NL :: "$"%char :: "$"%char
             :: collapse_newlines 1
                  (f ++ NL :: "$"%char :: "$"%char :: [NL])).
  by rewrite collapse_line_after_nl.
Qed.

Lemma strip_canonical f :
  formula_line f = true ->
  strip (text_of (wrapped f)) = text_of [lit "$$"; f; lit "$$"].
Proof.
  intros Hf. rewrite canonical_shape. unfold strip.
  rewrite rstrip_snoc_space by reflexivity.
  assert (Hlast : last_ok (text_of [lit "$$"; f; lit "$$"]) = true).
  { unfold text_of. cbn [join]. by repeat apply last_ok_app. }
  rewrite rstrip_ok by (by apply last_ok_cons).
  rewrite lstrip_space by reflexivity.
  by apply lstrip_cons.
Qed.

Lemma replace_crlf_open t :
  replace_crlf ("$"%char :: "$"%char :: NL :: t)
  = "$"%char :: "$"%char :: NL :: replace_crlf t.
Proof. exact (replace_crlf_line ["$"%char] "$"%char t eq_refl eq_refl). Qed.

Lemma replace_crlf_standard f :
  formula_line f = true ->
  replace_crlf (text_of [lit "$$"; f; lit "$$"])
  = text_of [lit "$$"; f; lit "$$"].
Proof.
  intros Hf. pose proof Hf as (Hs & Hne & Hl & _)%formula_line_inv.
  destruct (strip_fixed_ends f Hs Hne) as (g & z & -> & Hz & _).
  rewrite one_line_app in Hl. apply andb_true_iff in Hl as [Hg _].
  unfold text_of. cbn [join].
  change (lit "$$") with ["$"%char; "$"%char]. cbn [app].
  rewrite <- !app_assoc. cbn [app].
  rewrite replace_crlf_open.
  by rewrite (replace_crlf_line g z) by done.
Qed.

Lemma replace_crlf_one_line s : one_line s = true -> replace_crlf s = s.
Proof.
  induction s as [|c s IH]; [done|]. intros [_ Hs]%andb_true_iff.
  destruct s as [|d s]; [done|]. rewrite replace_crlf_cons.
  pose proof Hs as [Hd%negb_true_iff _]%andb_true_iff.
  rewrite Hd, andb_false_r. by rewrite IH.
Qed.

Lemma replace_crlf_open_inline f :
  formula_line f = true ->
  replace_crlf (text_of [lit "$$" ++ f; lit "$$"])
  = text_of [lit "$$" ++ f; lit "$$"].
Proof.
  intros Hf. pose proof Hf as (Hs & Hne & Hl & _)%formula_line_inv.
  destruct (strip_fixed_ends f Hs Hne) as (g & z & -> & Hz & _).
  rewrite one_line_app in Hl. apply andb_true_iff in Hl as [Hg _].
  unfold text_of. cbn [join].
  rewrite <- !app_assoc. cbn [app]. rewrite app_assoc.
  rewrite replace_crlf_line; [done| |done].
  by rewrite one_line_app, Hg.
Qed.

Lemma replace_crlf_close_inline f :
  formula_line f = true ->
  replace_crlf (text_of [lit "$$"; f ++ lit "$$"])
  = text_of [lit "$$"; f ++ lit "$$"].
Proof.
  intros Hf. pose proof Hf as (_ & _ & Hl & _)%formula_line_inv.
  unfold text_of. cbn [join].
  change (lit "$$" ++ [NL] ++ f ++ lit "$$")
    with ("$"%char :: "$"%char :: NL :: f ++ lit "$$").
  rewrite replace_crlf_open. rewrite replace_crlf_one_line; [done|].
  by rewrite one_line_app, Hl.
Qed.

(** [convert] on an input whose block pass gives the canonical form *)
Lemma convert_of_canonical x f :
  formula_line f = true ->
  _convert_block_math (replace_crlf x) = text_of (wrapped f) ->
  convert x = text_of [lit "$$"; f; lit "$$"].
Proof.
  intros Hf Hb. unfold convert. rewrite Hb.
  rewrite inline_canonical, collapse_canonical by done.
  by apply strip_canonical.
Qed.

(** *** The inline pass on a line with one span *)

Lemma skip_numeric_test c :
  one_line c = true ->
  str_eqb (skip_numeric c) [] || str_eqb (skip_numeric c) [NL]
  = forallb numeric_class c.
Proof.
  induction c as [|d c IH]; [done|].
  intros [Hd%negb_true_iff Hc]%andb_true_iff.
  cbn [skip_numeric forallb]. destruct (numeric_class d).
  - by rewrite IH.
  - rewrite str_eqb_cons, Hd. done.
Qed.

Lemma replace_inline_cases c :
  one_line c = true ->
  replace_inline c
  = if blank c || currency_like c then lit "$" ++ c ++ lit "$"
    else lit "$`" ++ c ++ lit "`$".
Proof.
  intros Hc. unfold replace_inline, blank, currency_like.
  destruct (negb (truthy (strip c))); [done|]. cbn [orb].
  destruct c as [|d c]; [done|].
  cbn [truthy first_isdigit andb]. unfold numeric_re.
  rewrite skip_numeric_test by done.
  cbn [forallb]. by destruct (isdigit d), (numeric_class d).
Qed.

Lemma match_inline_other prev c s :
  is_dollar c = false -> match_inline prev (c :: s) = None.
Proof.
  intros H. unfold match_inline. destruct s as [|d s]; [done|].
  by rewrite H.
Qed.

Lemma sub_inline_no_dollar s : forall fuel prev,
  no_dollar s = true -> length s <= fuel -> sub_inline fuel prev s = s.
Proof.
  induction s as [|c s IH]; intros fuel prev Hs Hf.
  - by destruct fuel.
  - destruct fuel as [|fuel]; [simpl in Hf; lia|].
    simpl in Hs, Hf. apply andb_true_iff in Hs as [Hc%negb_true_iff Hs].
    cbn [sub_inline]. rewrite match_inline_other by done.
    rewrite IH by (done || lia). done.
Qed.

Lemma close_after_span c : forall last post,
  no_dollar (last :: c) = true -> one_line c = true ->
  startswith (lit "$") post = false ->
  close_after last (c ++ "$"%char :: post) = Some (c, post).
Proof.
  induction c as [|d c IH]; intros last post Hn Hl Hp.
  - cbn [app close_after]. simpl in Hn. rewrite andb_true_r in Hn.
    rewrite Hn, Hp. done.
  - simpl in Hn, Hl.
    apply andb_true_iff in Hn as [Hlast [Hd%negb_true_iff Hn]%andb_true_iff].
    apply andb_true_iff in Hl as [Hnl%negb_true_iff Hl].
    cbn [app close_after]. rewrite Hd, Hnl. cbn [andb].
    rewrite IH; [done| |done|done].
    simpl. by rewrite Hd, Hn.
Qed.

Lemma startswith_dollar p post :
  startswith (lit "$") (p :: post) = is_dollar p.
Proof.
  unfold is_dollar.
  change (startswith (lit "$") (p :: post))
    with (Ascii.eqb "$"%char p && true).
  rewrite andb_true_r. apply Ascii.eqb_sym.
Qed.

Lemma sub_inline_first_span pre : forall fuel prev c post,
  no_dollar pre = true -> no_dollar c = true ->
  truthy c = true -> one_line c = true ->
  (pre = [] -> prev_ok prev = true) ->
  startswith (lit "$") post = false ->
  length (pre ++ "$"%char :: c ++ "$"%char :: post) <= fuel ->
  sub_inline fuel prev (pre ++ "$"%char :: c ++ "$"%char :: post)
  = pre ++ replace_inline c
    ++ sub_inline (fuel - length pre - 1) (Some "$"%char) post.
Proof.
  induction pre as [|a pre IH]; intros fuel prev c post Hpre Hc Ht Hl
    Hprev Hpost Hf.
  - destruct c as [|c0 c]; [done|].
    destruct fuel as [|fuel]; [simpl in Hf; lia|].
    cbn [app sub_inline].
    assert (Hm : match_inline prev
                   ("$"%char :: c0 :: c ++ "$"%char :: post)
                 = Some (c0 :: c, post)).
    { unfold match_inline.
      simpl in Hc, Hl.
      pose proof Hc as [Hc0 _]%andb_true_iff.
      apply andb_true_iff in Hl as [Hnl Hl].
      change (is_dollar "$"%char) with true.
      assert (Hp : negb match prev with
                        | Some p => is_dollar p
                        | None => false
                        end = true).
      { specialize (Hprev eq_refl). by destruct prev. }
      rewrite Hp, Hc0, Hnl. cbn [andb].
      by rewrite close_after_span. }
    rewrite Hm.
    by replace (S fuel - length (@nil ascii) - 1) with fuel by (simpl; lia).
  - destruct fuel as [|fuel]; [simpl in Hf; lia|].
    simpl in Hpre. apply andb_true_iff in Hpre as [Ha Hpre].
    cbn [app sub_inline].
    rewrite match_inline_other by (by apply negb_true_iff).
    rewrite IH by first [done | by intros _ | (simpl in Hf; lia)].
    reflexivity.
Qed.

Lemma span_line_cons pre c mid rest :
  span_line pre ((c, mid) :: rest)
  = pre ++ "$"%char :: c ++ "$"%char :: span_line mid rest.
Proof.
  unfold span_line. cbn [map concat].
  change (lit "$") with ["$"%char]. cbn [app].
  by rewrite <- !app_assoc.
Qed.

Lemma rewritten_line_cons pre c mid rest :
  rewritten_line pre ((c, mid) :: rest)
  = pre ++ (if blank c || currency_like c
            then lit "$" ++ c ++ lit "$" else lit "$`" ++ c ++ lit "`$")
    ++ rewritten_line mid rest.
Proof.
  unfold rewritten_line. cbn [map concat]. by rewrite <- !app_assoc.
Qed.

(** [re.sub] on a line of spans *)
Lemma sub_inline_spans spans : forall pre fuel prev,
  no_dollar pre = true -> spans_ok spans = true ->
  (pre = [] -> spans <> [] -> prev_ok prev = true) ->
  length (span_line pre spans) <= fuel ->
  sub_inline fuel prev (span_line pre spans) = rewritten_line pre spans.
Proof.
  induction spans as [|[c mid] rest IH]; intros pre fuel prev Hpre Hok Hprev
    Hf.
  - unfold span_line, rewritten_line in *. cbn [map concat] in *.
    rewrite app_nil_r in *. by apply sub_inline_no_dollar.
  - cbn [spans_ok] in Hok. rewrite !andb_true_iff in Hok.
    destruct Hok as [[[[[[Hc Ht] Hl] Hmid] Hlm] Hsep] Hrest].
    rewrite span_line_cons in *. rewrite rewritten_line_cons.
    assert (Hpost : startswith (lit "$") (span_line mid rest) = false).
    { destruct mid as [|m0 mid].
      - destruct rest; [done|]. by simpl in Hsep.
      - unfold span_line. cbn [app]. rewrite startswith_dollar.
        simpl in Hmid. apply andb_true_iff in Hmid as [Hm0 _].
        by apply negb_true_iff. }
    rewrite sub_inline_first_span; try done.
    2: { intros ->. by apply Hprev. }
    rewrite replace_inline_cases by done.
    rewrite IH; try done.
    + intros -> Hne. destruct rest; [done|]. by simpl in Hsep.
    + rewrite !length_app in Hf. cbn [length] in Hf.
      rewrite length_app in Hf. cbn [length] in Hf. lia.
Qed.

Lemma no_dollar_app s t : no_dollar (s ++ t) = no_dollar s && no_dollar t.
Proof. apply forallb_app. Qed.

Lemma space_no_dollar p : all_space p = true -> no_dollar p = true.
Proof.
  induction p as [|c p IH]; [done|]. simpl.
  intros [Hc Hp]%andb_true_iff. rewrite IH by done.
  rewrite andb_true_r. apply negb_true_iff.
  unfold is_dollar. destruct (Ascii.eqb_spec c "$"%char) as [->|]; [|done].
  by vm_compute in Hc.
Qed.

(** The text before the first dollar of a string is determined. *)
Lemma first_dollar_unique p : forall pre X Y,
  no_dollar p = true -> no_dollar pre = true ->
  p ++ "$"%char :: X = pre ++ "$"%char :: Y -> X = Y.
Proof.
  induction p as [|a p IH]; intros pre X Y Hp Hpre E.
  - destruct pre as [|b pre]; [by injection E|].
    simpl in E, Hpre. injection E as <- _. by vm_compute in Hpre.
  - destruct pre as [|b pre].
    + simpl in E, Hp. injection E as -> _. by vm_compute in Hp.
    + simpl in E, Hp, Hpre. injection E as _ E.
      apply andb_true_iff in Hp as [_ Hp].
      apply andb_true_iff in Hpre as [_ Hpre]. eauto.
Qed.

(** A line with a span is not the block marker. *)
Lemma span_line_not_marker pre c post :
  no_dollar pre = true -> no_dollar c = true -> truthy c = true ->
  str_eqb (strip (pre ++ "$"%char :: c ++ "$"%char :: post)) (lit "$$")
  = false.
Proof.
  intros Hpre Hc Ht. apply str_eqb_neq. intros Hs.
  destruct (strip_parts (pre ++ "$"%char :: c ++ "$"%char :: post))
    as (p & q & E & Hp & _).
  rewrite Hs in E. change (lit "$$" ++ q) with ("$"%char :: "$"%char :: q) in E.
  symmetry in E.
  apply first_dollar_unique in E; [|by apply space_no_dollar|done].
  destruct c as [|c0 c]; [done|]. simpl in E, Hc. injection E as <- _.
  by vm_compute in Hc.
Qed.

Lemma no_dollar_not_marker s :
  no_dollar s = true -> str_eqb (strip s) (lit "$$") = false.
Proof.
  intros H. apply str_eqb_neq. intros Hs.
  destruct (strip_parts s) as (p & q & E & _).
  rewrite Hs in E. rewrite E in H. rewrite !no_dollar_app in H.
  change (no_dollar (lit "$$")) with false in H.
  by rewrite andb_false_r in H.
Qed.

Lemma one_line_cons a s :
  one_line (a :: s) = negb (Ascii.eqb a NL) && one_line s.
Proof. reflexivity. Qed.

Lemma span_line_one_line spans : forall pre,
  one_line pre = true -> spans_ok spans = true ->
  one_line (span_line pre spans) = true.
Proof.
  induction spans as [|[c mid] rest IH]; intros pre Hpre Hok.
  - unfold span_line. cbn [map concat]. by rewrite app_nil_r.
  - cbn [spans_ok] in Hok. rewrite !andb_true_iff in Hok.
    destruct Hok as [[[[[[Hc Ht] Hl] Hmid] Hlm] Hsep] Hrest].
    rewrite span_line_cons, one_line_app, Hpre, one_line_cons.
    rewrite one_line_app, Hl, one_line_cons. by rewrite IH.
Qed.

Lemma spans_line_not_marker pre spans :
  no_dollar pre = true -> spans_ok spans = true ->
  str_eqb (strip (span_line pre spans)) (lit "$$") = false.
Proof.
  intros Hpre Hok. destruct spans as [|[c mid] rest].
  - unfold span_line. cbn [map concat]. rewrite app_nil_r.
    by apply no_dollar_not_marker.
  - cbn [spans_ok] in Hok. rewrite !andb_true_iff in Hok.
    destruct Hok as [[[[[[Hc Ht] Hl] Hmid] Hlm] Hsep] Hrest].
    rewrite span_line_cons. by apply span_line_not_marker.
Qed.

Lemma convert_inline_one_line line :
  one_line line = true ->
  str_eqb (strip line) (lit "$$") = false ->
  contains (lit "$`") line = false ->
  _convert_inline_math line = sub_inline_line line.
Proof.
  intros Hl Hm Hc. unfold _convert_inline_math.
  rewrite split_nl_one_line by done.
  cbn [inline_lines]. by rewrite Hm, Hc.
Qed.

End NormalizeProofs.

Import LatexToNotionConverter.
Import NormalizeProofs.

(** C3.  The block pass on block math that is never closed.  The opening
    line [$$a] is followed by [b] and the text ends: the pass emits the
    opening line, then its content [a] once more, then [b].  The same
    happens when the bound stops the search: after [$$x] and forty lines
    [y], the result has the line [x] between the opening line and the
    forty lines.  In both cases the result is not the input. *)
Theorem unclosed_block_math_repeats_opening_content :
  _convert_block_math (text_of [lit "$$a"; lit "b"])
  = text_of [lit "$$a"; lit "a"; lit "b"]
  /\ _convert_block_math (text_of (lit "$$x" :: repeat (lit "y") 40))
     = text_of (lit "$$x" :: lit "x" :: repeat (lit "y") 40)
  /\ _convert_block_math (text_of [lit "$$a"; lit "b"])
     <> text_of [lit "$$a"; lit "b"]
  /\ _convert_block_math (text_of (lit "$$x" :: repeat (lit "y") 40))
     <> text_of (lit "$$x" :: repeat (lit "y") 40).
Proof.
  assert (H1 : _convert_block_math (text_of [lit "$$a"; lit "b"])
               = text_of [lit "$$a"; lit "a"; lit "b"])
    by (vm_compute; reflexivity).
  assert (H2 : _convert_block_math
                 (text_of (lit "$$x" :: repeat (lit "y") 40))
               = text_of (lit "$$x" :: lit "x" :: repeat (lit "y") 40))
    by (vm_compute; reflexivity).
  split; [exact H1|]. split; [exact H2|]. split.
  - rewrite H1. vm_compute. discriminate.
  - rewrite H2. vm_compute. discriminate.
Qed.

(** C5, as stated, fails: between other lines, block math in the
    canonical form gets one more blank line on each side from a second
    conversion; a third conversion changes nothing more. *)
Lemma convert_not_idempotent :
  convert (text_of [lit "a"; lit "$$f$$"; lit "b"])
  = text_of [lit "a"; []; lit "$$"; lit "f"; lit "$$"; []; lit "b"]
  /\ convert (convert (text_of [lit "a"; lit "$$f$$"; lit "b"]))
     = text_of [lit "a"; []; []; lit "$$"; lit "f"; lit "$$"; []; [];
                lit "b"]
  /\ convert (convert (text_of [lit "a"; lit "$$f$$"; lit "b"]))
     <> convert (text_of [lit "a"; lit "$$f$$"; lit "b"])
  /\ convert (convert (convert (text_of [lit "a"; lit "$$f$$"; lit "b"])))
     = convert (convert (text_of [lit "a"; lit "$$f$$"; lit "b"])).
Proof.
  split; [|split; [|split]].
  - vm_compute. reflexivity.
  - vm_compute. reflexivity.
  - vm_compute. discriminate.
  - vm_compute. reflexivity.
Qed.


(** * Properties of the delivery engine *)

Module ClientProofs.
Import NotionClient.

Section Engine.

Variable remote : Type.
Variable requests : remote -> request -> response * remote.

(** [_append_blocks] begins with the request for the whole batch. *)
Lemma append_blocks_head page_id blocks s :
  exists resp evs,
    (_append_blocks remote requests page_id blocks s).2
    = Call (PatchChildren page_id blocks) resp :: evs.
Proof.
  unfold _append_blocks, bind, send.
  destruct (requests s (PatchChildren page_id blocks)) as [resp s'].
  destruct (ok resp).
  - simpl. eauto.
  - destruct (log remote WARNING s') as [[[] s1] e1].
    destruct (retry_each remote requests page_id blocks s1) as [[[] s2] e2].
    simpl. eauto.
Qed.

(** Every block handed to the [while remaining] loop is in the body of a
    request. *)
Lemma append_remaining_covers fuel : forall page_id remaining s b,
  length remaining <= fuel -> In b remaining ->
  exists children resp,
    In (Call (PatchChildren page_id children) resp)
       (append_remaining remote requests fuel page_id remaining s).2
    /\ In b children.
Proof.
  induction fuel as [|fuel IH]; intros page_id remaining s b Hf Hb.
  - destruct remaining; [done | simpl in Hf; lia].
  - destruct remaining as [|r rs]; [done|].
    cbn [append_remaining]. unfold bind at 1.
    destruct (append_blocks_head page_id (firstn 100 (r :: rs)) s)
      as (resp & evs & Hhead).
    destruct (_append_blocks remote requests page_id
                (firstn 100 (r :: rs)) s) as [[[] s1] e1].
    simpl in Hhead. subst e1. unfold bind, sleep.
    destruct (append_remaining remote requests fuel page_id
                (skipn 100 (r :: rs)) s1) as [[[] s2] e2] eqn:E.
    cbn [snd].
    rewrite <- (firstn_skipn 100 (r :: rs)) in Hb.
    apply in_app_or in Hb as [Hb|Hb].
    + exists (firstn 100 (r :: rs)), resp. split; [|done]. by left.
    + destruct (IH page_id (skipn 100 (r :: rs)) s1 b) as (c & rsp & Hin & Hc).
      * rewrite length_drop. simpl in *. lia.
      * done.
      * exists c, rsp. split; [|done]. rewrite E in Hin. simpl in Hin.
        right. apply in_or_app. right. by right.
Qed.

Lemma append_remaining_head fuel page_id r rs s :
  exists resp evs,
    (append_remaining remote requests (S fuel) page_id (r :: rs) s).2
    = Call (PatchChildren page_id (firstn 100 (r :: rs))) resp :: evs.
Proof.
  cbn [append_remaining]. unfold bind at 1.
  destruct (append_blocks_head page_id (firstn 100 (r :: rs)) s)
    as (resp & evs & Hhead).
  destruct (_append_blocks remote requests page_id
              (firstn 100 (r :: rs)) s) as [[[] s1] e1].
  simpl in Hhead. subst e1.
  destruct (bind remote (sleep remote 350) _ s1) as [[[] s2] e2].
  simpl. eauto.
Qed.

End Engine.

End ClientProofs.

Import NotionClient.

(** C9.  The fall-back of [create_page].  When the first creation request,
    with the first 100 blocks, is refused, the client asks for the page
    again with no children.  If that is refused too, the result is [None]
    and no request other than the two creations is made.  If it is
    accepted, the result is its response, and the [while remaining] loop
    runs on all the blocks: its first request carries the first 100 of
    them, and every block is in the body of some request to the new
    page. *)
Theorem create_page_falls_back_to_empty_page
    (remote : Type) (requests : remote -> request -> response * remote)
    (title parent : str) (blocks : list block)
    (s s1 s2 : remote) (r1 r2 : response) :
  requests s (PostPage title parent (firstn 100 blocks)) = (r1, s1) ->
  ok r1 = false ->
  requests s1 (PostPage title parent []) = (r2, s2) ->
  let opening :=
    [ Call (PostPage title parent (firstn 100 blocks)) r1; Log WARNING;
      Call (PostPage title parent []) r2 ] in
  (ok r2 = false ->
     create_page remote requests title blocks parent s
     = (None, s2, opening ++ [Log ERROR])
     /\ existsb is_patch (opening ++ [Log ERROR]) = false)
  /\ (ok r2 = true ->
      exists s3 evs,
        append_remaining remote requests (length blocks) (json_id r2)
          blocks s2 = (tt, s3, evs)
        /\ create_page remote requests title blocks parent s
           = (Some r2, s3, opening ++ evs)
        /\ (forall b, In b blocks ->
              exists children resp,
                In (Call (PatchChildren (json_id r2) children) resp) evs
                /\ In b children)
        /\ (blocks <> [] ->
              exists resp evs',
                evs = Call (PatchChildren (json_id r2) (firstn 100 blocks))
                        resp :: evs')).
Proof.
  intros H1 Hr1 H2 opening. split.
  - intros Hr2. split; [|done].
    unfold create_page, bind, send, log, ret.
    rewrite H1, Hr1. cbn [negb]. rewrite H2, Hr2. done.
  - intros Hr2.
    destruct (append_remaining remote requests (length blocks) (json_id r2)
                blocks s2) as [[[] s3] evs] eqn:E.
    exists s3, evs. split; [done|]. split; [|split].
    + unfold create_page, bind, send, log, ret.
      rewrite H1, Hr1. cbn [negb]. rewrite H2, Hr2. cbn [negb].
      rewrite E. subst opening. simpl. by rewrite app_nil_r.
    + intros b Hb.
      destruct (ClientProofs.append_remaining_covers remote requests
                  (length blocks) (json_id r2) blocks s2 b)
        as (c & rsp & Hin & Hc); [lia|done|].
      rewrite E in Hin. eauto.
    + intros Hne. destruct blocks as [|b0 bs]; [done|].
      destruct (ClientProofs.append_remaining_head remote requests
                  (length bs) (json_id r2) b0 bs s2) as (rsp & evs' & Hh).
      cbn [length] in E. rewrite E in Hh. simpl in Hh. eauto.
Qed.

Lemma create_page_falls_back_to_empty_page_witness :
  create_page nat refuse_first (lit "T") [divider_block; divider_block]
    (lit "P") 0
  = (Some (Response 200 (lit "page-1")), 3,
     [ Call (PostPage (lit "T") (lit "P") [divider_block; divider_block])
         (Response 400 (lit "page-1"));
       Log WARNING;
       Call (PostPage (lit "T") (lit "P") [])
         (Response 200 (lit "page-1"));
       Call (PatchChildren (lit "page-1") [divider_block; divider_block])
         (Response 200 (lit "page-1"));
       Sleep 350 ])
  /\ create_page nat refuse_all (lit "T") [divider_block; divider_block]
       (lit "P") 0
     = (None, 2,
        [ Call (PostPage (lit "T") (lit "P") [divider_block; divider_block])
            (Response 400 []);
          Log WARNING;
          Call (PostPage (lit "T") (lit "P") []) (Response 400 []);
          Log ERROR ]).
Proof.
  split.
  - destruct (create_page_falls_back_to_empty_page nat refuse_first
                (lit "T") (lit "P") [divider_block; divider_block]
                0 1 2 (Response 400 (lit "page-1"))
                (Response 200 (lit "page-1")) eq_refl eq_refl eq_refl)
      as [_ H].
    destruct (H eq_refl) as (s3 & evs & E & Hc & _).
    vm_compute in E. injection E as <- <-. exact Hc.
  - destruct (create_page_falls_back_to_empty_page nat refuse_all
                (lit "T") (lit "P") [divider_block; divider_block]
                0 1 2 (Response 400 []) (Response 400 [])
                eq_refl eq_refl eq_refl)
      as [H _].
    destruct (H eq_refl) as [Hc _]. exact Hc.
Defined.

(** C4.  [_append_blocks] on a batch of two blocks when the remote system
    refuses every request: the batch request and the two single-block
    requests follow one another with a log entry between them and no
    [time.sleep]; the pacing delay is taken only after a single-block
    request that is accepted. *)
Theorem refused_single_append_takes_no_delay :
  _append_blocks nat refuse_all (lit "page-1")
    [divider_block; equation_block (lit "x")] 0
  = (tt, 3,
     [ Call (PatchChildren (lit "page-1")
               [divider_block; equation_block (lit "x")]) (Response 400 []);
       Log WARNING;
       Call (PatchChildren (lit "page-1") [divider_block]) (Response 400 []);
       Log ERROR;
       Call (PatchChildren (lit "page-1") [equation_block (lit "x")])
         (Response 400 []);
       Log ERROR ])
  /\ existsb is_sleep
       (_append_blocks nat refuse_all (lit "page-1")
          [divider_block; equation_block (lit "x")] 0).2 = false
  /\ (retry_each nat refuse_first (lit "page-1")
        [divider_block; equation_block (lit "x")] 0).2
     = [ Call (PatchChildren (lit "page-1") [divider_block])
           (Response 400 (lit "page-1"));
         Log ERROR;
         Call (PatchChildren (lit "page-1") [equation_block (lit "x")])
           (Response 200 (lit "page-1"));
         Sleep 150 ].
Proof.
  split; [|split]; vm_compute; reflexivity.
Qed.

(** * Further properties of the code *)

Import FuelFacts.

(** * The pieces of [_chunk_text] *)

Module ChunkProofs.
Import EnforceProofs.

Lemma chunk_loop_slices fuel : forall content ann,
  length content <= fuel ->
  chunk_loop fuel content ann
  = map (fun k => TextItem (firstn MAX_TEXT_LENGTH
                              (skipn (k * MAX_TEXT_LENGTH) content)) ann)
        (seq 0 (ceil_div (length content) MAX_TEXT_LENGTH)).
Proof.
  assert (HM : 0 < MAX_TEXT_LENGTH) by (unfold MAX_TEXT_LENGTH; lia).
  induction fuel as [|fuel IH]; intros content ann Hf.
  - destruct content; [|simpl in Hf; lia].
    by rewrite ceil_div_0.
  - destruct content as [|c content]; [by rewrite ceil_div_0|].
    rewrite chunk_loop_cons.
    rewrite ceil_div_step by (done || cbn [length]; lia).
    rewrite <- cons_seq, <- seq_shift, map_cons, map_map.
    f_equal.
    rewrite IH by (rewrite length_drop; cbn [length] in *; lia).
    rewrite length_drop. apply map_ext. intros k.
    rewrite drop_drop.
    by change (S k * MAX_TEXT_LENGTH) with (MAX_TEXT_LENGTH + k * MAX_TEXT_LENGTH).
Qed.

Lemma chunk_loop_nonempty fuel : forall content ann,
  Forall (fun it => item_content it <> []) (chunk_loop fuel content ann).
Proof.
  induction fuel as [|fuel IH]; intros content ann; [done|].
  destruct content as [|c content]; [done|].
  rewrite chunk_loop_cons. constructor; [|apply IH].
  unfold MAX_TEXT_LENGTH. done.
Qed.

End ChunkProofs.

(** X1.  [_chunk_text] cuts a content into its consecutive slices of
    [MAX_TEXT_LENGTH] characters, in order, each a text element with the
    annotations given: there are [ceil(length / 2000)] of them, put end to
    end they are the content, none is empty and none has more than
    [MAX_TEXT_LENGTH] characters.  An empty content gives no element. *)
Theorem chunk_text_slices (content : str) (ann : option annotations) :
  _chunk_text content ann
  = map (fun k => TextItem (firstn MAX_TEXT_LENGTH
                              (skipn (k * MAX_TEXT_LENGTH) content)) ann)
        (seq 0 (ceil_div (length content) MAX_TEXT_LENGTH))
  /\ length (_chunk_text content ann)
     = ceil_div (length content) MAX_TEXT_LENGTH
  /\ concat (map item_content (_chunk_text content ann)) = content
  /\ Forall (fun it => item_content it <> []
                       /\ length (item_content it) <= MAX_TEXT_LENGTH)
            (_chunk_text content ann).
Proof.
  pose proof (ChunkProofs.chunk_loop_slices (length content) content ann
                (Nat.le_refl _)) as H.
  split; [exact H|]. split; [|split].
  - unfold _chunk_text. rewrite H. by rewrite length_map, length_seq.
  - apply chunk_text_concat.
  - apply Forall_and. split.
    + apply ChunkProofs.chunk_loop_nonempty.
    + apply chunk_text_bounded.
Qed.

(** * The spans of [_parse_rich_text] *)

Module SpanProofs.
Import SegmentProofs.

Lemma endswith_cons p c s :
  s <> [] -> length p = 1 -> endswith p (c :: s) = endswith p s.
Proof.
  intros Hs Hp. destruct p as [|x [|? ?]]; try done.
  unfold endswith. cbn [rev app].
  destruct (rev s) as [|z r] eqn:E.
  - apply (f_equal (@rev ascii)) in E. by rewrite rev_involutive in E.
  - simpl. by rewrite !startswith_cons, !startswith_nil.
Qed.

(** No pattern matches at a character that opens none. *)
Lemma match_at_text c s :
  plain_char c = true ->
  is_dollar c && startswith (lit "`") s = false ->
  match_at (c :: s) = None.
Proof.
  intros Hc Hd.
  destruct (startswith_plain c s Hc) as (H1 & H2 & H3 & H4).
  assert (H0 : startswith (lit "$`") (c :: s) = false).
  { change (lit "$`") with ("$"%char :: lit "`"). rewrite startswith_cons.
    unfold is_dollar in Hd. by rewrite Ascii.eqb_sym. }
  unfold match_at, alt_math, alt_bold, alt_italic, alt_code, alt_link,
    delimited, after_prefix.
  by rewrite H0, H1, H2, H3, H4.
Qed.

(** The loop takes the text before a span into [plain_rev]. *)
Lemma parse_loop_before pre : forall fuel plain_rev rest,
  plain_text pre = true ->
  endswith (lit "$") pre && startswith (lit "`") rest = false ->
  length (pre ++ rest) < fuel ->
  parse_loop fuel plain_rev (pre ++ rest)
  = parse_loop (S (length rest)) (rev pre ++ plain_rev) rest.
Proof.
  induction pre as [|c pre IH]; intros fuel plain_rev rest Hp He Hf.
  - apply parse_loop_fuel; simpl in *; lia.
  - destruct fuel as [|fuel]; [lia|].
    apply andb_true_iff in Hp as [Hc Hp].
    cbn [app parse_loop].
    rewrite match_at_text; [|done|].
    + rewrite IH; [by cbn [rev]; rewrite <- app_assoc|done| |simpl in Hf; lia].
      destruct pre as [|d pre]; [done|].
      by rewrite endswith_cons in He.
    + destruct pre as [|d pre].
      * cbn [app]. destruct (is_dollar c) eqn:Ed; [|done].
        unfold is_dollar in Ed. apply Ascii.eqb_eq in Ed as ->.
        exact He.
      * cbn [app]. apply andb_true_iff in Hp as [Hd _].
        destruct (startswith_plain d (pre ++ rest) Hd) as (_ & _ & H & _).
        by rewrite H, andb_false_r.
Qed.

(** One turn of the loop on a match. *)
Lemma parse_loop_match fuel plain_rev s matched r :
  match_at s = Some (matched, r) -> length s < fuel ->
  parse_loop fuel plain_rev s
  = _chunk_text (rev plain_rev) None ++ decode matched
    ++ parse_loop (S (length r)) [] r.
Proof.
  intros Hm Hf. destruct fuel as [|fuel]; [lia|].
  destruct s as [|c s]; [done|]. cbn [parse_loop]. rewrite Hm.
  apply match_at_rest in Hm.
  by rewrite (parse_loop_fuel fuel (S (length r))) by (simpl in *; lia).
Qed.

(** A span between text: the elements of the text before it, what the
    span decodes to, the elements of the text after it. *)
Lemma parse_around pre matched post :
  plain_text pre = true -> plain_text post = true ->
  endswith (lit "$") pre && startswith (lit "`") (matched ++ post) = false ->
  match_at (matched ++ post) = Some (matched, post) ->
  truthy (decode matched) = true ->
  _parse_rich_text (pre ++ matched ++ post)
  = _chunk_text pre None ++ decode matched ++ _chunk_text post None.
Proof.
  intros Hpre Hpost He Hm Hd. unfold _parse_rich_text.
  rewrite parse_loop_before by (done || lia).
  rewrite (parse_loop_match _ _ _ _ _ Hm) by lia.
  rewrite parse_loop_plain by (done || lia).
  rewrite app_nil_r, rev_involutive. cbn [rev app].
  destruct (decode matched) as [|it its]; [done|].
  by destruct (_chunk_text pre None).
Qed.

(** The group [[^stop]+] stops at the first [stop]. *)
Lemma span_not_stop stop c : forall r,
  no_char stop c = true -> span_not stop (c ++ stop :: r) = (c, stop :: r).
Proof.
  induction c as [|x c IH]; intros r H.
  - cbn [app span_not]. by rewrite Ascii.eqb_refl.
  - apply andb_true_iff in H as [Hx Hc]. apply negb_true_iff in Hx.
    cbn [app span_not]. by rewrite Hx, IH.
Qed.

Lemma after_prefix_app p s : after_prefix p (p ++ s) = Some s.
Proof.
  unfold after_prefix. by rewrite startswith_app, drop_app_length.
Qed.

Lemma delimited_span open stop close c post :
  truthy c = true -> no_char stop c = true ->
  delimited open stop (stop :: close) (open ++ c ++ (stop :: close) ++ post)
  = Some post.
Proof.
  intros Ht Hc. unfold delimited. rewrite after_prefix_app.
  cbn [app]. rewrite span_not_stop by done. rewrite Ht.
  apply (after_prefix_app (stop :: close)).
Qed.

Lemma slice_mid_app open c close :
  slice_mid (length open) (length close) (open ++ c ++ close) = c.
Proof.
  unfold slice_mid. rewrite drop_app_length, !length_app.
  replace (_ - _ - _) with (length c) by lia.
  apply take_app_length.
Qed.

Lemma matched_prefix (m post : str) :
  firstn (length (m ++ post) - length post) (m ++ post) = m.
Proof.
  rewrite length_app. replace (_ - _) with (length m) by lia.
  apply take_app_length.
Qed.

Lemma chunk_text_truthy c ann :
  truthy c = true -> truthy (_chunk_text c ann) = true.
Proof. by destruct c. Qed.

Lemma endswith_app3 (open c close : str) :
  endswith close (open ++ c ++ close) = true.
Proof. rewrite app_assoc. apply endswith_app. Qed.

(** The first character of content that avoids [x] is not [x]. *)
Lemma no_char_head x c s r :
  no_char x (c :: s) = true -> startswith [x] ((c :: s) ++ r) = false.
Proof.
  intros [H _]%andb_true_iff. apply negb_true_iff in H.
  cbn [app]. by rewrite startswith_cons, Ascii.eqb_sym, H.
Qed.

(** *** The inline equation *)
Lemma match_at_math c post :
  truthy c = true -> no_char "`"%char c = true ->
  match_at ((lit "$`" ++ c ++ lit "`$") ++ post)
  = Some (lit "$`" ++ c ++ lit "`$", post).
Proof.
  intros Ht Hc. unfold match_at, alt_math.
  rewrite <- !app_assoc.
  pose proof (delimited_span (lit "$`") "`"%char (lit "$") c post Ht Hc)
    as Hd.
  change ("`"%char :: lit "$") with (lit "`$") in Hd. rewrite Hd.
  cbn [or_else]. f_equal. f_equal.
  rewrite !app_assoc. rewrite <- (app_assoc (lit "$`")).
  apply matched_prefix.
Qed.

Lemma decode_math c :
  decode (lit "$`" ++ c ++ lit "`$") = [EquationItem c].
Proof.
  unfold decode. rewrite startswith_app, endswith_app3. cbn [andb].
  by rewrite (slice_mid_app (lit "$`") c (lit "`$")
                : slice_mid 2 2 (lit "$`" ++ c ++ lit "`$") = c).
Qed.

(** *** Bold, italic and code *)
Lemma match_at_marked a c post :
  truthy c = true -> no_char (marker_stop a) c = true ->
  match_at ((marker a ++ c ++ marker a) ++ post)
  = Some (marker a ++ c ++ marker a, post).
Proof.
  intros Ht Hc.
  assert (Hd : delimited (marker a) (marker_stop a) (marker a)
                 (marker a ++ c ++ marker a ++ post) = Some post).
  { destruct a.
    - exact (delimited_span (lit "**") "*"%char (lit "*") c post Ht Hc).
    - exact (delimited_span (lit "*") "*"%char [] c post Ht Hc).
    - exact (delimited_span (lit "`") "`"%char [] c post Ht Hc). }
  destruct c as [|x c]; [done|].
  pose proof (no_char_head _ _ _ (marker a ++ post) Hc) as Hx.
  apply andb_true_iff in Hc as [Hx' _]. apply negb_true_iff in Hx'.
  unfold match_at. rewrite <- !app_assoc.
  replace (or_else _ _) with (Some post).
  { f_equal. f_equal. rewrite !app_assoc, <- (app_assoc (marker a)).
    apply matched_prefix. }
  unfold alt_math, alt_bold, alt_italic, alt_code.
  destruct a; cbn [marker marker_stop] in *.
  - rewrite Hd. by vm_compute.
  - rewrite Hd.
    assert (E1 : delimited (lit "$`") "`"%char (lit "`$")
                  (lit "*" ++ (x :: c) ++ lit "*" ++ post) = None)
      by done.
    assert (E2 : delimited (lit "**") "*"%char (lit "**")
                  (lit "*" ++ (x :: c) ++ lit "*" ++ post) = None).
    { unfold delimited, after_prefix.
      change (lit "*" ++ (x :: c) ++ lit "*" ++ post)
        with ("*"%char :: x :: (c ++ lit "*" ++ post)).
      change (lit "**") with ["*"%char; "*"%char].
      by rewrite !startswith_cons, (Ascii.eqb_sym _ x), Hx', andb_false_r. }
    by rewrite E1, E2.
  - rewrite Hd. by vm_compute.
Qed.

Lemma decode_marked a c :
  truthy c = true -> no_char (marker_stop a) c = true ->
  decode (marker a ++ c ++ marker a) = _chunk_text c (Some a).
Proof.
  intros Ht Hc. destruct c as [|x c]; [done|].
  apply andb_true_iff in Hc as [Hx _]. apply negb_true_iff in Hx.
  unfold decode.
  destruct a; cbn [marker marker_stop] in *.
  - replace (startswith (lit "$`") _) with false by done.
    rewrite startswith_app, (endswith_app3 (lit "**")). cbn [andb].
    by rewrite (slice_mid_app (lit "**") (x :: c) (lit "**")
                  : slice_mid 2 2 (lit "**" ++ (x :: c) ++ lit "**") = _).
  - replace (startswith (lit "$`") _) with false by done.
    replace (startswith (lit "**") _) with false.
    2:{ change (lit "*" ++ (x :: c) ++ lit "*")
          with ("*"%char :: x :: (c ++ lit "*")).
        change (lit "**") with ["*"%char; "*"%char].
        by rewrite !startswith_cons, (Ascii.eqb_sym _ x), Hx, andb_false_r. }
    rewrite startswith_app, (endswith_app3 (lit "*")). cbn [andb].
    by rewrite (slice_mid_app (lit "*") (x :: c) (lit "*")
                  : slice_mid 1 1 (lit "*" ++ (x :: c) ++ lit "*") = _).
  - replace (startswith (lit "$`") _) with false by done.
    replace (startswith (lit "**") _) with false by done.
    replace (startswith (lit "*") _) with false by done.
    rewrite startswith_app, (endswith_app3 (lit "`")). cbn [andb].
    by rewrite (slice_mid_app (lit "`") (x :: c) (lit "`")
                  : slice_mid 1 1 (lit "`" ++ (x :: c) ++ lit "`") = _).
Qed.

(** *** The link *)
Lemma match_at_link t u post :
  truthy t = true -> no_char "]"%char t = true ->
  truthy u = true -> no_char ")"%char u = true ->
  match_at ((lit "[" ++ t ++ lit "](" ++ u ++ lit ")") ++ post)
  = Some (lit "[" ++ t ++ lit "](" ++ u ++ lit ")", post).
Proof.
  intros Ht Hnt Hu Hnu. unfold match_at.
  replace (or_else _ _) with (Some post).
  { f_equal. f_equal. apply matched_prefix. }
  rewrite <- !app_assoc.
  replace (alt_math _) with (@None str) by done.
  replace (alt_bold _) with (@None str) by done.
  replace (alt_italic _) with (@None str) by done.
  replace (alt_code _) with (@None str) by done.
  cbn [or_else]. unfold alt_link.
  change (lit "](" ++ u ++ lit ")" ++ post)
    with (lit "]" ++ (lit "(" ++ u ++ lit ")" ++ post)).
  pose proof (delimited_span (lit "[") "]"%char [] t
                (lit "(" ++ u ++ lit ")" ++ post) Ht Hnt) as H1.
  pose proof (delimited_span (lit "(") ")"%char [] u post Hu Hnu) as H2.
  change [")"%char] with (lit ")") in H2.
  change ["]"%char] with (lit "]") in H1.
  by rewrite H1, H2.
Qed.

Lemma decode_link t u :
  truthy t = true -> no_char "]"%char t = true ->
  truthy u = true -> no_char ")"%char u = true ->
  decode (lit "[" ++ t ++ lit "](" ++ u ++ lit ")") = [LinkItem t u].
Proof.
  intros Ht Hnt Hu Hnu. unfold decode.
  replace (startswith (lit "$`") _) with false by done.
  replace (startswith (lit "**") _) with false by done.
  replace (startswith (lit "*") _) with false by done.
  replace (startswith (lit "`") _) with false by done.
  rewrite startswith_app. cbn [andb].
  unfold link_match. rewrite after_prefix_app.
  change (lit "](" ++ u ++ lit ")")
    with ("]"%char :: (lit "(" ++ u ++ lit ")")).
  rewrite span_not_stop by done. rewrite Ht.
  change ("]"%char :: (lit "(" ++ u ++ lit ")"))
    with (lit "](" ++ (u ++ lit ")")).
  rewrite after_prefix_app.
  change (u ++ lit ")") with (u ++ ")"%char :: []).
  rewrite span_not_stop by done. by rewrite Hu.
Qed.

(** An inline equation between text. *)
Lemma parse_equation_between pre c post :
  plain_text pre = true -> plain_text post = true ->
  truthy c = true -> no_char "`"%char c = true ->
  _parse_rich_text (pre ++ (lit "$`" ++ c ++ lit "`$") ++ post)
  = _chunk_text pre None ++ [EquationItem c] ++ _chunk_text post None.
Proof.
  intros Hpre Hpost Ht Hc.
  rewrite <- decode_math.
  apply parse_around; try done.
  - by rewrite andb_false_r.
  - by apply match_at_math.
  - by rewrite decode_math.
Qed.

End SpanProofs.

(** X2.  Text without a backtick, a star or an opening bracket has no
    span: [_parse_rich_text] returns the elements of [_chunk_text] on the
    whole text, without annotations; a dollar sign alone opens nothing.
    On the empty text it returns one text element with empty content. *)
Theorem parse_plain_text (text : str) :
  plain_text text = true ->
  _parse_rich_text text
  = if truthy text then _chunk_text text None else [TextItem [] None].
Proof.
  intros Hp. unfold _parse_rich_text.
  rewrite SegmentProofs.parse_loop_plain by (done || lia). cbn [rev app].
  by destruct text.
Qed.

Lemma parse_plain_text_witness :
  _parse_rich_text (lit "costs $5, 50% off") 
  = [TextItem (lit "costs $5, 50% off") None].
Proof. exact (parse_plain_text (lit "costs $5, 50% off") eq_refl). Defined.

(** X3.  An inline equation between text.  For a content [c] that is not
    empty and has no backtick, [_parse_rich_text] on [pre], the canonical
    marker around [c], [post] (both without markup) returns the text
    elements of [pre], one equation element whose expression is [c], the
    text elements of [post]: the marker is an equation, not a code span. *)
Theorem parse_inline_equation (pre c post : str) :
  plain_text pre = true -> plain_text post = true ->
  truthy c = true -> no_char "`"%char c = true ->
  _parse_rich_text (pre ++ (lit "$`" ++ c ++ lit "`$") ++ post)
  = _chunk_text pre None ++ [EquationItem c] ++ _chunk_text post None.
Proof. apply SpanProofs.parse_equation_between. Qed.

Lemma parse_inline_equation_witness :
  _parse_rich_text (lit "so $`x^2`$ and $1")
  = [TextItem (lit "so ") None; EquationItem (lit "x^2");
     TextItem (lit " and $1") None].
Proof.
  exact (parse_inline_equation (lit "so ") (lit "x^2") (lit " and $1")
           eq_refl eq_refl eq_refl eq_refl).
Defined.

(** X4.  Bold, italic and code.  For a content [c] that is not empty and
    does not hold the character of the delimiter, [_parse_rich_text] on
    [pre], [c] between two delimiters (two stars on each side, one star, or
    one backtick), [post] returns the text elements of [pre], the elements
    of [_chunk_text] on [c] with the annotation of the delimiter, the text
    elements of [post].  Two stars give bold, never italic.  For the code
    span [pre] must not end in a dollar, which with the backtick would
    open the inline-math pattern. *)
Theorem parse_annotated_span (a : annotations) (pre c post : str) :
  plain_text pre = true -> plain_text post = true ->
  truthy c = true -> no_char (marker_stop a) c = true ->
  (a = code -> endswith (lit "$") pre = false) ->
  _parse_rich_text (pre ++ (marker a ++ c ++ marker a) ++ post)
  = _chunk_text pre None ++ _chunk_text c (Some a) ++ _chunk_text post None.
Proof.
  intros Hpre Hpost Ht Hc Ha.
  rewrite <- SpanProofs.decode_marked by done.
  apply SpanProofs.parse_around; try done.
  - destruct a; [by rewrite andb_false_r..|].
    by rewrite Ha.
  - by apply SpanProofs.match_at_marked.
  - rewrite SpanProofs.decode_marked by done.
    by apply SpanProofs.chunk_text_truthy.
Qed.

Lemma parse_annotated_span_witness :
  _parse_rich_text (lit "a **b** c")
  = [TextItem (lit "a ") None; TextItem (lit "b") (Some bold);
     TextItem (lit " c") None]
  /\ _parse_rich_text (lit "*b*")
     = [TextItem (lit "b") (Some italic)]
  /\ _parse_rich_text (lit "run `x*y` now")
     = [TextItem (lit "run ") None; TextItem (lit "x*y") (Some code);
        TextItem (lit " now") None].
Proof.
  split; [|split].
  - exact (parse_annotated_span bold (lit "a ") (lit "b") (lit " c")
             eq_refl eq_refl eq_refl eq_refl (fun _ => eq_refl)).
  - exact (parse_annotated_span italic [] (lit "b") []
             eq_refl eq_refl eq_refl eq_refl (fun _ => eq_refl)).
  - exact (parse_annotated_span code (lit "run ") (lit "x*y") (lit " now")
             eq_refl eq_refl eq_refl eq_refl (fun _ => eq_refl)).
Defined.

(** X5.  A link.  For a text [t] without closing bracket and a target [u]
    without closing parenthesis, both not empty, [_parse_rich_text] on
    [pre], the link, [post] returns the text elements of [pre], one link
    element with content [t] and url [u], the text elements of [post].
    The text of the link is taken as it is: markup inside it is not
    parsed. *)
Theorem parse_link (pre t u post : str) :
  plain_text pre = true -> plain_text post = true ->
  truthy t = true -> no_char "]"%char t = true ->
  truthy u = true -> no_char ")"%char u = true ->
  _parse_rich_text (pre ++ (lit "[" ++ t ++ lit "](" ++ u ++ lit ")") ++ post)
  = _chunk_text pre None ++ [LinkItem t u] ++ _chunk_text post None.
Proof.
  intros Hpre Hpost Ht Hnt Hu Hnu.
  rewrite <- (SpanProofs.decode_link t u) by done.
  apply SpanProofs.parse_around; try done.
  - by rewrite andb_false_r.
  - by apply SpanProofs.match_at_link.
  - by rewrite SpanProofs.decode_link.
Qed.

Lemma parse_link_witness :
  _parse_rich_text (lit "see [the *docs*](http://x.y/a_b) here")
  = [TextItem (lit "see ") None;
     LinkItem (lit "the *docs*") (lit "http://x.y/a_b");
     TextItem (lit " here") None].
Proof.
  exact (parse_link (lit "see ") (lit "the *docs*") (lit "http://x.y/a_b")
           (lit " here") eq_refl eq_refl eq_refl eq_refl eq_refl eq_refl).
Defined.

(** * The kinds of line of [build_blocks] *)

Module KindProofs.
Import SegmentProofs.

Lemma strip_all_space s : all_space s = true -> strip s = [].
Proof.
  intros H. unfold strip, rstrip.
  rewrite <- (app_nil_r (rev s)), lstrip_space_app
    by (by rewrite all_space_rev).
  done.
Qed.

Lemma split_nl_all_space s :
  all_space s = true -> Forall (fun l => all_space l = true) (split_nl s).
Proof.
  induction s as [|c s IH]; [by repeat constructor|].
  intros [Hc Hs]%andb_true_iff. specialize (IH Hs). cbn [split_nl].
  destruct (Ascii.eqb c NL); [by constructor|].
  destruct (split_nl s) as [|l ls]; [by repeat constructor; simpl; rewrite Hc|].
  inversion IH; subst. constructor; [|done].
  simpl. by rewrite Hc.
Qed.

Lemma build_step_blank line rest :
  strip line = [] -> build_step line rest = (None, rest).
Proof. intros H. unfold build_step. by rewrite H. Qed.

Lemma segment_blank lines :
  Forall (fun l => all_space l = true) lines -> segment lines = [].
Proof.
  induction 1 as [|l ls Hl _ IH]; [done|].
  rewrite segment_cons, build_step_blank by (by apply strip_all_space).
  exact IH.
Qed.

(** A block without rich text goes through the size pass as it is. *)
Lemma enforce_one b :
  (forall v, inner b !! "rich_text"%string = Some v -> attr_len v <= 100) ->
  enforce [b] = [b].
Proof.
  intros H. unfold enforce. cbn [flat_map]. rewrite app_nil_r.
  by apply EnforceProofs.split_within.
Qed.

(** *** Which branch a line takes *)

Lemma span_class_run (cls : ascii -> bool) run : forall r,
  forallb cls run = true ->
  match r with [] => true | c :: _ => negb (cls c) end = true ->
  span_class cls (run ++ r) = (run, r).
Proof.
  induction run as [|x run IH]; intros r Hrun Hr.
  - destruct r as [|c r]; [done|]. apply negb_true_iff in Hr.
    cbn [app span_class]. by rewrite Hr.
  - apply andb_true_iff in Hrun as [Hx Hrun].
    cbn [app span_class]. by rewrite Hx, IH.
Qed.

Lemma take_line_one_line g : one_line g = true -> take_line g = g.
Proof.
  induction g as [|c g IH]; [done|].
  intros [Hc Hg]%andb_true_iff. apply negb_true_iff in Hc.
  cbn [take_line]. by rewrite Hc, IH.
Qed.

Lemma header_match_no_hash s :
  startswith (lit "#") s = false -> header_match s = None.
Proof.
  intros H. unfold header_match. destruct s as [|c s]; [done|].
  change (lit "#") with ["#"%char] in H.
  rewrite startswith_cons, startswith_nil, andb_true_r in H.
  cbn [span_class]. by rewrite H.
Qed.

Lemma forallb_repeat {A} (f : A -> bool) x n :
  f x = true -> forallb f (repeat x n) = true.
Proof. intros H. induction n as [|n IH]; [done|]. simpl. by rewrite H. Qed.

Lemma header_match_hashes k ws g :
  truthy ws = true -> all_space ws = true -> head_ok g = true ->
  header_match (repeat "#"%char k ++ ws ++ g)
  = if (1 <=? k) && (k <=? 3) then Some (k, take_line g) else None.
Proof.
  intros Ht Hws Hg. unfold header_match.
  rewrite (span_class_run (Ascii.eqb "#"%char)).
  - rewrite repeat_length. destruct (_ && _); [|done].
    rewrite (span_class_run isspace); [by rewrite Ht|done|].
    destruct g as [|c g]; [done|]. exact Hg.
  - by apply forallb_repeat.
  - destruct ws as [|w ws]; [done|].
    apply andb_true_iff in Hws as [Hw _]. cbn [app].
    destruct (Ascii.eqb_spec "#"%char w) as [<-|]; [done|done].
Qed.

(** A digit is none of the characters that open another kind of line. *)
Lemma digit_head d s :
  re_digit d = true ->
  str_eqb (d :: s) (lit "$$") = false
  /\ startswith (lit "```") (d :: s) = false
  /\ is_rule (d :: s) = false
  /\ startswith (lit "#") (d :: s) = false
  /\ startswith (lit "> ") (d :: s) = false
  /\ startswith (lit "- ") (d :: s) = false
  /\ startswith (lit "* ") (d :: s) = false.
Proof.
  intros Hd.
  assert (H : forall c, re_digit c = false -> Ascii.eqb c d = false).
  { intros c Hc. destruct (Ascii.eqb_spec c d) as [->|]; [|done].
    by rewrite Hd in Hc. }
  unfold is_rule.
  change (lit "$$") with ("$"%char :: lit "$").
  change (lit "```") with ("`"%char :: lit "``").
  change (lit "---") with ("-"%char :: lit "--").
  change (lit "***") with ("*"%char :: lit "**").
  change (lit "___") with ("_"%char :: lit "__").
  change (lit "#") with ("#"%char :: []).
  change (lit "> ") with (">"%char :: lit " ").
  change (lit "- ") with ("-"%char :: lit " ").
  change (lit "* ") with ("*"%char :: lit " ").
  rewrite !startswith_cons, !str_eqb_cons.
  rewrite !(Ascii.eqb_sym d).
  by rewrite !H.
Qed.

Lemma num_match_item digits ws g :
  truthy digits = true -> forallb re_digit digits = true ->
  truthy ws = true -> all_space ws = true -> head_ok g = true ->
  num_match (digits ++ "."%char :: ws ++ g) = Some (take_line g).
Proof.
  intros Hd Hds Ht Hws Hg. unfold num_match.
  rewrite (span_class_run re_digit) by done.
  rewrite Hd. change (Ascii.eqb "."%char "."%char) with true. cbn match.
  rewrite (span_class_run isspace); [by rewrite Ht|done|].
  destruct g as [|c g]; [done|]. exact Hg.
Qed.

(** What the test that ends a paragraph excludes. *)
Lemma ends_paragraph_false s :
  ends_paragraph s = false ->
  truthy s = true /\ str_eqb s (lit "$$") = false
  /\ startswith (lit "```") s = false /\ is_rule s = false
  /\ header_match s = None /\ startswith (lit "> ") s = false
  /\ startswith (lit "- ") s || startswith (lit "* ") s = false
  /\ num_match s = None.
Proof.
  unfold ends_paragraph. rewrite !orb_false_iff, negb_false_iff.
  intros [[[[[[[[H1 H2] H3] H4] H5] H6] H7] H8] H9].
  rewrite H3, H4. repeat split; try done.
  - by apply header_match_no_hash.
  - by destruct (num_match s).
Qed.

Lemma build_step_paragraph line rest :
  ends_paragraph (strip line) = false ->
  build_step line rest
  = (Some (rich_block "paragraph"
             (_parse_rich_text
                (join (lit " ") (strip line :: (collect_paragraph rest).1)))),
     (collect_paragraph rest).2).
Proof.
  intros (H1 & H2 & H3 & H4 & H5 & H6 & H7 & H8)%ends_paragraph_false.
  unfold build_step. rewrite H1, H2, H3, H4, H5, H6, H7, H8. cbn [negb].
  by destruct (collect_paragraph rest).
Qed.

Lemma collect_paragraph_run ls : forall rest,
  Forall (fun l => ends_paragraph (strip l) = false) ls ->
  next_line ends_paragraph rest = true ->
  collect_paragraph (ls ++ rest) = (map strip ls, rest).
Proof.
  induction ls as [|l ls IH]; intros rest Hls Hrest.
  - destruct rest as [|r rest]; [done|]. simpl in *. by rewrite Hrest.
  - inversion Hls; subst. cbn [app collect_paragraph map].
    by rewrite H1, IH.
Qed.

Lemma collect_quote_run ls : forall rest,
  Forall (fun l => startswith (lit "> ") (strip l) = true) ls ->
  next_line (fun s => negb (startswith (lit "> ") s)) rest = true ->
  collect_quote (ls ++ rest)
  = (map (fun l => skipn 2 (strip l)) ls, rest).
Proof.
  induction ls as [|l ls IH]; intros rest Hls Hrest.
  - destruct rest as [|r rest]; [done|]. simpl in *.
    apply negb_true_iff in Hrest. by rewrite Hrest.
  - inversion Hls; subst. cbn [app collect_quote map].
    by rewrite H1, IH.
Qed.

Lemma collect_code_closed body : forall c post,
  Forall (fun l => startswith (lit "```") (strip l) = false) body ->
  startswith (lit "```") (strip c) = true ->
  collect_code (body ++ c :: post) = (body, c :: post).
Proof.
  induction body as [|l body IH]; intros c post Hb Hc.
  - cbn [app collect_code]. by rewrite Hc.
  - inversion Hb; subst. cbn [app collect_code]. by rewrite H1, IH.
Qed.

(** A line that starts, trimmed, with one of the fixed prefixes below is
    not blank, not the math marker, opens no fence, is no rule and no
    heading. *)
Lemma prefix_facts p s :
  In p [lit "> "; lit "- "; lit "* "] -> startswith p s = true ->
  truthy s = true /\ str_eqb s (lit "$$") = false
  /\ startswith (lit "```") s = false /\ is_rule s = false
  /\ header_match s = None.
Proof.
  intros Hp [t ->]%startswith_spec.
  destruct Hp as [<-|[<-|[<-|[]]]]; by vm_compute.
Qed.

Lemma rule_facts s :
  is_rule s = true ->
  truthy s = true /\ str_eqb s (lit "$$") = false
  /\ startswith (lit "```") s = false.
Proof.
  unfold is_rule. rewrite !orb_true_iff, !str_eqb_eq.
  by intros [[->| ->]| ->].
Qed.

End KindProofs.

Import KindProofs.

(** X6.  Blank lines give no block: the segmenter skips every line that
    is white space only, and [build_blocks] on a text that is white space
    only (newlines included) returns no block at all. *)
Theorem blank_lines_give_no_block :
  (forall blanks rest,
      Forall (fun l => all_space l = true) blanks ->
      segment (blanks ++ rest) = segment rest)
  /\ (forall text, all_space text = true -> build_blocks text = []).
Proof.
  split.
  - intros blanks rest H. induction H as [|l ls Hl _ IH]; [done|].
    cbn [app]. rewrite SegmentProofs.segment_cons.
    by rewrite build_step_blank by (by apply strip_all_space).
  - intros text H. unfold build_blocks.
    by rewrite segment_blank by (by apply split_nl_all_space).
Qed.

Lemma blank_lines_give_no_block_witness :
  segment ([lit "  "; []] ++ [lit "---"]) = segment [lit "---"]
  /\ build_blocks (text_of [lit " "; []; lit "   "]) = [].
Proof.
  split.
  - apply (proj1 blank_lines_give_no_block [lit "  "; []] [lit "---"]).
    by repeat constructor.
  - exact (proj2 blank_lines_give_no_block
             (text_of [lit " "; []; lit "   "]) eq_refl).
Defined.

(** X7.  Headings.  A line that, trimmed, is [k] hashes, white space and
    a title [g]: for [k] from 1 to 3 the segmenter emits a heading of level
    [k] whose rich text is parsed from [g], and goes on with the next line;
    for [k] above 3 the line is no heading: it starts a paragraph, hashes
    included, that takes the following paragraph lines with it. *)
Theorem heading_levels (k : nat) (p ws g q : str) (rest : list str) :
  all_space p = true -> all_space q = true ->
  truthy ws = true -> all_space ws = true ->
  head_ok g = true -> last_ok g = true -> one_line g = true ->
  1 <= k ->
  let stripped := repeat "#"%char k ++ ws ++ g in
  let line := p ++ stripped ++ q in
  (k <= 3 ->
   segment (line :: rest)
   = rich_block (heading_type k) (_parse_rich_text g) :: segment rest)
  /\ (3 < k ->
      segment (line :: rest)
      = rich_block "paragraph"
          (_parse_rich_text
             (join (lit " ") (stripped :: (collect_paragraph rest).1)))
        :: segment (collect_paragraph rest).2).
Proof.
  intros Hp Hq Hws Hsp Hg Hgl Hline Hk stripped line.
  assert (Hs : strip line = stripped).
  { apply strip_core; try done.
    - subst stripped. by destruct k; [lia|].
    - subst stripped. by do 2 apply last_ok_app. }
  assert (Hfacts : truthy stripped = true
                   /\ str_eqb stripped (lit "$$") = false
                   /\ startswith (lit "```") stripped = false
                   /\ is_rule stripped = false
                   /\ startswith (lit "> ") stripped = false
                   /\ startswith (lit "- ") stripped
                      || startswith (lit "* ") stripped = false
                   /\ num_match stripped = None).
  { subst stripped. destruct k as [|k]; [lia|]. by vm_compute. }
  destruct Hfacts as (F1 & F2 & F3 & F4 & F5 & F6 & F7).
  pose proof (header_match_hashes k ws g Hws Hsp Hg) as Hh.
  fold stripped in Hh. rewrite take_line_one_line in Hh by done.
  split; intros Hk3; rewrite SegmentProofs.segment_cons;
    unfold build_step; rewrite Hs, F1, F2, F3, F4, Hh; cbn [negb].
  - destruct (Nat.leb_spec 1 k); [|lia].
    by destruct (Nat.leb_spec k 3); [|lia].
  - destruct (Nat.leb_spec k 3); [lia|]. rewrite andb_false_r.
    rewrite F5, F6, F7. by destruct (collect_paragraph rest).
Qed.

Lemma heading_levels_witness :
  segment [lit "  ## Two words "; lit "text"]
  = [rich_block "heading_2" [TextItem (lit "Two words") None];
     rich_block "paragraph" [TextItem (lit "text") None]]
  /\ segment [lit "#### deep"; lit "text"]
     = [rich_block "paragraph" [TextItem (lit "#### deep text") None]].
Proof.
  split.
  - exact (proj1 (heading_levels 2 (lit "  ") (lit " ") (lit "Two words")
                    (lit " ") [lit "text"]
                    eq_refl eq_refl eq_refl eq_refl eq_refl eq_refl eq_refl
                    (le_S _ _ (le_n 1)))
             (le_S _ _ (le_n 2))).
  - exact (proj2 (heading_levels 4 [] (lit " ") (lit "deep") []
                    [lit "text"]
                    eq_refl eq_refl eq_refl eq_refl eq_refl eq_refl eq_refl
                    (le_S _ _ (le_S _ _ (le_S _ _ (le_n 1)))))
             (le_n 4)).
Defined.

(** X8.  Bulleted items.  A line that, trimmed, starts with a dash and a
    space or with a star and a space gives one bulleted item whose rich
    text is parsed from the trimmed line without its first two characters,
    and the scan goes on with the next line (no branch before this one
    takes such a line).  So a list of lines made of a dash, a space and an
    item that does not end in white space gives one bulleted item per
    line, in order. *)
Theorem bullet_lines :
  (forall line rest,
      startswith (lit "- ") (strip line)
      || startswith (lit "* ") (strip line) = true ->
      segment (line :: rest)
      = rich_block "bulleted_list_item"
          (_parse_rich_text (skipn 2 (strip line)))
        :: segment rest)
  /\ (forall items,
        Forall (fun t => last_ok t = true) items ->
        segment (map (fun t => lit "- " ++ t) items)
        = map (fun t => rich_block "bulleted_list_item" (_parse_rich_text t))
              items).
Proof.
  assert (Hstep : forall line rest,
      startswith (lit "- ") (strip line)
      || startswith (lit "* ") (strip line) = true ->
      segment (line :: rest)
      = rich_block "bulleted_list_item"
          (_parse_rich_text (skipn 2 (strip line)))
        :: segment rest).
  { intros line rest H. rewrite SegmentProofs.segment_cons.
    unfold build_step.
    assert (Hf : truthy (strip line) = true
                 /\ str_eqb (strip line) (lit "$$") = false
                 /\ startswith (lit "```") (strip line) = false
                 /\ is_rule (strip line) = false
                 /\ header_match (strip line) = None
                 /\ startswith (lit "> ") (strip line) = false).
    { apply orb_true_iff in H as [H|H].
      - destruct (prefix_facts (lit "- ") _ ltac:(right; left; done) H)
          as (? & ? & ? & ? & ?).
        repeat split; try done.
        apply startswith_spec in H as [t ->]. done.
      - destruct (prefix_facts (lit "* ") _
                    ltac:(right; right; left; done) H)
          as (? & ? & ? & ? & ?).
        repeat split; try done.
        apply startswith_spec in H as [t ->]. done. }
    destruct Hf as (F1 & F2 & F3 & F4 & F5 & F6).
    by rewrite F1, F2, F3, F4, F5, F6, H. }
  split; [exact Hstep|].
  intros items H. induction H as [|t ts Ht _ IH]; [done|].
  cbn [map]. rewrite Hstep.
  - rewrite IH. do 2 f_equal.
    rewrite strip_ok; [done|done|by apply last_ok_app].
  - rewrite strip_ok; [|done|by apply last_ok_app].
    by rewrite startswith_app.
Qed.

Lemma bullet_lines_witness :
  segment [lit " * one"; lit "next"]
  = [rich_block "bulleted_list_item" [TextItem (lit "one") None];
     rich_block "paragraph" [TextItem (lit "next") None]]
  /\ segment (map (fun t => lit "- " ++ t) [lit "a"; lit "b"])
     = [rich_block "bulleted_list_item" [TextItem (lit "a") None];
        rich_block "bulleted_list_item" [TextItem (lit "b") None]].
Proof.
  split.
  - exact (proj1 bullet_lines (lit " * one") [lit "next"] eq_refl).
  - apply (proj2 bullet_lines [lit "a"; lit "b"]).
    by repeat constructor.
Defined.

(** X9.  Numbered items.  A line that, trimmed, is digits, a period, white
    space and a text [g] gives one numbered item whose rich text is parsed
    from [g] alone: the numeral and the period are dropped.  The scan goes
    on with the next line. *)
Theorem numbered_item_drops_numeral
    (p digits ws g q : str) (rest : list str) :
  all_space p = true -> all_space q = true ->
  truthy digits = true -> forallb re_digit digits = true ->
  truthy ws = true -> all_space ws = true ->
  head_ok g = true -> last_ok g = true -> one_line g = true ->
  segment ((p ++ (digits ++ "."%char :: ws ++ g) ++ q) :: rest)
  = rich_block "numbered_list_item" (_parse_rich_text g) :: segment rest.
Proof.
  intros Hp Hq Hd Hds Hws Hsp Hg Hgl Hline.
  destruct digits as [|d ds]; [done|].
  pose proof Hds as [Hd1 _]%andb_true_iff.
  assert (Hsd : isspace d = false).
  { clear -Hd1. unfold re_digit in Hd1. unfold isspace.
    apply andb_true_iff in Hd1 as [H1 H2].
    apply Nat.leb_le in H1, H2.
    repeat match goal with
    | |- context [?a <=? ?b] => destruct (Nat.leb_spec a b); try lia
    | |- context [?a =? ?b] => destruct (Nat.eqb_spec a b); try lia
    end; done. }
  set (stripped := (d :: ds) ++ "."%char :: ws ++ g).
  assert (Hs : strip (p ++ stripped ++ q) = stripped).
  { apply strip_core; try done.
    - subst stripped. simpl. by rewrite Hsd.
    - subst stripped. apply last_ok_app.
      by apply last_ok_cons, last_ok_app. }
  destruct (digit_head d (ds ++ "."%char :: ws ++ g) Hd1)
    as (F2 & F3 & F4 & F5 & F6 & F7 & F8).
  pose proof (num_match_item (d :: ds) ws g Hd Hds Hws Hsp Hg) as Hn.
  rewrite take_line_one_line in Hn by done.
  rewrite SegmentProofs.segment_cons. unfold build_step.
  rewrite Hs. subst stripped. cbn [app] in *.
  rewrite F2, F3, F4, (header_match_no_hash _ F5), F6, F7, F8, Hn.
  done.
Qed.

Lemma numbered_item_drops_numeral_witness :
  segment [lit " 12.  first"; lit "3. x"]
  = [rich_block "numbered_list_item" [TextItem (lit "first") None];
     rich_block "numbered_list_item" [TextItem (lit "x") None]].
Proof.
  exact (numbered_item_drops_numeral (lit " ") (lit "12") (lit "  ")
           (lit "first") [] [lit "3. x"]
           eq_refl eq_refl eq_refl eq_refl eq_refl eq_refl eq_refl eq_refl
           eq_refl).
Defined.

(** X10.  Paragraphs.  Consecutive lines none of which, trimmed, passes
    the test that ends a paragraph (blank, hash, list marker, math marker,
    fence, quote, rule, numbered item), followed by a line that passes it
    or by the end: the segmenter emits one paragraph whose rich text is
    parsed from the trimmed lines joined by single spaces, and goes on
    with the line after them. *)
Theorem paragraph_merges_lines (l : str) (ls rest : list str) :
  Forall (fun l => ends_paragraph (strip l) = false) (l :: ls) ->
  next_line ends_paragraph rest = true ->
  segment ((l :: ls) ++ rest)
  = rich_block "paragraph"
      (_parse_rich_text (join (lit " ") (map strip (l :: ls))))
    :: segment rest.
Proof.
  intros H Hrest. inversion H; subst.
  cbn [app]. rewrite SegmentProofs.segment_cons.
  rewrite build_step_paragraph by done.
  by rewrite collect_paragraph_run.
Qed.

Lemma paragraph_merges_lines_witness :
  segment [lit "one "; lit "  two"; lit "three"; []; lit "four"]
  = [rich_block "paragraph" [TextItem (lit "one two three") None];
     rich_block "paragraph" [TextItem (lit "four") None]].
Proof.
  apply (paragraph_merges_lines (lit "one ") [lit "  two"; lit "three"]
           [[]; lit "four"]).
  - by repeat constructor.
  - reflexivity.
Defined.

(** X11.  Quotes.  Consecutive lines that, trimmed, start with a closing
    angle bracket and a space, followed by a line that does not or by the
    end: the segmenter emits one quote whose rich text is parsed from the
    trimmed lines, each without its first two characters, joined by single
    spaces, and goes on with the line after them. *)
Theorem quote_merges_lines (l : str) (ls rest : list str) :
  Forall (fun l => startswith (lit "> ") (strip l) = true) (l :: ls) ->
  next_line (fun s => negb (startswith (lit "> ") s)) rest = true ->
  segment ((l :: ls) ++ rest)
  = rich_block "quote"
      (_parse_rich_text
         (join (lit " ") (map (fun l => skipn 2 (strip l)) (l :: ls))))
    :: segment rest.
Proof.
  intros H Hrest. inversion H as [|? ? Hl Hls]; subst.
  cbn [app]. rewrite SegmentProofs.segment_cons. unfold build_step.
  destruct (prefix_facts (lit "> ") _ ltac:(left; done) Hl)
    as (F1 & F2 & F3 & F4 & F5).
  rewrite F1, F2, F3, F4, F5, Hl. cbn [negb].
  by rewrite collect_quote_run.
Qed.

Lemma quote_merges_lines_witness :
  segment [lit "> a"; lit "  > b "; lit ">c"]
  = [rich_block "quote" [TextItem (lit "a b") None];
     rich_block "paragraph" [TextItem (lit ">c") None]].
Proof.
  apply (quote_merges_lines (lit "> a") [lit "  > b "] [lit ">c"]).
  - by repeat constructor.
  - reflexivity.
Defined.

(** X12.  A closed fence.  With the cursor on a line that, trimmed,
    starts with three backticks, followed by lines that do not and then by
    one that does: the segmenter emits one code block holding the lines in
    between as they are (not trimmed, not parsed, blank lines included),
    joined by newlines, with the language of the opening fence or the
    default; the closing line is dropped whole, with whatever follows its
    backticks, and the scan goes on after it. *)
Theorem closed_fence_keeps_lines (l0 c : str) (body post : list str) :
  startswith (lit "```") (strip l0) = true ->
  Forall (fun l => startswith (lit "```") (strip l) = false) body ->
  startswith (lit "```") (strip c) = true ->
  let lang := strip (skipn 3 (strip l0)) in
  segment (l0 :: body ++ c :: post)
  = code_block (join [NL] body)
      (if truthy lang then lang else lit "plain text")
    :: segment post.
Proof.
  intros Hopen Hbody Hclose lang.
  rewrite SegmentProofs.segment_cons. unfold build_step.
  destruct (SegmentProofs.fence_not_blank _ Hopen) as [-> ->].
  rewrite Hopen. cbn [negb].
  by rewrite collect_code_closed.
Qed.

Lemma closed_fence_keeps_lines_witness :
  segment [lit "```python"; lit "  x = 1 "; []; lit "# **no** $$";
           lit "``` end"; lit "after"]
  = [code_block (text_of [lit "  x = 1 "; []; lit "# **no** $$"])
       (lit "python");
     rich_block "paragraph" [TextItem (lit "after") None]].
Proof.
  apply (closed_fence_keeps_lines (lit "```python") (lit "``` end")
           [lit "  x = 1 "; []; lit "# **no** $$"] [lit "after"]).
  - reflexivity.
  - by repeat constructor.
  - reflexivity.
Defined.

(** X13.  Rules.  A line that, trimmed, is three dashes, three stars or
    three underscores gives a divider, and the scan goes on with the next
    line; three stars are a rule, not a list item nor emphasis. *)
Theorem rule_line_gives_divider (line : str) (rest : list str) :
  is_rule (strip line) = true ->
  segment (line :: rest) = divider_block :: segment rest.
Proof.
  intros H. rewrite SegmentProofs.segment_cons. unfold build_step.
  destruct (rule_facts _ H) as (F1 & F2 & F3).
  by rewrite F1, F2, F3, H.
Qed.

Lemma rule_line_gives_divider_witness :
  segment [lit " *** "; lit "- - -"]
  = [divider_block;
     rich_block "bulleted_list_item" [TextItem (lit "- -") None]].
Proof.
  exact (rule_line_gives_divider (lit " *** ") [lit "- - -"] eq_refl).
Defined.

(** * What the normalizer leaves alone *)

Module PassProofs.
Import NormalizeProofs.

(** [split] and [join] are inverse on any text. *)
Lemma split_nl_nonempty s : split_nl s <> [].
Proof.
  destruct s as [|c s]; [done|]. cbn [split_nl].
  destruct (Ascii.eqb c NL); [done|]. by destruct (split_nl s).
Qed.

Lemma join_split_nl s : join [NL] (split_nl s) = s.
Proof.
  induction s as [|c s IH]; [done|]. cbn [split_nl].
  destruct (Ascii.eqb_spec c NL) as [->|Hc].
  - pose proof (split_nl_nonempty s) as Hne.
    destruct (split_nl s) as [|l ls]; [done|].
    rewrite join_cons. cbn [app]. by rewrite IH.
  - destruct (split_nl s) as [|l ls] eqn:E.
    + by destruct (split_nl_nonempty s).
    + rewrite <- IH. by destruct ls.
Qed.

(** *** The block pass *)
Lemma block_math_loop_other lines : forall fuel,
  Forall (fun l => startswith (lit "$$") (strip l) = false) lines ->
  length lines <= fuel ->
  block_math_loop fuel lines = lines.
Proof.
  induction lines as [|l ls IH]; intros fuel H Hf; [by destruct fuel|].
  destruct fuel as [|fuel]; [simpl in Hf; lia|].
  inversion H as [|? ? Hl Hls]; subst.
  cbn [block_math_loop]. unfold block_math_step. rewrite Hl.
  cbn [app]. rewrite IH; [done|done|simpl in Hf; lia].
Qed.

Lemma block_pass_other text :
  Forall (fun l => startswith (lit "$$") (strip l) = false) (split_nl text) ->
  _convert_block_math text = text.
Proof.
  intros H. unfold _convert_block_math.
  rewrite block_math_loop_other by done. apply join_split_nl.
Qed.

(** *** The inline pass *)
Lemma dollars_cons c s :
  dollars (c :: s) = (if is_dollar c then 1 else 0) + dollars s.
Proof. unfold dollars. cbn [List.filter]. by destruct (is_dollar c). Qed.

Lemma dollars_app s t : dollars (s ++ t) = dollars s + dollars t.
Proof. unfold dollars. by rewrite List.filter_app, length_app. Qed.

Lemma close_after_dollar t : forall last more r,
  close_after last t = Some (more, r) -> 1 <= dollars t.
Proof.
  induction t as [|d t IH]; intros last more r H; [done|].
  cbn [close_after] in H. rewrite dollars_cons.
  destruct (is_dollar d) eqn:Ed; [lia|]. cbn [andb] in H.
  destruct (Ascii.eqb d NL); [done|].
  destruct (close_after d t) as [[m r']|] eqn:E; [|done].
  apply IH in E. lia.
Qed.

Lemma match_inline_dollars prev s content r :
  match_inline prev s = Some (content, r) -> 2 <= dollars s.
Proof.
  unfold match_inline. destruct s as [|o [|c t]]; try done.
  rewrite !dollars_cons.
  destruct (is_dollar o); [|done].
  destruct (_ && _); [|done].
  destruct (close_after c t) as [[m r']|] eqn:E; [|done].
  apply close_after_dollar in E. intros _. lia.
Qed.

Lemma sub_inline_lone s : forall fuel prev,
  dollars s <= 1 -> sub_inline fuel prev s = s.
Proof.
  induction s as [|c s IH]; intros fuel prev H; [by destruct fuel|].
  destruct fuel as [|fuel]; [done|]. cbn [sub_inline].
  destruct (match_inline prev (c :: s)) as [[content r]|] eqn:E.
  - apply match_inline_dollars in E. lia.
  - rewrite IH; [done|]. rewrite dollars_cons in H. lia.
Qed.

Lemma inline_lines_lone lines : forall in_block_math,
  Forall (fun l => dollars l <= 1) lines ->
  inline_lines in_block_math lines = lines.
Proof.
  induction lines as [|l ls IH]; intros b H; [done|].
  inversion H as [|? ? Hl Hls]; subst. cbn [inline_lines].
  unfold sub_inline_line. rewrite sub_inline_lone by done.
  rewrite !IH by done. by repeat case_match.
Qed.

Lemma inline_pass_lone text :
  Forall (fun l => dollars l <= 1) (split_nl text) ->
  _convert_inline_math text = text.
Proof.
  intros H. unfold _convert_inline_math.
  rewrite inline_lines_lone by done. apply join_split_nl.
Qed.

(** A line that opens block math has two dollars. *)
Lemma marker_dollars l :
  startswith (lit "$$") (strip l) = true -> 2 <= dollars l.
Proof.
  intros [t Ht]%startswith_spec.
  destruct (strip_parts l) as (p & q & Hl & _).
  rewrite Hl, Ht, !dollars_app.
  change (dollars (lit "$$")) with 2. lia.
Qed.

Lemma lone_not_marker lines :
  Forall (fun l => dollars l <= 1) lines ->
  Forall (fun l => startswith (lit "$$") (strip l) = false) lines.
Proof.
  intros H. eapply Forall_impl; [exact H|]. intros l Hl. cbn beta in *.
  destruct (startswith (lit "$$") (strip l)) eqn:E; [|done].
  apply marker_dollars in E. lia.
Qed.

(** *** The end of [convert] *)
Lemma strip_strip s : strip (strip s) = strip s.
Proof.
  destruct (strip s) as [|c t] eqn:E; [done|]. rewrite <- E.
  destruct (strip_nonempty_ok s) as [Hh Hl]; [by rewrite E|].
  by apply strip_ok.
Qed.

Lemma contains_cons p c s :
  contains p (c :: s) = startswith p (c :: s) || contains p s.
Proof. reflexivity. Qed.

Lemma contains_app_r p a : forall s,
  contains p s = true -> contains p (a ++ s) = true.
Proof.
  induction a as [|x a IH]; intros s H; [done|].
  cbn [app]. rewrite contains_cons, IH by done. apply orb_true_r.
Qed.

Lemma startswith_app_l p : forall s t,
  startswith p s = true -> startswith p (s ++ t) = true.
Proof.
  intros s t [u ->]%startswith_spec. rewrite <- app_assoc.
  apply startswith_app.
Qed.

Lemma contains_app_l p s t :
  contains p s = true -> contains p (s ++ t) = true.
Proof.
  induction s as [|c s IH]; intros H.
  - destruct p as [|x p]; [by destruct t|done].
  - rewrite contains_cons in H. cbn [app]. rewrite contains_cons.
    apply orb_true_iff in H as [H|H].
    + pose proof (startswith_app_l p (c :: s) t H) as H'.
      cbn [app] in H'. by rewrite H'.
    + rewrite IH by done. apply orb_true_r.
Qed.

Lemma contains_strip p s :
  contains p s = false -> contains p (strip s) = false.
Proof.
  intros H. destruct (contains p (strip s)) eqn:E; [|done].
  destruct (strip_parts s) as (a & b & Hs & _).
  rewrite Hs in H.
  by rewrite (contains_app_r p a _ (contains_app_l p (strip s) b E)) in H.
Qed.

Lemma startswith_short_run c t : forall n j,
  Ascii.eqb c NL = false -> j < n ->
  startswith (repeat NL n) (repeat NL j ++ c :: t) = false.
Proof.
  intros n j Hc. revert n. induction j as [|j IH]; intros n Hj.
  - destruct n as [|n]; [lia|]. cbn [repeat app].
    by rewrite startswith_cons, Ascii.eqb_sym, Hc.
  - destruct n as [|n]; [lia|]. cbn [repeat app].
    rewrite startswith_cons, IH by lia. apply andb_false_r.
Qed.

Lemma contains_run_text c t :
  Ascii.eqb c NL = false ->
  contains (repeat NL 4) t = false ->
  forall j, j <= 3 -> contains (repeat NL 4) (repeat NL j ++ c :: t) = false.
Proof.
  intros Hc Ht j. induction j as [|j IH]; intros Hj.
  - pose proof (startswith_short_run c t 4 0 Hc ltac:(lia)) as H0.
    change (repeat NL 0 ++ c :: t) with (c :: t) in *.
    by rewrite contains_cons, Ht, H0.
  - change (repeat NL (S j) ++ c :: t) with (NL :: (repeat NL j ++ c :: t)).
    rewrite contains_cons, IH by lia.
    change (NL :: (repeat NL j ++ c :: t)) with (repeat NL (S j) ++ c :: t).
    by rewrite startswith_short_run by (done || lia).
Qed.

Lemma collapse_no_long_run s : forall run,
  contains (repeat NL 4) (collapse_newlines run s) = false.
Proof.
  induction s as [|c s IH]; intros run.
  - cbn [collapse_newlines]. unfold emit_run.
    destruct (Nat.leb_spec 4 run); [done|].
    destruct run as [|[|[|[|run]]]]; try done. lia.
  - cbn [collapse_newlines]. destruct (Ascii.eqb c NL) eqn:Hc; [apply IH|].
    unfold emit_run. apply contains_run_text; [done|apply IH|].
    destruct (Nat.leb_spec 4 run); lia.
Qed.

(** Without a run of four newlines there is nothing to collapse. *)
Lemma long_run_contains n t :
  4 <= n -> contains (repeat NL 4) (repeat NL n ++ t) = true.
Proof.
  intros Hn. replace n with (4 + (n - 4)) by lia.
  rewrite repeat_app, <- app_assoc.
  change (repeat NL 4 ++ ?x) with (NL :: NL :: NL :: NL :: x).
  rewrite contains_cons.
  by rewrite (startswith_app (repeat NL 4) (repeat NL (n - 4) ++ t)
              : startswith (repeat NL 4) (NL :: NL :: NL :: NL :: _) = true).
Qed.

Lemma repeat_snoc {A} (x : A) n : repeat x n ++ [x] = x :: repeat x n.
Proof. induction n as [|n IH]; [done|]. simpl. by rewrite IH. Qed.

Lemma collapse_short_runs s : forall run,
  contains (repeat NL 4) (repeat NL run ++ s) = false ->
  collapse_newlines run s = repeat NL run ++ s.
Proof.
  induction s as [|c s IH]; intros run H.
  - cbn [collapse_newlines]. unfold emit_run. rewrite app_nil_r.
    destruct (Nat.leb_spec 4 run) as [Hr|Hr]; [|done].
    by rewrite long_run_contains in H.
  - cbn [collapse_newlines]. destruct (Ascii.eqb_spec c NL) as [->|Hc].
    + rewrite IH.
      * cbn [repeat]. by rewrite <- repeat_snoc, <- app_assoc.
      * cbn [repeat]. by rewrite <- repeat_snoc, <- app_assoc.
    + unfold emit_run.
      destruct (Nat.leb_spec 4 run) as [Hr|Hr];
        [by rewrite long_run_contains in H|].
      rewrite (IH 0); [done|].
      destruct (contains (repeat NL 4) s) eqn:E; [|done].
      pose proof (contains_app_r _ (repeat NL run ++ [c]) s E) as E'.
      rewrite <- app_assoc in E'. cbn [app] in E'. by rewrite E' in H.
Qed.

(** *** Line ends *)
Lemma replace_crlf_other c s :
  Ascii.eqb c CR = false -> replace_crlf (c :: s) = c :: replace_crlf s.
Proof.
  intros H. destruct s as [|d s]; [done|].
  by rewrite replace_crlf_cons, H.
Qed.

Lemma replace_crlf_app l t :
  no_char CR l = true -> replace_crlf (l ++ t) = l ++ replace_crlf t.
Proof.
  induction l as [|c l IH]; [done|].
  intros [Hc Hl]%andb_true_iff. apply negb_true_iff in Hc.
  cbn [app]. by rewrite replace_crlf_other, IH.
Qed.

Lemma replace_crlf_no_cr s : no_char CR s = true -> replace_crlf s = s.
Proof.
  intros H. rewrite <- (app_nil_r s) at 1.
  rewrite replace_crlf_app by done. apply app_nil_r.
Qed.

Lemma replace_crlf_join lines :
  Forall (fun l => no_char CR l = true) lines ->
  replace_crlf (join [CR; NL] lines) = join [NL] lines.
Proof.
  induction 1 as [|l ls Hl _ IH]; [done|].
  destruct ls as [|l' ls]; [by apply replace_crlf_no_cr|].
  rewrite !join_cons, replace_crlf_app by done.
  cbn [app]. rewrite replace_crlf_cons. cbn [Ascii.eqb andb].
  change (Ascii.eqb CR CR && Ascii.eqb NL NL) with true. cbn match.
  by rewrite IH.
Qed.

Lemma no_char_app x s t : no_char x (s ++ t) = no_char x s && no_char x t.
Proof. apply forallb_app. Qed.

Lemma no_cr_join lines :
  Forall (fun l => no_char CR l = true) lines ->
  no_char CR (join [NL] lines) = true.
Proof.
  induction 1 as [|l ls Hl _ IH]; [done|].
  destruct ls as [|l' ls]; [done|].
  by rewrite join_cons, !no_char_app, Hl, IH.
Qed.

End PassProofs.

Import PassProofs.

(** X14.  The block pass changes nothing in a text none of whose lines,
    trimmed, starts with the block delimiter: delimiters inside a line are
    not block math. *)
Theorem block_pass_leaves_other_lines (text : str) :
  Forall (fun l => startswith (lit "$$") (strip l) = false) (split_nl text) ->
  _convert_block_math text = text.
Proof. apply block_pass_other. Qed.

Lemma block_pass_leaves_other_lines_witness :
  _convert_block_math (text_of [lit "a $$x$$ b"; []; lit "  pay $5  "])
  = text_of [lit "a $$x$$ b"; []; lit "  pay $5  "].
Proof.
  apply (block_pass_leaves_other_lines
           (text_of [lit "a $$x$$ b"; []; lit "  pay $5  "])).
  by repeat constructor.
Defined.

(** X15.  The inline pass changes nothing in a text whose lines each have
    at most one dollar sign: a lone dollar never opens a formula. *)
Theorem inline_pass_leaves_lone_dollars (text : str) :
  Forall (fun l => dollars l <= 1) (split_nl text) ->
  _convert_inline_math text = text.
Proof. apply inline_pass_lone. Qed.

Lemma inline_pass_leaves_lone_dollars_witness :
  _convert_inline_math (text_of [lit "pay $5 now"; lit "or $6 later"])
  = text_of [lit "pay $5 now"; lit "or $6 later"].
Proof.
  apply (inline_pass_leaves_lone_dollars
           (text_of [lit "pay $5 now"; lit "or $6 later"])).
  repeat constructor.
Defined.

(** X16.  Whatever the input, the result of [convert] has no white space
    at its ends and no run of four newlines. *)
Theorem convert_result_is_trimmed (x : str) :
  strip (convert x) = convert x
  /\ contains (repeat NL 4) (convert x) = false.
Proof.
  unfold convert. split.
  - apply strip_strip.
  - apply contains_strip, collapse_no_long_run.
Qed.

(** X17.  Line ends.  For lines without carriage return, [convert] gives
    the same result on the lines joined by carriage return and newline as
    on the lines joined by newline. *)
Theorem convert_ignores_crlf (lines : list str) :
  Forall (fun l => no_char CR l = true) lines ->
  convert (join [CR; NL] lines) = convert (join [NL] lines).
Proof.
  intros H. unfold convert.
  rewrite replace_crlf_join by done.
  by rewrite (replace_crlf_no_cr (join [NL] lines)) by (by apply no_cr_join).
Qed.

Lemma convert_ignores_crlf_witness :
  convert (join [CR; NL] [lit "# T"; lit "$$x$$"; lit "a $y$"])
  = convert (text_of [lit "# T"; lit "$$x$$"; lit "a $y$"]).
Proof.
  apply (convert_ignores_crlf [lit "# T"; lit "$$x$$"; lit "a $y$"]).
  by repeat constructor.
Defined.

(** X18.  A text without formulas.  When, line ends normalised, no line
    has more than one dollar sign, [convert] does nothing but normalise the
    line ends, cap the runs of newlines at three and trim the ends; so a
    text without carriage return that is trimmed and has no run of four
    newlines comes back unchanged. *)
Theorem convert_without_formulas (x : str) :
  Forall (fun l => dollars l <= 1) (split_nl (replace_crlf x)) ->
  convert x = strip (collapse_newlines 0 (replace_crlf x))
  /\ (no_char CR x = true -> strip x = x ->
      contains (repeat NL 4) x = false -> convert x = x).
Proof.
  intros H.
  assert (Hc : convert x = strip (collapse_newlines 0 (replace_crlf x))).
  { unfold convert.
    rewrite block_pass_other by (by apply lone_not_marker).
    by rewrite inline_pass_lone. }
  split; [exact Hc|].
  intros Hcr Hs Hrun. rewrite Hc, replace_crlf_no_cr by done.
  by rewrite (collapse_short_runs x 0).
Qed.

Lemma convert_without_formulas_witness :
  convert (text_of [lit "# Price"; []; lit "It costs $5."])
  = text_of [lit "# Price"; []; lit "It costs $5."].
Proof.
  apply (convert_without_formulas
           (text_of [lit "# Price"; []; lit "It costs $5."])).
  - repeat constructor.
  - reflexivity.
  - reflexivity.
  - reflexivity.
Defined.

(** * From the text of a file to its blocks *)

Module PipelineProofs.
Import NormalizeProofs SegmentProofs SpanProofs KindProofs PassProofs.

(** The canonical form of a formula is one equation block. *)
Lemma build_canonical f :
  formula_line f = true ->
  build_blocks (text_of [lit "$$"; f; lit "$$"]) = [equation_block f].
Proof.
  intros Hf.
  destruct (formula_line_inv f Hf) as (Hs & Hne & Hl & He & Hh & Hla & Hm).
  unfold build_blocks, text_of.
  rewrite split_nl_join by lines_ok.
  rewrite segment_cons. unfold build_step.
  change (strip (lit "$$")) with (lit "$$").
  change (truthy (lit "$$")) with true. rewrite str_eqb_refl. cbn [negb].
  change [f; lit "$$"] with ([f] ++ lit "$$" :: []).
  rewrite (collect_equation_closed [f] [] (lit "$$") []);
    [| simpl; lia | by repeat constructor; rewrite Hs | done].
  cbn [app join]. rewrite Hs. by apply enforce_one.
Qed.

Lemma convert_spellings f x :
  formula_line f = true ->
  In x [ text_of [lit "$$"; f; lit "$$"];
         text_of [lit "$$" ++ f ++ lit "$$"];
         text_of [lit "$$" ++ f; lit "$$"];
         text_of [lit "$$"; f ++ lit "$$"] ] ->
  convert x = text_of [lit "$$"; f; lit "$$"].
Proof.
  intros Hf Hx.
  pose proof (formula_line_one_line f Hf) as Hl.
  apply convert_of_canonical; [done|].
  destruct Hx as [<-|[<-|[<-|[<-|[]]]]].
  - rewrite replace_crlf_standard by done. by apply line_pass_standard.
  - rewrite replace_crlf_one_line.
    + by apply line_pass_single_line.
    + unfold text_of. cbn [join]. by rewrite !one_line_app, Hl.
  - rewrite replace_crlf_open_inline by done.
    by apply line_pass_open_inline.
  - rewrite replace_crlf_close_inline by done.
    by apply line_pass_close_inline.
Qed.

(** *** A sentence with one inline formula *)

Lemma text_head_facts s :
  text_head s = true ->
  head_ok s = true /\ ends_paragraph s = false
  /\ startswith (lit "$") s = false.
Proof.
  destruct s as [|c s]; [done|]. unfold text_head.
  change (lit "#-*$`>_[")
    with ["#"; "-"; "*"; "$"; "`"; ">"; "_"; "["]%char.
  cbn [existsb]. rewrite negb_true_iff, !orb_false_iff.
  intros [[Hsp Hd] (H1 & H2 & H3 & H4 & H5 & H6 & H7 & H8 & _)].
  split; [by simpl; rewrite Hsp|]. split.
  - unfold ends_paragraph, is_rule, num_match.
    cbn [span_class]. rewrite Hd. cbn [truthy negb].
    change (lit "#") with ["#"%char].
    change (lit "- ") with ("-"%char :: lit " ").
    change (lit "* ") with ("*"%char :: lit " ").
    change (lit "$$") with ("$"%char :: lit "$").
    change (lit "```") with ("`"%char :: lit "``").
    change (lit "> ") with (">"%char :: lit " ").
    change (lit "---") with ("-"%char :: lit "--").
    change (lit "***") with ("*"%char :: lit "**").
    change (lit "___") with ("_"%char :: lit "__").
    rewrite !startswith_cons, !str_eqb_cons.
    rewrite !(Ascii.eqb_sym _ c).
    by rewrite H1, H2, H3, H4, H5, H6, H7.
  - change (lit "$") with ["$"%char].
    by rewrite startswith_cons, (Ascii.eqb_sym _ c), H4.
Qed.

Lemma text_head_app s t : text_head s = true -> text_head (s ++ t) = true.
Proof. by destruct s. Qed.

Lemma contains_no_backtick s :
  no_char "`"%char s = true -> contains (lit "$`") s = false.
Proof.
  induction s as [|c s IH]; [done|].
  intros [Hc Hs]%andb_true_iff. apply negb_true_iff in Hc.
  rewrite contains_cons, IH by done.
  change (lit "$`") with ["$"%char; "`"%char].
  destruct s as [|d s]; [by rewrite startswith_cons, andb_false_r|].
  apply andb_true_iff in Hs as [Hd _]. apply negb_true_iff in Hd.
  rewrite !startswith_cons, (Ascii.eqb_sym _ d), Hd.
  by rewrite andb_false_r.
Qed.

Lemma plain_no_backtick s : plain_text s = true -> no_char "`"%char s = true.
Proof.
  induction s as [|c s IH]; [done|].
  intros [Hc Hs]%andb_true_iff. cbn [no_char forallb].
  fold (no_char "`"%char s). rewrite IH by done.
  unfold plain_char in Hc. rewrite negb_true_iff, !orb_false_iff in Hc.
  destruct Hc as [[-> _] _]. done.
Qed.

Lemma collapse_one_line s :
  one_line s = true -> collapse_newlines 0 s = s.
Proof.
  intros H. rewrite <- (app_nil_r s) at 1.
  rewrite collapse_line by done. apply app_nil_r.
Qed.

Lemma chunk_text_short s ann :
  length s <= MAX_TEXT_LENGTH -> length (_chunk_text s ann) <= 1.
Proof.
  intros H. destruct s as [|c s]; [simpl; lia|].
  unfold _chunk_text. cbn [length]. rewrite chunk_loop_cons.
  rewrite skipn_all2 by done. by destruct (length s).
Qed.

(** The line that the inline pass makes of a sentence with one formula,
    and what [build_blocks] makes of that line. *)
Lemma convert_sentence pre c post :
  text_head pre = true -> no_dollar pre = true -> one_line pre = true ->
  no_dollar c = true -> truthy c = true -> one_line c = true ->
  no_char "`"%char (pre ++ c ++ post) = true ->
  blank c || currency_like c = false ->
  no_dollar post = true -> one_line post = true ->
  negb (truthy post) || last_ok post = true ->
  convert (pre ++ lit "$" ++ c ++ lit "$" ++ post)
  = pre ++ (lit "$`" ++ c ++ lit "`$") ++ post.
Proof.
  intros Hh Hpre Hlpre Hc Htc Hlc Hbt Hkeep Hpost Hlpost Hend.
  set (line := pre ++ lit "$" ++ c ++ lit "$" ++ post).
  assert (Hspan : line = span_line pre [(c, post)]).
  { unfold span_line. cbn [map concat]. by rewrite app_nil_r. }
  assert (Hok : spans_ok [(c, post)] = true).
  { cbn [spans_ok]. by rewrite Hc, Htc, Hlc, Hpost, Hlpost, orb_true_r. }
  assert (Hline : one_line line = true).
  { rewrite Hspan. by apply span_line_one_line. }
  assert (Hbq : no_char "`"%char line = true).
  { subst line. rewrite !no_char_app in *.
    apply andb_true_iff in Hbt as [-> [-> ->]%andb_true_iff]. done. }
  unfold convert.
  rewrite replace_crlf_one_line by done.
  rewrite block_pass_other.
  2:{ rewrite split_nl_one_line by done. repeat constructor.
      destruct (text_head_facts line (text_head_app pre _ Hh))
        as (H1 & _ & H3).
      rewrite strip_ok; [|done|].
      - destruct line as [|a l]; [done|].
        change (lit "$") with ["$"%char] in H3.
        change (lit "$$") with ["$"%char; "$"%char].
        rewrite startswith_cons in *.
        rewrite startswith_nil, andb_true_r in H3. by rewrite H3.
      - subst line. rewrite !app_assoc.
        destruct post as [|z post]; [by rewrite app_nil_r, last_ok_app|].
        by apply last_ok_app. }
  rewrite convert_inline_one_line;
    [|done|rewrite Hspan; by apply spans_line_not_marker
     |by apply contains_no_backtick].
  unfold sub_inline_line. rewrite Hspan at 2.
  rewrite sub_inline_spans; [|done|done| |by rewrite <- Hspan].
  2:{ intros ->. done. }
  unfold rewritten_line. cbn [map concat]. rewrite Hkeep, app_nil_r.
  rewrite <- !app_assoc.
  set (line' := pre ++ lit "$`" ++ c ++ lit "`$" ++ post).
  assert (Hline' : one_line line' = true).
  { subst line'. by rewrite !one_line_app, Hlpre, Hlc, Hlpost. }
  rewrite collapse_one_line by done.
  apply strip_ok.
  - by destruct (text_head_facts line'
                   (text_head_app pre (lit "$`" ++ c ++ lit "`$" ++ post) Hh))
      as (H1 & _).
  - subst line'. rewrite !app_assoc.
    destruct post as [|z post]; [by rewrite app_nil_r, last_ok_app|].
    by apply last_ok_app.
Qed.

Lemma build_sentence pre c post :
  text_head pre = true -> plain_text pre = true -> one_line pre = true ->
  truthy c = true -> one_line c = true -> no_char "`"%char c = true ->
  plain_text post = true -> one_line post = true ->
  negb (truthy post) || last_ok post = true ->
  length pre <= MAX_TEXT_LENGTH -> length post <= MAX_TEXT_LENGTH ->
  build_blocks (pre ++ (lit "$`" ++ c ++ lit "`$") ++ post)
  = [rich_block "paragraph"
       (_chunk_text pre None ++ [EquationItem c] ++ _chunk_text post None)].
Proof.
  intros Hh Hpre Hlpre Htc Hlc Hbt Hpost Hlpost Hend Hn1 Hn2.
  set (line := pre ++ (lit "$`" ++ c ++ lit "`$") ++ post).
  assert (Hline : one_line line = true).
  { subst line. by rewrite !one_line_app, Hlpre, Hlc, Hlpost. }
  destruct (text_head_facts _ (text_head_app pre
              ((lit "$`" ++ c ++ lit "`$") ++ post) Hh)) as (H1 & H2 & _).
  fold line in H1, H2.
  assert (Hs : strip line = line).
  { apply strip_ok; [done|]. subst line. rewrite !app_assoc.
    destruct post as [|z post]; [by rewrite app_nil_r, last_ok_app|].
    by apply last_ok_app. }
  unfold build_blocks. rewrite split_nl_one_line by done.
  rewrite segment_cons, build_step_paragraph by (by rewrite Hs).
  cbn [collect_paragraph fst snd join]. rewrite Hs.
  unfold line. rewrite parse_equation_between by done.
  apply enforce_one. intros v Hv.
  unfold rich_block in Hv. cbn [inner] in Hv.
  rewrite lookup_singleton_eq in Hv. injection Hv as <-.
  cbn [attr_len]. rewrite !length_app. cbn [length].
  pose proof (chunk_text_short pre None Hn1).
  pose proof (chunk_text_short post None Hn2). lia.
Qed.

End PipelineProofs.

(** X19.  From a formula to its block.  For a document made of one block
    formula with a one-line body [f] (trimmed, not empty, not ending in the
    delimiter), in any of its four spellings, the blocks built from the
    converted text are one equation block whose expression is [f]: the
    blank lines that the conversion puts around the formula give no
    block. *)
Theorem formula_document_gives_equation (f x : str) :
  formula_line f = true ->
  In x [ text_of [lit "$$"; f; lit "$$"];
         text_of [lit "$$" ++ f ++ lit "$$"];
         text_of [lit "$$" ++ f; lit "$$"];
         text_of [lit "$$"; f ++ lit "$$"] ] ->
  build_blocks (convert x) = [equation_block f].
Proof.
  intros Hf Hx. rewrite (PipelineProofs.convert_spellings f x Hf Hx).
  by apply PipelineProofs.build_canonical.
Qed.

Lemma formula_document_gives_equation_witness :
  build_blocks (convert (lit "$$E = mc^2$$"))
  = [equation_block (lit "E = mc^2")].
Proof.
  apply (formula_document_gives_equation (lit "E = mc^2")
           (lit "$$E = mc^2$$") eq_refl).
  right. left. reflexivity.
Defined.

(** * The title of a file *)

Module TitleProofs.
Import KindProofs.

Lemma search_title_off s :
  search_title false s
  = match s with
    | [] => None
    | c :: s' => search_title (Ascii.eqb c NL) s'
    end.
Proof. by destruct s. Qed.

Lemma search_title_on s :
  search_title true s
  = match title_at s with
    | Some g => Some g
    | None => search_title false s
    end.
Proof. destruct s; cbn [search_title]; by destruct (title_at _). Qed.

(** Inside a line the search goes on to the next line. *)
Lemma search_rest_of_line l more :
  one_line l = true ->
  search_title false (l ++ NL :: more) = search_title true more.
Proof.
  induction l as [|c l IH]; [done|].
  intros [Hc Hl]%andb_true_iff. apply negb_true_iff in Hc.
  cbn [app]. rewrite search_title_off, Hc. by apply IH.
Qed.

Lemma search_last_line l :
  one_line l = true -> search_title false l = None.
Proof.
  induction l as [|c l IH]; [done|].
  intros [Hc Hl]%andb_true_iff. apply negb_true_iff in Hc.
  rewrite search_title_off, Hc. by apply IH.
Qed.

(** No match starts on a line that is not a title line. *)
Lemma title_at_other l more :
  title_line l = false ->
  negb (truthy more) || startswith [NL] more = true ->
  title_at (l ++ more) = None.
Proof.
  intros Hl Hm. destruct l as [|c r].
  - destruct more as [|m more]; [done|]. cbn [app title_at].
    cbn [truthy negb orb] in Hm. rewrite startswith_cons in Hm.
    apply andb_true_iff in Hm as [Hm _]. apply Ascii.eqb_eq in Hm as <-.
    done.
  - cbn [app title_at]. cbn [title_line] in Hl.
    destruct (Ascii.eqb c "#"%char); [|done]. cbn [andb] in Hl.
    destruct r as [|d r]; [done|]. cbn [app span_class]. by rewrite Hl.
Qed.

Lemma search_skip_line l more :
  one_line l = true -> title_line l = false ->
  search_title true (l ++ NL :: more) = search_title true more.
Proof.
  intros Hl Ht. rewrite search_title_on.
  rewrite title_at_other by (done || by rewrite startswith_cons).
  by apply search_rest_of_line.
Qed.

Lemma search_skip_lines pre s :
  Forall (fun l => one_line l = true /\ title_line l = false) pre ->
  search_title true (lines_text pre ++ s) = search_title true s.
Proof.
  induction 1 as [|l ls [Hl Ht] _ IH]; [done|].
  unfold lines_text. cbn [map concat]. rewrite <- !app_assoc. cbn [app].
  rewrite search_skip_line by done. exact IH.
Qed.

Lemma search_no_title lines :
  Forall (fun l => one_line l = true /\ title_line l = false) lines ->
  search_title true (join [NL] lines) = None.
Proof.
  induction 1 as [|l ls [Hl Ht] _ IH]; [done|].
  destruct ls as [|l' ls].
  - cbn [join]. rewrite search_title_on.
    rewrite <- (app_nil_r l) at 1. rewrite title_at_other by done.
    by apply search_last_line.
  - rewrite join_cons. cbn [app]. by rewrite search_skip_line.
Qed.

(** The group after the white space. *)
Lemma take_line_app t rest :
  one_line t = true -> negb (truthy rest) || startswith [NL] rest = true ->
  take_line (t ++ rest) = t.
Proof.
  intros Ht Hr. induction t as [|c t IH].
  - destruct rest as [|r rest]; [done|]. cbn [app take_line].
    cbn [truthy negb orb] in Hr. rewrite startswith_cons in Hr.
    apply andb_true_iff in Hr as [Hr _]. apply Ascii.eqb_eq in Hr as <-.
    done.
  - apply andb_true_iff in Ht as [Hc Ht]. apply negb_true_iff in Hc.
    cbn [app take_line]. by rewrite Hc, IH.
Qed.

Lemma title_at_heading ws t rest :
  truthy ws = true -> all_space ws = true ->
  head_ok t = true -> one_line t = true ->
  negb (truthy rest) || startswith [NL] rest = true ->
  title_at ("#"%char :: ws ++ t ++ rest) = Some t.
Proof.
  intros Hws Hsp Ht Hl Hr. cbn [title_at].
  change (Ascii.eqb "#"%char "#"%char) with true. cbn match.
  rewrite (span_class_run isspace ws (t ++ rest)); [|done|].
  2:{ destruct t as [|c t]; [done|]. exact Ht. }
  cbn [fst]. destruct (length ws) as [|n] eqn:En; [by destruct ws|].
  cbn [give_back]. rewrite <- En, drop_app_length.
  destruct t as [|c t]; [done|]. cbn [app].
  assert (Hc : Ascii.eqb c NL = false).
  { apply andb_true_iff in Hl as [Hc _]. by apply negb_true_iff in Hc. }
  rewrite Hc. f_equal. by apply (take_line_app (c :: t)).
Qed.

Lemma title_at_blank ws z :
  truthy ws = true -> all_space (ws ++ [z]) = true ->
  Ascii.eqb z NL = false ->
  title_at ("#"%char :: ws ++ [z]) = Some [z].
Proof.
  intros Hws Hsp Hz. cbn [title_at].
  change (Ascii.eqb "#"%char "#"%char) with true. cbn match.
  rewrite <- (app_nil_r (ws ++ [z])) at 1.
  rewrite (span_class_run isspace (ws ++ [z]) []) by done.
  cbn [fst].
  replace (length (ws ++ [z])) with (S (length ws))
    by (rewrite length_app; simpl; lia).
  cbn [give_back].
  rewrite skipn_all2 by (rewrite length_app; simpl; lia).
  destruct (length ws) as [|n] eqn:En; [by destruct ws|].
  cbn [give_back]. rewrite <- En, drop_app_length.
  rewrite Hz. cbn [take_line]. by rewrite Hz.
Qed.

End TitleProofs.

(** X21.  The title.  After lines on which the title pattern cannot
    start, a hash, white space and a text [t] that runs to the end of its
    line: [_extract_title] returns [t] trimmed, whatever the fallback.  The
    white space may hold newlines: after a line made of a hash alone the
    next line with text is taken as the title. *)
Theorem title_is_first_heading
    (pre : list str) (ws t rest stem : str) :
  Forall (fun l => one_line l = true /\ title_line l = false) pre ->
  truthy ws = true -> all_space ws = true ->
  head_ok t = true -> one_line t = true ->
  negb (truthy rest) || startswith [NL] rest = true ->
  _extract_title (lines_text pre ++ "#"%char :: ws ++ t ++ rest) stem
  = strip t.
Proof.
  intros Hpre Hws Hsp Ht Hl Hr. unfold _extract_title.
  rewrite TitleProofs.search_skip_lines by done.
  rewrite TitleProofs.search_title_on.
  by rewrite TitleProofs.title_at_heading.
Qed.

Lemma title_is_first_heading_witness :
  _extract_title
    (text_of [lit "intro"; lit "## Part"; lit "#  The title  ";
              lit "# Other"])
    (lit "notes")
  = lit "The title"
  /\ _extract_title (text_of [lit "#"; []; lit "body text"]) (lit "notes")
     = lit "body text".
Proof.
  split.
  - exact (title_is_first_heading [lit "intro"; lit "## Part"]
             (lit "  ") (lit "The title  ") (NL :: lit "# Other")
             (lit "notes")
             ltac:(by repeat constructor)
             eq_refl eq_refl eq_refl eq_refl eq_refl).
  - exact (title_is_first_heading [] [NL; NL] (lit "body text") []
             (lit "notes") ltac:(by repeat constructor)
             eq_refl eq_refl eq_refl eq_refl eq_refl).
Defined.

(** X22.  No title.  When no line is a hash followed by white space or by
    the end of the line, [_extract_title] returns the stem of the file
    name; lines that start with two hashes, or with a hash and a letter,
    are no titles. *)
Theorem title_falls_back_to_stem (lines : list str) (stem : str) :
  Forall (fun l => one_line l = true /\ title_line l = false) lines ->
  _extract_title (text_of lines) stem = stem.
Proof.
  intros H. unfold _extract_title, text_of.
  by rewrite TitleProofs.search_no_title.
Qed.

Lemma title_falls_back_to_stem_witness :
  _extract_title (text_of [lit "## Part"; lit "#tag"; lit " # in"; lit "x"])
    (lit "notes")
  = lit "notes".
Proof.
  apply (title_falls_back_to_stem
           [lit "## Part"; lit "#tag"; lit " # in"; lit "x"] (lit "notes")).
  by repeat constructor.
Defined.

(** X23.  A blank title.  When the text ends, after lines on which the
    title pattern cannot start, with a hash followed by two or more
    white-space characters, the last of them not a newline,
    [_extract_title] returns the empty string and not the stem of the file
    name: the pattern matches with the last character of white space given
    back to the group. *)
Theorem title_of_blank_heading_is_empty
    (pre : list str) (ws : str) (z : ascii) (stem : str) :
  Forall (fun l => one_line l = true /\ title_line l = false) pre ->
  truthy ws = true -> all_space (ws ++ [z]) = true ->
  Ascii.eqb z NL = false ->
  _extract_title (lines_text pre ++ "#"%char :: ws ++ [z]) stem = [].
Proof.
  intros Hpre Hws Hsp Hz. unfold _extract_title.
  rewrite TitleProofs.search_skip_lines by done.
  rewrite TitleProofs.search_title_on.
  rewrite TitleProofs.title_at_blank by done.
  apply KindProofs.strip_all_space.
  rewrite <- StrFacts.all_space_rev in Hsp.
  rewrite rev_app_distr in Hsp. cbn [rev app all_space forallb] in Hsp.
  apply andb_true_iff in Hsp as [Hz' _].
  unfold all_space. cbn [forallb]. by rewrite Hz'.
Qed.

Lemma title_of_blank_heading_is_empty_witness :
  _extract_title (text_of [lit "text"; lit "#  "]) (lit "notes") = [].
Proof.
  exact (title_of_blank_heading_is_empty [lit "text"] (lit " ") " "%char
           (lit "notes") ltac:(by repeat constructor)
           eq_refl eq_refl eq_refl).
Defined.

(** * The requests of the delivery engine *)

Module DeliveryProofs.
Import EnforceProofs.

Section Engine.

Variable remote : Type.
Variable requests : remote -> request -> response * remote.

Abbreviation retry_each := (retry_each remote requests).
Abbreviation _append_blocks := (_append_blocks remote requests).
Abbreviation append_remaining := (append_remaining remote requests).
Abbreviation create_page := (create_page remote requests).

(** The functions of the client, with the binds carried out. *)
Lemma retry_each_cons page_id b blocks s :
  retry_each page_id (b :: blocks) s
  = let '(resp, s1) := requests s (PatchChildren page_id [b]) in
    let '(_, s2, evs) := retry_each page_id blocks s1 in
    (tt, s2,
     Call (PatchChildren page_id [b]) resp
     :: (if ok resp then Sleep 150 else Log ERROR) :: evs).
Proof.
  cbn [NotionClient.retry_each]. unfold bind, send, log, sleep.
  destruct (requests s (PatchChildren page_id [b])) as [resp s1].
  destruct (ok resp); cbn [negb];
    by destruct (retry_each page_id blocks s1) as [[[] s2] evs].
Qed.

Lemma append_blocks_eq page_id blocks s :
  _append_blocks page_id blocks s
  = let '(resp, s1) := requests s (PatchChildren page_id blocks) in
    if ok resp then (tt, s1, [Call (PatchChildren page_id blocks) resp])
    else
      let '(_, s2, evs) := retry_each page_id blocks s1 in
      (tt, s2,
       Call (PatchChildren page_id blocks) resp :: Log WARNING :: evs).
Proof.
  unfold NotionClient._append_blocks, bind, send, log, ret.
  destruct (requests s (PatchChildren page_id blocks)) as [resp s1].
  destruct (ok resp); [done|].
  by destruct (retry_each page_id blocks s1) as [[[] s2] evs].
Qed.

Lemma append_remaining_cons fuel page_id b remaining s :
  append_remaining (S fuel) page_id (b :: remaining) s
  = let '(_, s1, e1) :=
      _append_blocks page_id (firstn 100 (b :: remaining)) s in
    let '(_, s2, e2) :=
      append_remaining fuel page_id (skipn 100 (b :: remaining)) s1 in
    (tt, s2, e1 ++ Sleep 350 :: e2).
Proof.
  cbn [NotionClient.append_remaining]. unfold bind, sleep.
  destruct (_append_blocks page_id (firstn 100 (b :: remaining)) s)
    as [[[] s1] e1].
  by destruct (append_remaining fuel page_id (skipn 100 (b :: remaining)) s1)
    as [[[] s2] e2].
Qed.

Lemma create_page_eq title blocks parent s :
  create_page title blocks parent s
  = let '(r1, s1) :=
      requests s (PostPage title parent (firstn 100 blocks)) in
    if ok r1 then
      let '(_, s2, evs) :=
        append_remaining (length (skipn 100 blocks)) (json_id r1)
          (skipn 100 blocks) s1 in
      (Some r1, s2,
       Call (PostPage title parent (firstn 100 blocks)) r1 :: evs)
    else
      let '(r2, s2) := requests s1 (PostPage title parent []) in
      if ok r2 then
        let '(_, s3, evs) :=
          append_remaining (length blocks) (json_id r2) blocks s2 in
        (Some r2, s3,
         Call (PostPage title parent (firstn 100 blocks)) r1
         :: Log WARNING :: Call (PostPage title parent []) r2 :: evs)
      else
        (None, s2,
         [ Call (PostPage title parent (firstn 100 blocks)) r1; Log WARNING;
           Call (PostPage title parent []) r2; Log ERROR ]).
Proof.
  unfold NotionClient.create_page, bind, send, log, ret.
  destruct (requests s (PostPage title parent (firstn 100 blocks)))
    as [r1 s1].
  destruct (ok r1); cbn [negb].
  - destruct (append_remaining _ _ _ s1) as [[[] s2] evs].
    by rewrite app_nil_r.
  - destruct (requests s1 (PostPage title parent [])) as [r2 s2].
    destruct (ok r2); cbn [negb]; [|done].
    destruct (append_remaining _ _ _ s2) as [[[] s3] evs].
    by rewrite app_nil_r.
Qed.

(** *** The retry loop *)
Lemma retry_each_trace page_id blocks : forall s,
  exists answers s',
    map fst answers = blocks
    /\ retry_each page_id blocks s = (tt, s', retry_trace page_id answers).
Proof.
  induction blocks as [|b blocks IH]; intros s.
  - by exists [], s.
  - rewrite retry_each_cons.
    destruct (requests s (PatchChildren page_id [b])) as [resp s1].
    destruct (IH s1) as (answers & s' & Hm & ->).
    exists ((b, resp) :: answers), s'. split; [by rewrite <- Hm|done].
Qed.

(** *** What holds of every event *)
Section Invariant.

Variable P : event -> Prop.
Variable page_id : str.
Hypothesis P_patch : forall children resp,
  length children <= 100 -> P (Call (PatchChildren page_id children) resp).
Hypothesis P_other : forall e,
  match e with Call _ _ => False | _ => True end -> P e.

Lemma retry_trace_all answers : Forall P (retry_trace page_id answers).
Proof.
  induction answers as [|[b resp] answers IH]; [constructor|].
  unfold retry_trace. cbn [flat_map app].
  constructor; [apply P_patch; simpl; lia|].
  constructor; [by apply P_other; destruct (ok resp)|exact IH].
Qed.

Lemma append_blocks_all blocks s :
  length blocks <= 100 -> Forall P (_append_blocks page_id blocks s).2.
Proof.
  intros Hlen. rewrite append_blocks_eq.
  destruct (requests s (PatchChildren page_id blocks)) as [resp s1].
  destruct (ok resp).
  - repeat constructor. by apply P_patch.
  - destruct (retry_each_trace page_id blocks s1) as (answers & s' & _ & ->).
    cbn [snd]. constructor; [by apply P_patch|].
    constructor; [by apply P_other|]. apply retry_trace_all.
Qed.

Lemma append_remaining_all fuel : forall remaining s,
  Forall P (append_remaining fuel page_id remaining s).2.
Proof.
  induction fuel as [|fuel IH]; intros remaining s; [constructor|].
  destruct remaining as [|b remaining]; [constructor|].
  rewrite append_remaining_cons.
  pose proof (append_blocks_all (firstn 100 (b :: remaining)) s) as H1.
  destruct (_append_blocks page_id (firstn 100 (b :: remaining)) s)
    as [[[] s1] e1].
  specialize (IH (skipn 100 (b :: remaining)) s1).
  destruct (append_remaining fuel page_id (skipn 100 (b :: remaining)) s1)
    as [[[] s2] e2].
  cbn [snd] in *. apply Forall_app. split.
  - apply H1. rewrite length_take. lia.
  - constructor; [by apply P_other|exact IH].
Qed.

End Invariant.

(** *** When every request is accepted *)
Lemma append_remaining_accepted page_id fuel : forall remaining s,
  (forall s req, ok (requests s req).1 = true) ->
  length remaining <= fuel ->
  exists s' evs,
    append_remaining fuel page_id remaining s = (tt, s', evs)
    /\ calls evs
       = map (fun k => PatchChildren page_id
                         (firstn 100 (skipn (k * 100) remaining)))
             (seq 0 (ceil_div (length remaining) 100))
    /\ existsb is_log evs = false
    /\ length (List.filter is_sleep evs)
       = ceil_div (length remaining) 100.
Proof.
  induction fuel as [|fuel IH]; intros remaining s Hacc Hf.
  - destruct remaining; [|simpl in Hf; lia].
    exists s, []. by rewrite ceil_div_0 by lia.
  - destruct remaining as [|b remaining].
    { exists s, []. by rewrite ceil_div_0 by lia. }
    rewrite append_remaining_cons, append_blocks_eq.
    pose proof (Hacc s (PatchChildren page_id (firstn 100 (b :: remaining))))
      as Hok.
    destruct (requests s _) as [resp s1]. cbn [fst] in Hok. rewrite Hok.
    destruct (IH (skipn 100 (b :: remaining)) s1 Hacc)
      as (s' & evs & -> & Hc & Hl & Hs).
    { rewrite length_drop. cbn [length] in *. lia. }
    exists s', (Call (PatchChildren page_id (firstn 100 (b :: remaining))) resp
                :: Sleep 350 :: evs).
    split; [done|].
    rewrite (ceil_div_step (length (b :: remaining)) 100)
      by (cbn [length]; lia).
    rewrite length_drop in Hc, Hs.
    split; [|split].
    + rewrite <- cons_seq, <- seq_shift, map_cons, map_map.
      change (calls (?e :: Sleep 350 :: evs))
        with (PatchChildren page_id (firstn 100 (b :: remaining))
              :: calls evs).
      rewrite Hc. f_equal. apply map_ext. intros k.
      by rewrite drop_drop.
    + exact Hl.
    + cbn [List.filter is_sleep length]. by rewrite Hs.
Qed.

End Engine.

End DeliveryProofs.

(** X24.  Whatever the remote system answers, every request of
    [create_page], creation or append, batch or single, carries at most
    [MAX_BLOCKS_PER_REQUEST] blocks. *)
Theorem requests_carry_at_most_100_blocks
    (remote : Type) (requests : remote -> request -> response * remote)
    (title parent : str) (blocks : list block) (s : remote) :
  Forall (fun e => length (event_children e) <= MAX_BLOCKS_PER_REQUEST)
         (create_page remote requests title blocks parent s).2.
Proof.
  unfold MAX_BLOCKS_PER_REQUEST.
  assert (Hloop : forall fuel page_id remaining s1,
             Forall (fun e => length (event_children e) <= 100)
               (append_remaining remote requests fuel page_id remaining s1).2).
  { intros fuel page_id remaining s1.
    apply DeliveryProofs.append_remaining_all.
    - intros children resp H. exact H.
    - intros [req resp| |] H; [done|simpl; lia..]. }
  assert (Hfirst : length (firstn 100 blocks) <= 100)
    by (rewrite length_take; lia).
  rewrite DeliveryProofs.create_page_eq.
  destruct (requests s _) as [r1 s1]. destruct (ok r1).
  - specialize (Hloop (length (skipn 100 blocks)) (json_id r1)
                  (skipn 100 blocks) s1).
    destruct (append_remaining _ _ _ _ _ s1) as [[[] s2] evs].
    by constructor.
  - destruct (requests s1 _) as [r2 s2]. destruct (ok r2).
    + specialize (Hloop (length blocks) (json_id r2) blocks s2).
      destruct (append_remaining _ _ _ _ _ s2) as [[[] s3] evs].
      repeat (constructor; [done || simpl; lia|]). exact Hloop.
    + repeat (constructor; [done || simpl; lia|]). constructor.
Qed.

(** X25.  The result of [create_page].  When it returns a response, that
    response was accepted, every append request went to the page it names,
    and every block was sent in the body of some request, whatever the
    answers to the appends were; when it returns nothing, the only
    requests made were the two creations and no block was appended. *)
Theorem create_page_result
    (remote : Type) (requests : remote -> request -> response * remote)
    (title parent : str) (blocks : list block) (s s' : remote)
    (result : option response) (evs : list event) :
  create_page remote requests title blocks parent s = (result, s', evs) ->
  match result with
  | Some resp =>
      ok resp = true
      /\ Forall (fun e => appends_to (json_id resp) e = true) evs
      /\ (forall b, In b blocks ->
            exists e, In e evs /\ In b (event_children e))
  | None =>
      existsb is_patch evs = false
      /\ calls evs = [ PostPage title parent (firstn 100 blocks);
                       PostPage title parent [] ]
  end.
Proof.
  assert (Hloop : forall fuel page_id remaining s1,
             Forall (fun e => appends_to page_id e = true)
               (append_remaining remote requests fuel page_id remaining s1).2).
  { intros fuel page_id remaining s1.
    apply DeliveryProofs.append_remaining_all.
    - intros children resp _. apply str_eqb_refl.
    - by intros [req resp| |] H. }
  assert (Hcov : forall page_id remaining s1 b, In b remaining ->
             exists e,
               In e (append_remaining remote requests (length remaining)
                       page_id remaining s1).2
               /\ In b (event_children e)).
  { intros page_id remaining s1 b Hb.
    destruct (ClientProofs.append_remaining_covers remote requests
                (length remaining) page_id remaining s1 b)
      as (children & resp & Hin & Hc); [lia|done|].
    by exists (Call (PatchChildren page_id children) resp). }
  rewrite DeliveryProofs.create_page_eq.
  destruct (requests s _) as [r1 s1]. destruct (ok r1) eqn:E1.
  - specialize (Hloop (length (skipn 100 blocks)) (json_id r1)
                  (skipn 100 blocks) s1).
    specialize (Hcov (json_id r1) (skipn 100 blocks) s1).
    destruct (append_remaining _ _ _ _ _ s1) as [[[] s2] e].
    intros [= <- <- <-]. cbn [snd] in *.
    split; [done|]. split; [by constructor|].
    intros b Hb. rewrite <- (firstn_skipn 100 blocks) in Hb.
    apply in_app_or in Hb as [Hb|Hb].
    + eexists. split; [by left|]. exact Hb.
    + destruct (Hcov b Hb) as (e0 & Hin & Hc).
      exists e0. split; [by right|done].
  - destruct (requests s1 _) as [r2 s2]. destruct (ok r2) eqn:E2.
    + specialize (Hloop (length blocks) (json_id r2) blocks s2).
      specialize (Hcov (json_id r2) blocks s2).
      destruct (append_remaining _ _ _ _ _ s2) as [[[] s3] e].
      intros [= <- <- <-]. cbn [snd] in *.
      split; [done|]. split; [by repeat constructor|].
      intros b Hb. destruct (Hcov b Hb) as (e0 & Hin & Hc).
      exists e0. split; [by do 3 right|done].
    + by intros [= <- <- <-].
Qed.

Lemma create_page_result_witness :
  existsb is_patch
    (create_page nat refuse_all (lit "T") [divider_block] (lit "P") 0).2
  = false
  /\ Forall (fun e => appends_to (lit "page-1") e = true)
       (create_page nat refuse_first (lit "T") [divider_block] (lit "P") 0).2.
Proof.
  split.
  - exact (proj1 (create_page_result nat refuse_all (lit "T") (lit "P")
                    [divider_block] 0 _ None _ eq_refl)).
  - exact (proj1 (proj2 (create_page_result nat refuse_first (lit "T")
                           (lit "P") [divider_block] 0 _
                           (Some (Response 200 (lit "page-1"))) _ eq_refl))).
Defined.

(** X27.  [_append_blocks].  When the batch is accepted it is the only
    request.  When it is refused, a warning is logged and every block of
    the batch is sent again alone, in order, whatever the answers: each
    single request is followed by a pause when it was accepted and by an
    error entry when it was not, and the loop goes on. *)
Theorem append_blocks_retries_every_block
    (remote : Type) (requests : remote -> request -> response * remote)
    (page_id : str) (blocks : list block) (s s1 : remote) (resp : response) :
  requests s (PatchChildren page_id blocks) = (resp, s1) ->
  (ok resp = true ->
   _append_blocks remote requests page_id blocks s
   = (tt, s1, [Call (PatchChildren page_id blocks) resp]))
  /\ (ok resp = false ->
      exists answers s',
        map fst answers = blocks
        /\ _append_blocks remote requests page_id blocks s
           = (tt, s',
              Call (PatchChildren page_id blocks) resp :: Log WARNING
              :: retry_trace page_id answers)).
Proof.
  intros Hreq. rewrite DeliveryProofs.append_blocks_eq, Hreq.
  split; intros ->; [done|].
  destruct (DeliveryProofs.retry_each_trace remote requests page_id blocks s1)
    as (answers & s' & Hm & ->).
  by exists answers, s'.
Qed.

Lemma append_blocks_retries_every_block_witness :
  exists answers s',
    map fst answers = [divider_block; equation_block (lit "x")]
    /\ _append_blocks nat refuse_first (lit "p")
         [divider_block; equation_block (lit "x")] 0
       = (tt, s',
          Call (PatchChildren (lit "p")
                  [divider_block; equation_block (lit "x")])
            (Response 400 (lit "page-1"))
          :: Log WARNING :: retry_trace (lit "p") answers).
Proof.
  exact (proj2 (append_blocks_retries_every_block nat refuse_first (lit "p")
                  [divider_block; equation_block (lit "x")] 0 1
                  (Response 400 (lit "page-1")) eq_refl) eq_refl).
Defined.

(** * The batch *)

Module BatchProofs.

Section Batch.

Variable remote : Type.
Variable requests : remote -> request -> response * remote.
Variable path : Type.
Variable path_str : path -> str.
Variable path_stem : path -> str.
Variable read_text : path -> str.
Variable json_url : response -> str.
Variable client : bool.
Variable parent_page_id : option str.

Abbreviation process_file :=
  (process_file remote requests path path_str path_stem read_text json_url
     client parent_page_id).
Abbreviation process_loop :=
  (process_loop remote requests path path_str path_stem read_text json_url
     client parent_page_id).

Abbreviation uploads upload :=
  (upload && client
   && match parent_page_id with Some p => truthy p | None => false end).

Lemma filter_wait_client (evs : list event) :
  List.filter is_wait (map OfClient evs) = [].
Proof. by induction evs. Qed.

Lemma process_file_spec filepath upload s :
  file (process_file filepath upload s).1.1 = path_str filepath
  /\ List.filter is_wait (process_file filepath upload s).2 = []
  /\ (uploads upload = false ->
      existsb of_client (process_file filepath upload s).2 = false).
Proof.
  unfold BatchProcessor.process_file.
  destruct parent_page_id as [parent|]; [|by rewrite andb_false_r].
  destruct (upload && client && truthy parent); [|done].
  destruct (create_page _ _ _ _ _ s) as [[[data|] s'] evs]; cbn.
  all: rewrite List.filter_app, filter_wait_client; done.
Qed.

Lemma process_loop_spec total filepaths upload : forall idx s,
  idx + length filepaths = S total ->
  map file (process_loop total idx filepaths upload s).1.1
  = map path_str filepaths
  /\ length (List.filter is_wait
               (process_loop total idx filepaths upload s).2)
     = (if upload then length filepaths - 1 else 0)
  /\ (uploads upload = false ->
      existsb of_client (process_loop total idx filepaths upload s).2
      = false).
Proof.
  induction filepaths as [|fp filepaths IH]; intros idx s Hidx.
  - cbn. by destruct upload.
  - cbn [BatchProcessor.process_loop].
    destruct (process_file_spec fp upload s) as (Hf & Hw & Hc).
    destruct (process_file fp upload s) as [[result s1] e1].
    destruct (IH (S idx) s1) as (IHf & IHw & IHc);
      [cbn [length] in Hidx; lia|].
    destruct (process_loop total (S idx) filepaths upload s1)
      as [[results s2] e2].
    cbn [fst snd] in *. split; [|split].
    + cbn [map]. by rewrite Hf, IHf.
    + cbn [List.filter is_wait]. rewrite !List.filter_app, Hw, !length_app.
      rewrite IHw. cbn [length] in *.
      destruct upload; cbn [andb].
      * destruct (Nat.ltb_spec idx total); cbn; lia.
      * done.
    + intros Hu. cbn [existsb of_client]. rewrite !existsb_app.
      rewrite Hc, IHc by done.
      by destruct (upload && (idx <? total)).
Qed.

End Batch.

End BatchProofs.

Module ContextProofs.
Import NormalizeProofs SegmentProofs EnforceProofs PassProofs.

(** The block pass copies the lines before block math. *)
Lemma block_math_loop_prefix pre : forall fuel rest,
  Forall (fun l => startswith (lit "$$") (strip l) = false) pre ->
  length (pre ++ rest) <= fuel ->
  block_math_loop fuel (pre ++ rest)
  = pre ++ block_math_loop (length rest) rest.
Proof.
  induction pre as [|l pre IH]; intros fuel rest H Hf.
  - apply block_math_loop_fuel; simpl in *; lia.
  - destruct fuel as [|fuel]; [simpl in Hf; lia|].
    inversion H as [|? ? Hl Hpre]; subst.
    cbn [app block_math_loop]. unfold block_math_step. rewrite Hl.
    cbn [app]. rewrite IH; [done|done|simpl in Hf; lia].
Qed.

(** The type of the block of one turn of the loop. *)
Lemma build_step_type line rest b rest' :
  build_step line rest = (Some b, rest') -> In (btype b) block_types.
Proof.
  unfold build_step, block_types. intros H.
  repeat case_match; simplify_eq; cbn [btype rich_block equation_block
    code_block divider_block]; try (simpl; tauto).
  match goal with
  | H : header_match _ = Some (?n, _) |- _ =>
      destruct n as [|[|[|n]]]; simpl; tauto
  end.
Qed.

Lemma segment_loop_types fuel : forall lines,
  Forall (fun b => In (btype b) block_types) (segment_loop fuel lines).
Proof.
  induction fuel as [|fuel IH]; intros lines; [constructor|].
  destruct lines as [|line rest]; [constructor|]. cbn [segment_loop].
  destruct (build_step line rest) as [[b|] rest'] eqn:E; [|apply IH].
  constructor; [by eapply build_step_type|apply IH].
Qed.

End ContextProofs.

(** X29.  A formula between other lines.  When the lines before and
    after a one-line block formula do not start, trimmed, with the block
    delimiter, the block pass keeps them as they are, in order, and puts
    the canonical form in the place of the formula: an empty line, the
    delimiter, the trimmed body, the delimiter, an empty line. *)
Theorem block_pass_between_lines (pre post : list str) (f : str) :
  Forall (fun l => one_line l = true
                   /\ startswith (lit "$$") (strip l) = false) pre ->
  Forall (fun l => one_line l = true
                   /\ startswith (lit "$$") (strip l) = false) post ->
  formula_body f = true ->
  _convert_block_math
    (text_of (pre ++ [lit "$$" ++ f ++ lit "$$"] ++ post))
  = text_of (pre ++ wrapped (strip f) ++ post).
Proof.
  intros Hpre Hpost Hf.
  apply Forall_and in Hpre as [Hpre1 Hpre2].
  apply Forall_and in Hpost as [Hpost1 Hpost2].
  pose proof (NormalizeProofs.formula_body_one_line f Hf) as Hl.
  set (x := lit "$$" ++ f ++ lit "$$").
  assert (Hx : one_line x = true).
  { subst x. by rewrite !NormalizeProofs.one_line_app, Hl. }
  assert (Hlines : split_nl (text_of (pre ++ [x] ++ post))
                   = pre ++ [x] ++ post).
  { unfold text_of. destruct pre as [|l pre].
    - apply split_nl_join. by constructor.
    - apply split_nl_join. inversion Hpre1; subst.
      constructor; [done|]. apply Forall_app. split; [done|by constructor]. }
  unfold _convert_block_math. rewrite Hlines.
  rewrite ContextProofs.block_math_loop_prefix by done.
  cbn [app length block_math_loop].
  subst x. rewrite NormalizeProofs.step_single_line by done.
  by rewrite PassProofs.block_math_loop_other.
Qed.

Lemma block_pass_between_lines_witness :
  _convert_block_math (text_of [lit "a"; lit "$$ f $$"; lit "b"])
  = text_of [lit "a"; []; lit "$$"; lit "f"; lit "$$"; []; lit "b"].
Proof.
  apply (block_pass_between_lines [lit "a"] [lit "b"] (lit " f ")).
  - by repeat constructor.
  - by repeat constructor.
  - reflexivity.
Defined.

(** X30.  Every block of [build_blocks], whatever the text, has one of
    ten types: equation, paragraph, code, divider, heading of level 1, 2
    or 3, quote, bulleted item, numbered item. *)
Theorem build_blocks_known_types (text : str) :
  Forall (fun b => In (btype b) block_types) (build_blocks text).
Proof.
  unfold build_blocks, enforce.
  pose proof (ContextProofs.segment_loop_types
                (length (split_nl text)) (split_nl text)) as H.
  fold (segment (split_nl text)) in H.
  induction H as [|b bs Hb _ IH]; [constructor|].
  cbn [flat_map]. apply Forall_app. split; [|exact IH].
  apply List.Forall_forall. intros c Hc.
  destruct (EnforceProofs.split_other_keys b c "language" Hc) as [-> _];
    done.
Qed.

(** * The size enforcer, unit by unit *)

Module EnforcerProofs.
Import EnforceProofs.

(** What the closing loop of [build_blocks] makes of one tagged unit. *)
Lemma split_cases (u : block) :
  btype u <> ""%string ->
  _split_block_if_needed u
  = match inner u !! "rich_text"%string with
    | Some v =>
        if 100 <? attr_len v then
          map (fun k => Block (btype u)
                 (<["rich_text"%string := attr_slice (k * 100) 100 v]>
                    (inner u)))
              (seq 0 (ceil_div (attr_len v) 100))
        else [u]
    | None => [u]
    end.
Proof.
  intros Ht. destruct (inner u !! "rich_text"%string) as [v|] eqn:E.
  - destruct (Nat.ltb_spec 100 (attr_len v)) as [Hlt|Hle].
    + by apply split_clones.
    + apply split_within. intros v' Hv'. rewrite E in Hv'.
      by injection Hv' as <-.
  - apply split_within. intros v' Hv'. by rewrite E in Hv'.
Qed.

Lemma enforce_singleton (u : block) : enforce [u] = _split_block_if_needed u.
Proof. unfold enforce. cbn [flat_map]. apply app_nil_r. Qed.

Lemma enforce_cons (u : block) (us : list block) :
  enforce (u :: us) = enforce [u] ++ enforce us.
Proof. by rewrite enforce_singleton. Qed.

End EnforcerProofs.

(** C6.  The size enforcer ([enforce], the closing loop of [build_blocks]
    over [_split_block_if_needed]) is idempotent; after one application the
    rich-text list of every tagged unit has at most 100 elements (and so has
    every block of [build_blocks], whatever the text).  It works unit by
    unit and keeps the order: the result for a list of units is the results
    for its units put end to end.  A tagged unit with more than 100
    elements is replaced by [ceil(count/100)] units of the same tag that
    carry the consecutive 100-element slices of its list, in order, the
    slices put end to end being the list, with every other entry of the
    inner dict (such as the language of a code block) on every clone; a
    unit within the limit comes back alone and unchanged.  The same is
    stated of [_split_block_if_needed], which the loop calls. *)
Theorem enforce_idempotent_bounded_slicing :
  (forall units, enforce (enforce units) = enforce units)
  /\ (forall units b v,
        Forall (fun u => btype u <> ""%string) units ->
        In b (enforce units) ->
        inner b !! "rich_text"%string = Some v -> attr_len v <= 100)
  /\ (forall text b v,
        In b (build_blocks text) ->
        inner b !! "rich_text"%string = Some v -> attr_len v <= 100)
  /\ (forall b rt,
        btype b <> ""%string ->
        inner b !! "rich_text"%string = Some (ARichText rt) ->
        100 < length rt ->
        let slices :=
          map (fun k => firstn 100 (skipn (k * 100) rt))
              (seq 0 (ceil_div (length rt) 100)) in
        _split_block_if_needed b
        = map (fun sl => Block (btype b)
                 (<["rich_text"%string := ARichText sl]> (inner b))) slices
        /\ length (_split_block_if_needed b)
           = ceil_div (length rt) 100
        /\ concat slices = rt
        /\ Forall (fun sl => length sl <= 100) slices)
  /\ (forall b c k,
        In c (_split_block_if_needed b) -> k <> "rich_text"%string ->
        btype c = btype b /\ inner c !! k = inner b !! k)
  /\ (forall b,
        (forall v, inner b !! "rich_text"%string = Some v ->
                   attr_len v <= 100) ->
        _split_block_if_needed b = [b])
  /\ (forall us1 us2, enforce (us1 ++ us2) = enforce us1 ++ enforce us2)
  /\ enforce [] = []
  /\ (forall u us, enforce (u :: us) = enforce [u] ++ enforce us)
  /\ (forall b,
        (forall v, inner b !! "rich_text"%string = Some v ->
                   attr_len v <= 100) ->
        enforce [b] = [b])
  /\ (forall b rt,
        btype b <> ""%string ->
        inner b !! "rich_text"%string = Some (ARichText rt) ->
        100 < length rt ->
        let slices :=
          map (fun k => firstn 100 (skipn (k * 100) rt))
              (seq 0 (ceil_div (length rt) 100)) in
        enforce [b]
        = map (fun sl => Block (btype b)
                 (<["rich_text"%string := ARichText sl]> (inner b))) slices
        /\ length (enforce [b]) = ceil_div (length rt) 100)
  /\ (forall b c k,
        In c (enforce [b]) -> k <> "rich_text"%string ->
        btype c = btype b /\ inner c !! k = inner b !! k)
  /\ (forall units,
        Forall (fun u => btype u <> ""%string) units ->
        enforce units
        = flat_map
            (fun u =>
               match inner u !! "rich_text"%string with
               | Some v =>
                   if 100 <? attr_len v then
                     map (fun k => Block (btype u)
                            (<["rich_text"%string :=
                                 attr_slice (k * 100) 100 v]> (inner u)))
                         (seq 0 (ceil_div (attr_len v) 100))
                   else [u]
               | None => [u]
               end)
            units).
Proof.
  split; [exact EnforceProofs.enforce_idempotent|].
  assert (Hb : forall units b v,
             Forall (fun u => btype u <> ""%string) units ->
             In b (enforce units) ->
             inner b !! "rich_text"%string = Some v -> attr_len v <= 100).
  { intros units b v Hall Hin Hv. unfold enforce in Hin.
    apply in_flat_map in Hin as (u & Hu & Hin).
    eapply EnforceProofs.split_bounded; eauto.
    rewrite Forall_forall in Hall. apply Hall. by apply list_elem_of_In. }
  split; [exact Hb|].
  split.
  { intros text b v. unfold build_blocks, segment.
    apply Hb, EnforceProofs.segment_loop_tagged. }
  assert (Hsplit : forall b rt,
        btype b <> ""%string ->
        inner b !! "rich_text"%string = Some (ARichText rt) ->
        100 < length rt ->
        let slices :=
          map (fun k => firstn 100 (skipn (k * 100) rt))
              (seq 0 (ceil_div (length rt) 100)) in
        _split_block_if_needed b
        = map (fun sl => Block (btype b)
                 (<["rich_text"%string := ARichText sl]> (inner b))) slices
        /\ length (_split_block_if_needed b)
           = ceil_div (length rt) 100
        /\ concat slices = rt
        /\ Forall (fun sl => length sl <= 100) slices).
  { intros b rt Ht E Hlen slices.
    pose proof (EnforceProofs.split_clones b (ARichText rt) Ht E Hlen) as Hs.
    simpl in Hs. split; [|split; [|split]].
    - rewrite Hs. subst slices. by rewrite map_map.
    - rewrite Hs. by rewrite length_map, length_seq.
    - apply EnforceProofs.slices_concat_seq.
    - apply Forall_forall. intros sl Hsl. apply list_elem_of_In in Hsl.
      subst slices. apply in_map_iff in Hsl as (k & <- & _).
      rewrite length_take. lia. }
  split; [exact Hsplit|].
  split; [exact EnforceProofs.split_other_keys|].
  split; [exact EnforceProofs.split_within|].
  split; [intros; unfold enforce; apply flat_map_app|].
  split; [reflexivity|].
  split; [exact EnforcerProofs.enforce_cons|].
  split.
  { intros b Hw. rewrite EnforcerProofs.enforce_singleton.
    by apply EnforceProofs.split_within. }
  split.
  { intros b rt Ht E Hlen slices.
    rewrite EnforcerProofs.enforce_singleton.
    destruct (Hsplit b rt Ht E Hlen) as (H1 & H2 & _). by split. }
  split.
  { intros b c k. rewrite EnforcerProofs.enforce_singleton.
    apply EnforceProofs.split_other_keys. }
  intros units Hall. unfold enforce.
  induction Hall as [|u us Hu _ IH]; [done|].
  cbn [flat_map]. by rewrite IH, EnforcerProofs.split_cases.
Qed.

Lemma enforce_idempotent_bounded_slicing_witness :
  length (_split_block_if_needed wide_code_block) = 3
  /\ (forall c, In c (_split_block_if_needed wide_code_block) ->
        btype c = "code"%string
        /\ inner c !! "language"%string = Some (AStr (lit "python")))
  /\ (forall c v, In c (enforce [wide_code_block]) ->
        inner c !! "rich_text"%string = Some v -> attr_len v <= 100)
  /\ _split_block_if_needed divider_block = [divider_block]
  /\ length (enforce [wide_code_block]) = 3
  /\ enforce [divider_block; wide_code_block; divider_block]
     = divider_block :: enforce [wide_code_block] ++ [divider_block].
Proof.
  destruct enforce_idempotent_bounded_slicing
    as (_ & H2 & _ & H4 & H5 & H6 & _ & _ & H9 & H10 & H11 & _).
  split; [|split; [|split; [|split; [|split]]]].
  - destruct (H4 wide_code_block (repeat (TextItem (lit "a") None) 250))
      as (_ & Hlen & _).
    + discriminate.
    + reflexivity.
    + rewrite repeat_length. lia.
    + rewrite Hlen. reflexivity.
  - intros c Hc.
    destruct (H5 wide_code_block c "language"%string Hc) as [Ht Hl].
    + discriminate.
    + split; [exact Ht | rewrite Hl; reflexivity].
  - intros c v. apply H2. constructor; [discriminate | constructor].
  - apply H6. intros v Hv. vm_compute in Hv. discriminate.
  - destruct (H11 wide_code_block (repeat (TextItem (lit "a") None) 250))
      as (_ & Hlen).
    + discriminate.
    + reflexivity.
    + rewrite repeat_length. lia.
    + rewrite Hlen. reflexivity.
  - rewrite (H9 divider_block), (H9 wide_code_block).
    rewrite (H10 divider_block).
    + reflexivity.
    + intros v Hv. vm_compute in Hv. discriminate.
Defined.

(** * Lines and texts *)

Module LineFacts.

Lemma split_nl_cons_other c s :
  Ascii.eqb c NL = false ->
  split_nl (c :: s) = (c :: hd [] (split_nl s)) :: tl (split_nl s).
Proof. intros H. cbn [split_nl]. rewrite H. by destruct (split_nl s). Qed.

Lemma split_nl_app_nl a : forall b,
  split_nl (a ++ NL :: b) = split_nl a ++ split_nl b.
Proof.
  induction a as [|c a IH]; intros b; [done|].
  cbn [app split_nl]. destruct (Ascii.eqb c NL).
  - by rewrite IH.
  - rewrite IH. pose proof (split_nl_nonempty a). by destruct (split_nl a).
Qed.

Lemma join_app A : forall B,
  A <> [] -> B <> [] ->
  join [NL] (A ++ B) = join [NL] A ++ NL :: join [NL] B.
Proof.
  induction A as [|a A IH]; intros B HA HB; [done|].
  destruct A as [|a' A].
  - destruct B as [|b B]; [done|]. reflexivity.
  - change ((a :: a' :: A) ++ B) with (a :: a' :: (A ++ B)).
    rewrite !join_cons.
    change (a' :: A ++ B) with ((a' :: A) ++ B).
    rewrite IH by done. by rewrite <- !app_assoc.
Qed.

Lemma join_empty_lines n B :
  B <> [] -> join [NL] (repeat [] n ++ B) = repeat NL n ++ join [NL] B.
Proof.
  intros HB. induction n as [|n IH]; [done|].
  cbn [repeat app]. destruct (repeat [] n ++ B) as [|x X] eqn:E.
  - destruct n; [done|discriminate].
  - rewrite join_cons, <- IH. reflexivity.
Qed.

Lemma split_nl_flat ls :
  ls <> [] -> split_nl (join [NL] ls) = flat_map split_nl ls.
Proof.
  induction ls as [|l ls IH]; [done|]. intros _.
  destruct ls as [|l' ls].
  - cbn [join flat_map]. by rewrite app_nil_r.
  - rewrite join_cons. cbn [app]. rewrite split_nl_app_nl, IH by done.
    reflexivity.
Qed.

Lemma flat_split_lines ls :
  Forall (fun l => one_line l = true) ls -> flat_map split_nl ls = ls.
Proof.
  induction 1 as [|l ls Hl _ IH]; [done|].
  cbn [flat_map]. by rewrite split_nl_one_line, IH.
Qed.

Lemma split_nl_lines s : Forall (fun l => one_line l = true) (split_nl s).
Proof.
  induction s as [|c s IH]; [by repeat constructor|].
  cbn [split_nl]. destruct (Ascii.eqb c NL) eqn:E.
  - by constructor.
  - destruct (split_nl s) as [|l ls]; [repeat constructor; by cbn; rewrite E|].
    inversion IH; subst. constructor; [|done].
    by rewrite one_line_cons, E.
Qed.

(** The lines of a text made of two texts *)
Lemma split_nl_app_gen a : forall b,
  split_nl (a ++ b)
  = removelast (split_nl a)
    ++ (List.last (split_nl a) [] ++ hd [] (split_nl b))
    :: tl (split_nl b).
Proof.
  induction a as [|c a IH]; intros b.
  - cbn. pose proof (split_nl_nonempty b). by destruct (split_nl b).
  - cbn [app]. cbn [split_nl]. destruct (Ascii.eqb c NL).
    + rewrite IH. pose proof (split_nl_nonempty a).
      destruct (split_nl a) as [|h t]; [done|]. reflexivity.
    + rewrite IH. pose proof (split_nl_nonempty a).
      destruct (split_nl a) as [|h t]; [done|].
      destruct t as [|h' t]; reflexivity.
Qed.

Lemma split_nl_length_app a b :
  length (split_nl (a ++ b)) + 1
  = length (split_nl a) + length (split_nl b).
Proof.
  rewrite split_nl_app_gen.
  pose proof (split_nl_nonempty a). pose proof (split_nl_nonempty b).
  destruct (split_nl b) as [|hb tb]; [done|].
  destruct (split_nl a) as [|ha ta] using rev_ind; [done|].
  rewrite removelast_last, !length_app. cbn. lia.
Qed.

Lemma split_nl_space p :
  all_space p = true ->
  Forall (fun l => all_space l = true) (split_nl p).
Proof.
  induction p as [|c p IH]; [by repeat constructor|].
  intros H. cbn in H. apply andb_true_iff in H as [Hc Hp].
  specialize (IH Hp). cbn [split_nl]. destruct (Ascii.eqb c NL).
  - by constructor.
  - destruct (split_nl p) as [|l ls]; [repeat constructor; by cbn; rewrite Hc|].
    inversion IH; subst. constructor; [|done]. cbn. by rewrite Hc.
Qed.

(** A property of lines that white space at the ends of a line does not
    bring about holds of the lines of a trimmed text when it holds of the
    lines of the text. *)
Section Lines.

Variable P : str -> Prop.
Hypothesis P_left : forall p l, all_space p = true -> P (p ++ l) -> P l.
Hypothesis P_right : forall l q, all_space q = true -> P (l ++ q) -> P l.

Lemma lines_drop_left p X :
  all_space p = true ->
  Forall P (split_nl (p ++ X)) -> Forall P (split_nl X).
Proof.
  intros Hp H. rewrite split_nl_app_gen in H.
  apply Forall_app in H as [_ H].
  pose proof (split_nl_nonempty X).
  destruct (split_nl X) as [|h t]; [done|].
  inversion H; subst. constructor; [|done].
  eapply P_left; [|eassumption].
  pose proof (split_nl_space p Hp) as Hs.
  pose proof (split_nl_nonempty p).
  destruct (split_nl p) as [|a l] using rev_ind; [done|].
  rewrite last_last. apply Forall_app in Hs as [_ Hs]. by inversion Hs.
Qed.

Lemma lines_drop_right X q :
  all_space q = true ->
  Forall P (split_nl (X ++ q)) -> Forall P (split_nl X).
Proof.
  intros Hq H. rewrite split_nl_app_gen in H.
  apply Forall_app in H as [H1 H2].
  pose proof (split_nl_nonempty X).
  destruct (split_nl X) as [|a l] using rev_ind; [done|].
  rewrite removelast_last in H1. rewrite last_last in H2.
  apply Forall_app. split; [done|]. constructor; [|done].
  inversion H2; subst. eapply P_right; [|eassumption].
  pose proof (split_nl_space q Hq) as Hs.
  pose proof (split_nl_nonempty q).
  destruct (split_nl q) as [|h t]; [done|]. by inversion Hs.
Qed.

Lemma lines_strip T :
  Forall P (split_nl T) -> Forall P (split_nl (strip T)).
Proof.
  intros H. destruct (strip_parts T) as (p & q & E & Hp & Hq).
  rewrite E in H. apply lines_drop_left in H; [|done].
  by apply lines_drop_right in H.
Qed.

End Lines.

End LineFacts.

(** * The inline pass, line by line *)

Module InlineFacts.
Import LineFacts.

Lemma lit_dollar : lit "$" = ["$"%char].
Proof. reflexivity. Qed.

Lemma lit_marker : lit "$$" = ["$"%char; "$"%char].
Proof. reflexivity. Qed.

Lemma lit_open : lit "$`" = ["$"%char; "`"%char].
Proof. reflexivity. Qed.

Lemma is_dollar_eq c : is_dollar c = true -> c = "$"%char.
Proof. unfold is_dollar. intros H. by apply Ascii.eqb_eq in H. Qed.

Lemma close_after_shape t : forall last more r,
  close_after last t = Some (more, r) -> t = more ++ "$"%char :: r.
Proof.
  induction t as [|d t IH]; intros last more r H; [done|].
  cbn [close_after] in H.
  destruct (is_dollar d && negb (is_dollar last)
            && negb (startswith (lit "$") t)) eqn:E.
  - inversion H; subst.
    apply andb_true_iff in E as [E _]. apply andb_true_iff in E as [E _].
    by rewrite (is_dollar_eq d E).
  - destruct (Ascii.eqb d NL); [done|].
    destruct (close_after d t) as [[m r']|] eqn:E2; [|done].
    inversion H; subst. cbn. f_equal. by apply (IH d).
Qed.

(** A match is an opening dollar, the content, which begins with a
    character other than the dollar, and a closing dollar. *)
Lemma match_inline_shape prev s content r :
  match_inline prev s = Some (content, r) ->
  s = "$"%char :: content ++ "$"%char :: r
  /\ exists c more, content = c :: more /\ is_dollar c = false.
Proof.
  destruct s as [|o [|c t]]; [done..|]. cbn [match_inline].
  destruct (is_dollar o
            && negb (match prev with Some p => is_dollar p | None => false end)
            && negb (is_dollar c) && negb (Ascii.eqb c NL)) eqn:E; [|done].
  destruct (close_after c t) as [[m r']|] eqn:E2; [|done].
  intros H; inversion H; subst.
  apply close_after_shape in E2. subst t.
  apply andb_true_iff in E as [E _]. apply andb_true_iff in E as [E Hc].
  apply andb_true_iff in E as [E _].
  rewrite (is_dollar_eq o E). split; [done|].
  exists c, m. split; [done|]. by apply negb_true_iff.
Qed.

Lemma replace_inline_forms content :
  replace_inline content = "$"%char :: content ++ ["$"%char]
  \/ replace_inline content
     = "$"%char :: "`"%char :: content ++ ["`"%char; "$"%char].
Proof.
  unfold replace_inline.
  destruct (negb (truthy (strip content))); [by left|].
  destruct (truthy content && first_isdigit content && numeric_re content);
    [by left|by right].
Qed.

Lemma replace_inline_forall (P : ascii -> bool) content :
  P "$"%char = true -> P "`"%char = true -> forallb P content = true ->
  forallb P (replace_inline content) = true.
Proof.
  intros Hd Hb Hc.
  destruct (replace_inline_forms content) as [-> | ->]; cbn [forallb];
    rewrite forallb_app, Hc, ?Hd, ?Hb; cbn [forallb]; by rewrite ?Hd, ?Hb.
Qed.

Lemma sub_inline_nil fuel prev : sub_inline fuel prev [] = [].
Proof. by destruct fuel. Qed.

Lemma sub_inline_forall (P : ascii -> bool) fuel : forall prev s,
  P "`"%char = true -> forallb P s = true ->
  forallb P (sub_inline fuel prev s) = true.
Proof.
  induction fuel as [|fuel IH]; intros prev s Hb Hs; [done|].
  cbn [sub_inline]. destruct s as [|c s']; [done|].
  destruct (match_inline prev (c :: s')) as [[content r]|] eqn:E.
  - destruct (match_inline_shape _ _ _ _ E) as [Hshape _].
    rewrite Hshape in Hs. cbn [forallb] in Hs.
    apply andb_true_iff in Hs as [Hd Hs]. rewrite forallb_app in Hs.
    apply andb_true_iff in Hs as [Hc Hs]. cbn [forallb] in Hs.
    apply andb_true_iff in Hs as [_ Hr].
    by rewrite forallb_app, replace_inline_forall, IH.
  - cbn [forallb] in *. apply andb_true_iff in Hs as [-> Hs]. by rewrite IH.
Qed.

Lemma sub_inline_line_one_line l :
  one_line l = true -> one_line (sub_inline_line l) = true.
Proof. intros H. by apply sub_inline_forall. Qed.







(** A line that the substitution changes gets a canonical marker. *)
Lemma sub_inline_marker fuel : forall prev s,
  sub_inline fuel prev s = s
  \/ contains (lit "$`") (sub_inline fuel prev s) = true.
Proof.
  induction fuel as [|fuel IH]; intros prev s; [by left|].
  cbn [sub_inline]. destruct s as [|c s']; [by left|].
  destruct (match_inline prev (c :: s')) as [[content r]|] eqn:E.
  - destruct (match_inline_shape _ _ _ _ E) as [Hshape _].
    destruct (replace_inline_forms content) as [-> | ->].
    + destruct (IH (Some "$"%char) r) as [-> | H].
      * left. rewrite Hshape. cbn. by rewrite <- app_assoc.
      * right. by apply contains_app_r.
    + right. apply contains_app_l. rewrite contains_cons, lit_open.
      by rewrite startswith_cons, startswith_cons, startswith_nil,
        !Ascii.eqb_refl.
  - destruct (IH (Some c) s') as [-> | H]; [by left|].
    right. rewrite contains_cons, H. apply orb_true_r.
Qed.

Lemma inline_line_twice l : inline_line (inline_line l) = inline_line l.
Proof.
  unfold inline_line. destruct (contains (lit "$`") l) eqn:E.
  - by rewrite E.
  - destruct (sub_inline_marker (length l) None l) as [H | H];
      unfold sub_inline_line.
    + by rewrite !H, E.
    + by rewrite H.
Qed.

Lemma sub_inline_truthy fuel prev s :
  truthy s = true -> truthy (sub_inline fuel prev s) = true.
Proof.
  destruct fuel; [done|]. destruct s as [|c s']; [done|]. intros _.
  cbn [sub_inline].
  destruct (match_inline prev (c :: s')) as [[content r]|]; [|done].
  by destruct (replace_inline_forms content) as [-> | ->].
Qed.

Lemma sub_inline_head_ok fuel prev s :
  head_ok (sub_inline fuel prev s) = head_ok s.
Proof.
  destruct fuel; [done|]. destruct s as [|c s']; [done|].
  cbn [sub_inline].
  destruct (match_inline prev (c :: s')) as [[content r]|] eqn:E; [|done].
  destruct (match_inline_shape _ _ _ _ E) as [Hshape _].
  inversion Hshape; subst.
  by destruct (replace_inline_forms content) as [-> | ->].
Qed.

(** The first characters: the substitution makes no delimiter and takes
    none away at the head of the text. *)
Lemma sub_inline_starts1 fuel prev s :
  startswith (lit "$") (sub_inline fuel prev s) = startswith (lit "$") s.
Proof.
  destruct fuel; [done|]. destruct s as [|c s']; [done|].
  cbn [sub_inline].
  destruct (match_inline prev (c :: s')) as [[content r]|] eqn:E.
  - destruct (match_inline_shape _ _ _ _ E) as [Hshape _].
    inversion Hshape; subst.
    by destruct (replace_inline_forms content) as [-> | ->].
  - by rewrite lit_dollar, !startswith_cons.
Qed.

Lemma sub_inline_starts2 fuel prev s :
  startswith (lit "$$") (sub_inline fuel prev s)
  = startswith (lit "$$") s.
Proof.
  destruct fuel; [done|]. destruct s as [|c s']; [done|].
  cbn [sub_inline].
  destruct (match_inline prev (c :: s')) as [[content r]|] eqn:E.
  - destruct (match_inline_shape _ _ _ _ E) as (Hshape & c2 & more & -> & Hc).
    inversion Hshape; subst. rewrite lit_marker.
    destruct (replace_inline_forms (c2 :: more)) as [-> | ->]; cbn [app];
      rewrite !startswith_cons; unfold is_dollar in Hc;
      rewrite (Ascii.eqb_sym "$"%char c2), Hc; by rewrite ?andb_false_r.
  - rewrite lit_marker, !startswith_cons.
    pose proof (sub_inline_starts1 fuel (Some c) s') as H.
    rewrite lit_dollar in H. by rewrite H.
Qed.

Lemma space_not_dollar c : isspace c = true -> is_dollar c = false.
Proof.
  intros H. unfold is_dollar. destruct (Ascii.eqb_spec c "$"%char); [|done].
  by subst.
Qed.

Lemma sub_inline_space p : forall fuel prev t,
  all_space p = true ->
  exists prev',
    sub_inline (length p + fuel) prev (p ++ t)
    = p ++ sub_inline fuel prev' t.
Proof.
  induction p as [|c p IH]; intros fuel prev t Hp.
  - by exists prev.
  - cbn in Hp. apply andb_true_iff in Hp as [Hc Hp].
    cbn [length Nat.add app sub_inline].
    rewrite match_inline_other by (by apply space_not_dollar).
    destruct (IH fuel (Some c) t Hp) as (pv & E).
    exists pv. by rewrite E.
Qed.

Lemma lstrip_all_space q : all_space q = true -> lstrip q = [].
Proof.
  intros H. rewrite <- (app_nil_r q). by rewrite lstrip_space_app.
Qed.

Lemma strip_starts s :
  startswith (lit "$$") (strip s) = startswith (lit "$$") (lstrip s).
Proof.
  destruct (strip_parts s) as (p & q & E & Hp & Hq).
  rewrite E at 2. rewrite lstrip_space_app by done.
  destruct (strip s) as [|a m] eqn:Es.
  - cbn [app]. by rewrite lstrip_all_space.
  - assert (Hm : strip s <> []) by (by rewrite Es).
    destruct (strip_nonempty_ok s Hm) as [H1 _]. rewrite Es in H1.
    cbn in H1. apply negb_true_iff in H1.
    cbn [app]. rewrite lstrip_cons by done. rewrite lit_marker.
    destruct m as [|b m]; [|by rewrite !startswith_cons].
    cbn [app]. rewrite !startswith_cons.
    destruct q as [|d q]; [done|]. cbn in Hq.
    apply andb_true_iff in Hq as [Hd _].
    rewrite !startswith_cons.
    destruct (Ascii.eqb_spec "$"%char d) as [<-|]; [by vm_compute in Hd|].
    reflexivity.
Qed.

(** The inline pass keeps the kind of a line: it makes no delimiter at
    the head of a line and takes none away. *)
Lemma sub_inline_line_starts l :
  startswith (lit "$$") (strip (sub_inline_line l))
  = startswith (lit "$$") (strip l).
Proof.
  rewrite !strip_starts. unfold sub_inline_line.
  destruct (lstrip_parts l) as (p & E & Hp).
  pose proof (lstrip_head_ok l) as Hh.
  remember (lstrip l) as t eqn:Et. clear Et. subst l.
  rewrite length_app.
  destruct (sub_inline_space p (length t) None t Hp) as (pv & ->).
  rewrite lstrip_space_app by done.
  destruct t as [|c t']; [by rewrite sub_inline_nil|].
  specialize (Hh ltac:(done)).
  pose proof (sub_inline_head_ok (length (c :: t')) pv (c :: t')) as Hx.
  rewrite Hh in Hx.
  destruct (sub_inline (length (c :: t')) pv (c :: t')) as [|x X] eqn:Ex;
    [done|].
  cbn in Hx. apply negb_true_iff in Hx. rewrite lstrip_cons by done.
  rewrite <- Ex. apply sub_inline_starts2.
Qed.

Lemma sub_inline_snoc fuel : forall prev s z,
  exists X, sub_inline fuel prev (s ++ [z]) = X ++ [z].
Proof.
  induction fuel as [|fuel IH]; intros prev s z; [by exists s|].
  cbn [sub_inline]. destruct (s ++ [z]) as [|c s'] eqn:Es; [by destruct s|].
  destruct (match_inline prev (c :: s')) as [[content r]|] eqn:E.
  - destruct (match_inline_shape _ _ _ _ E) as [Hshape _].
    rewrite Hshape in Es.
    destruct r as [|r0 r' _] using rev_ind.
    + rewrite sub_inline_nil, app_nil_r.
      change ("$"%char :: content ++ ["$"%char])
        with (("$"%char :: content) ++ ["$"%char]) in Es.
      apply app_inj_tail in Es as [_ ->].
      destruct (replace_inline_forms content) as [-> | ->].
      * by exists ("$"%char :: content).
      * exists ("$"%char :: "`"%char :: content ++ ["`"%char]).
        cbn. by rewrite <- app_assoc.
    + change ("$"%char :: content ++ "$"%char :: r' ++ [r0])
        with (("$"%char :: content) ++ ("$"%char :: r') ++ [r0]) in Es.
      rewrite app_assoc in Es. apply app_inj_tail in Es as [_ ->].
      destruct (IH (Some "$"%char) r' r0) as [X ->].
      exists (replace_inline content ++ X). by rewrite app_assoc.
  - destruct s as [|a s0]; cbn in Es; inversion Es; subst.
    + rewrite sub_inline_nil. by exists [].
    + destruct (IH (Some c) s0 z) as [X ->]. by exists (c :: X).
Qed.

Lemma last_ok_snoc s z : last_ok (s ++ [z]) = negb (isspace z).
Proof. unfold last_ok. by rewrite rev_app_distr. Qed.

Lemma sub_inline_last_ok fuel prev s :
  last_ok (sub_inline fuel prev s) = last_ok s.
Proof.
  destruct s as [|z s _] using rev_ind; [by rewrite sub_inline_nil|].
  destruct (sub_inline_snoc fuel prev s z) as [X ->].
  by rewrite !last_ok_snoc.
Qed.

(** What the inline pass keeps of a line outside block math *)
Lemma inline_line_facts l :
  truthy l = true -> other_line l = true ->
  truthy (inline_line l) = true
  /\ other_line (inline_line l) = true
  /\ head_ok (inline_line l) = head_ok l
  /\ last_ok (inline_line l) = last_ok l
  /\ (no_char CR l = true -> no_char CR (inline_line l) = true).
Proof.
  intros Ht Ho. unfold inline_line.
  destruct (contains (lit "$`") l); [done|].
  unfold other_line in *. apply andb_true_iff in Ho as [H1 H2].
  rewrite sub_inline_line_one_line, sub_inline_line_starts, H2 by done.
  unfold sub_inline_line.
  rewrite sub_inline_truthy, sub_inline_head_ok, sub_inline_last_ok by done.
  repeat split; try done.
  intros Hc. by apply sub_inline_forall.
Qed.

End InlineFacts.



(** * The spellings of block math *)

Module SpellingFacts.
Import LineFacts.

Lemma body_line_inv l :
  body_line l = true ->
  one_line l = true
  /\ str_eqb (strip l) (lit "$$") = false
  /\ endswith (lit "$$") (strip l) = false.
Proof.
  unfold body_line. intros H. apply andb_true_iff in H as [H1 H2].
  apply negb_true_iff in H2. split; [done|]. split; [|done].
  apply str_eqb_neq. intros E. by rewrite E in H2.
Qed.

Lemma formula_body_line f :
  formula_body f = body_line f && truthy (strip f).
Proof.
  unfold formula_body, body_line.
  by destruct (one_line f), (truthy (strip f)),
       (endswith (lit "$$") (strip f)).
Qed.

Lemma collect_body ls : forall acc rest,
  forallb body_line ls = true -> length acc + length ls <= 31 ->
  collect_math acc (ls ++ rest) = collect_math (acc ++ ls) rest.
Proof.
  induction ls as [|l ls IH]; intros acc rest H Hn.
  - by rewrite app_nil_r.
  - cbn [forallb] in H. apply andb_true_iff in H as [Hl H].
    destruct (body_line_inv l Hl) as (_ & H1 & H2).
    cbn [app collect_math]. rewrite H1, H2. cbn [andb].
    cbn [length] in Hn.
    destruct (Nat.ltb_spec 30 (length acc)); [lia|].
    rewrite IH by (done || rewrite length_app; cbn; lia).
    by rewrite <- app_assoc.
Qed.

Lemma body_lines_inv ls :
  body_lines ls = true -> forallb body_line ls = true /\ length ls <= 31.
Proof.
  unfold body_lines. intros H. apply andb_true_iff in H as [H1 H2].
  split; [done|]. by apply Nat.leb_le.
Qed.

Lemma truthy_snoc {A} (ls : list A) x : truthy (ls ++ [x]) = true.
Proof. by destruct ls. Qed.

(** One turn of the block pass on block math *)
Lemma step_part q rest :
  spelled q = true ->
  exists x xs,
    part_lines q = x :: xs
    /\ block_math_step x (xs ++ rest) = (wrapped (formula_text q), rest).
Proof.
  destruct q as [l|f|body|l1 ls|ls lk]; cbn [spelled]; intros H; [done|..].
  - exists (lit "$$" ++ f ++ lit "$$"), []. split; [done|].
    by rewrite step_single_line.
  - apply andb_true_iff in H as [Ht H].
    apply body_lines_inv in H as [H Hn].
    exists (lit "$$"), (body ++ [lit "$$"]). split; [done|].
    rewrite step_open_alone, <- app_assoc.
    rewrite collect_body by done. cbn [app]. rewrite collect_close.
    by rewrite Ht.
  - apply andb_true_iff in H as [Hf H].
    apply body_lines_inv in H as [H Hn]. cbn [forallb] in H.
    apply andb_true_iff in H as [_ H]. cbn [length] in Hn.
    exists (lit "$$" ++ l1), (ls ++ [lit "$$"]). split; [done|].
    rewrite step_open_inline, <- app_assoc by done.
    rewrite collect_body by (done || cbn; lia).
    cbn [app]. by rewrite collect_close.
  - apply andb_true_iff in H as [Hf H].
    apply body_lines_inv in H as [H Hn]. rewrite forallb_app in H.
    apply andb_true_iff in H as [H _]. rewrite length_app in Hn.
    exists (lit "$$"), (ls ++ [lk ++ lit "$$"]). split; [done|].
    rewrite step_open_alone, <- app_assoc.
    rewrite collect_body by (done || cbn; lia).
    cbn [app]. rewrite collect_close_inline by done.
    by rewrite truthy_snoc.
Qed.

Lemma loop_part q rest fuel :
  spelled q = true -> length (part_lines q ++ rest) <= fuel ->
  block_math_loop fuel (part_lines q ++ rest)
  = wrapped (formula_text q) ++ block_math_loop (length rest) rest.
Proof.
  intros H Hn. destruct (step_part q rest H) as (x & xs & E & Hs).
  rewrite E in *. cbn [app length] in *.
  destruct fuel as [|fuel]; [lia|]. cbn [block_math_loop]. rewrite Hs.
  f_equal. rewrite length_app in Hn.
  apply block_math_loop_fuel; lia.
Qed.

Lemma marker_one_line : one_line (lit "$$") = true.
Proof. reflexivity. Qed.

Lemma body_lines_one_line ls :
  forallb body_line ls = true -> Forall (fun l => one_line l = true) ls.
Proof.
  intros H. apply List.Forall_forall. intros l Hl.
  rewrite forallb_forall in H. by destruct (body_line_inv l (H l Hl)).
Qed.

Lemma part_lines_one_line q :
  spelled q = true -> Forall (fun l => one_line l = true) (part_lines q).
Proof.
  destruct q as [l|f|body|l1 ls|ls lk]; cbn [spelled part_lines];
    intros H; [done|..].
  - pose proof (formula_body_one_line f H) as Hl. lines_ok.
  - apply andb_true_iff in H as [_ H]. apply body_lines_inv in H as [H _].
    constructor; [done|]. apply Forall_app. split.
    + by apply body_lines_one_line.
    + by repeat constructor.
  - apply andb_true_iff in H as [Hf H]. apply body_lines_inv in H as [H _].
    cbn [forallb] in H. apply andb_true_iff in H as [_ H].
    pose proof (formula_body_one_line l1 Hf) as Hl.
    constructor; [by rewrite one_line_app, Hl|].
    apply Forall_app. split.
    + by apply body_lines_one_line.
    + by repeat constructor.
  - apply andb_true_iff in H as [Hf H]. apply body_lines_inv in H as [H _].
    rewrite forallb_app in H. apply andb_true_iff in H as [H _].
    pose proof (formula_body_one_line lk Hf) as Hl.
    constructor; [done|]. apply Forall_app. split.
    + by apply body_lines_one_line.
    + repeat constructor. by rewrite one_line_app, Hl.
Qed.



Lemma strip_space_app p s : all_space p = true -> strip (p ++ s) = strip s.
Proof.
  intros Hp. destruct (strip_parts s) as (a & b & E & Ha & Hb).
  destruct (strip s) as [|c m] eqn:Es.
  - cbn [app] in E. rewrite E.
    assert (Hall : all_space (p ++ a ++ b) = true).
    { unfold all_space in *. by rewrite !forallb_app, Hp, Ha, Hb. }
    unfold strip. rewrite <- (app_nil_r (p ++ a ++ b)).
    rewrite rstrip_app_space by done.
    by rewrite <- (app_nil_l (p ++ a ++ b)), rstrip_app_space.
  - assert (Hm : strip s <> []) by (by rewrite Es).
    destruct (strip_nonempty_ok s Hm) as [H1 H2]. rewrite Es in H1, H2.
    rewrite E, app_assoc. apply strip_core; try done.
    unfold all_space in *. by rewrite forallb_app, Hp, Ha.
Qed.

Lemma strip_app_space s q : all_space q = true -> strip (s ++ q) = strip s.
Proof. intros Hq. unfold strip. by rewrite rstrip_app_space. Qed.

Lemma join_snoc_app ls : forall a b,
  join [NL] (ls ++ [a ++ b]) = join [NL] (ls ++ [a]) ++ b.
Proof.
  induction ls as [|l ls IH]; intros a b; [done|].
  cbn [app]. destruct (ls ++ [a ++ b]) as [|x X] eqn:E1;
    [by destruct ls|].
  destruct (ls ++ [a]) as [|y Y] eqn:E2; [by destruct ls|].
  rewrite !join_cons, <- E1, <- E2, IH. by rewrite <- !app_assoc.
Qed.



Lemma rstrip_parts s : exists q, s = rstrip s ++ q /\ all_space q = true.
Proof.
  destruct (lstrip_parts (rev s)) as (p & E & Hp).
  exists (rev p). split.
  - unfold rstrip. rewrite <- rev_app_distr, <- E. by rewrite rev_involutive.
  - by rewrite all_space_rev.
Qed.


End SpellingFacts.




(** * The newline collapse, line by line *)

Module CollapseFacts.
Import LineFacts.

Lemma emit_run_head r : exists t, emit_run (S r) = NL :: t.
Proof. unfold emit_run. destruct (4 <=? S r); by eexists. Qed.

Lemma collapse_succ_head s : forall r,
  exists t, collapse_newlines (S r) s = NL :: t.
Proof.
  induction s as [|c s IH]; intros r.
  - apply emit_run_head.
  - cbn [collapse_newlines]. destruct (Ascii.eqb c NL); [apply IH|].
    destruct (emit_run_head r) as [t ->]. by eexists.
Qed.

Lemma split_nl_run k s :
  split_nl (repeat NL k ++ s) = repeat [] k ++ split_nl s.
Proof. induction k as [|k IH]; [done|]. cbn. by rewrite <- IH. Qed.

Lemma collapse_run k : forall r s,
  collapse_newlines r (repeat NL k ++ s) = collapse_newlines (k + r) s.
Proof.
  induction k as [|k IH]; intros r s; [done|].
  cbn [repeat app collapse_newlines]. rewrite Ascii.eqb_refl, IH.
  f_equal. lia.
Qed.

Lemma collapse_other r c s :
  Ascii.eqb c NL = false ->
  collapse_newlines r (c :: s) = emit_run r ++ c :: collapse_newlines 0 s.
Proof. intros H. cbn [collapse_newlines]. by rewrite H. Qed.

(** After a text that does not end in a newline the count starts again. *)
Lemma collapse_app s0 : forall r z t,
  Ascii.eqb z NL = false ->
  collapse_newlines r ((s0 ++ [z]) ++ t)
  = collapse_newlines r (s0 ++ [z]) ++ collapse_newlines 0 t.
Proof.
  induction s0 as [|c s0 IH]; intros r z t Hz.
  - cbn [app]. rewrite !collapse_other by done. cbn [collapse_newlines].
    change (emit_run 0) with (@nil ascii). by rewrite <- app_assoc.
  - cbn [app collapse_newlines]. destruct (Ascii.eqb c NL).
    + by apply IH.
    + rewrite IH by done. by rewrite <- app_assoc.
Qed.

Section Lines.

Variable P : str -> Prop.
Hypothesis P_nil : P [].

Lemma Forall_empty_lines k : Forall P (repeat [] k).
Proof. induction k; by constructor. Qed.

Lemma lines_collapse_tail s : forall r,
  Forall P (tl (split_nl s)) ->
  (0 < r -> P (hd [] (split_nl s))) ->
  Forall P (tl (split_nl (collapse_newlines r s)))
  /\ (r = 0 -> hd [] (split_nl (collapse_newlines r s))
               = hd [] (split_nl s)).
Proof.
  induction s as [|c s IH]; intros r Ht Hh.
  - cbn [collapse_newlines]. split.
    + unfold emit_run. rewrite <- (app_nil_r (repeat NL _)), split_nl_run.
      destruct (if 4 <=? r then 3 else r) as [|k]; [by constructor|].
      cbn [repeat app tl]. apply Forall_app. split.
      * apply Forall_empty_lines.
      * by repeat constructor.
    + by intros ->.
  - cbn [collapse_newlines]. destruct (Ascii.eqb c NL) eqn:E.
    + apply Ascii.eqb_eq in E. subst c. cbn [split_nl] in Ht, Hh.
      rewrite Ascii.eqb_refl in Ht, Hh. cbn [tl hd] in Ht, Hh.
      pose proof (split_nl_nonempty s) as Hne.
      destruct (IH (S r)) as [H1 _].
      * destruct (split_nl s); [done|]. by inversion Ht.
      * intros _. destruct (split_nl s); [done|]. by inversion Ht.
      * split; [done|]. intros ->.
        destruct (collapse_succ_head s 0) as [t ->].
        cbn [split_nl]. by rewrite !Ascii.eqb_refl.
    + rewrite (split_nl_cons_other c s E) in Ht, Hh. cbn [tl hd] in Ht, Hh.
      destruct (IH 0 Ht ltac:(lia)) as [H1 H2]. specialize (H2 eq_refl).
      unfold emit_run.
      rewrite split_nl_run, (split_nl_cons_other c _ E), H2. split.
      * destruct (Nat.leb_spec 4 r).
        -- cbn [repeat app tl]. repeat constructor; try done.
           apply Hh. lia.
        -- destruct r as [|r]; [done|]. cbn [repeat app tl].
           apply Forall_app. split; [apply Forall_empty_lines|].
           constructor; [|done]. apply Hh. lia.
      * intros ->. by rewrite (split_nl_cons_other c s E).
Qed.

Lemma lines_collapse s :
  Forall P (split_nl s) -> Forall P (split_nl (collapse_newlines 0 s)).
Proof.
  intros H. pose proof (split_nl_nonempty s) as Hne.
  destruct (lines_collapse_tail s 0) as [H1 H2].
  - destruct (split_nl s); [done|]. by inversion H.
  - lia.
  - specialize (H2 eq_refl).
    pose proof (split_nl_nonempty (collapse_newlines 0 s)) as Hne'.
    destruct (split_nl (collapse_newlines 0 s)) as [|h t]; [done|].
    cbn [hd tl] in *. constructor; [|done]. rewrite H2.
    destruct (split_nl s); [done|]. by inversion H.
Qed.

End Lines.

Lemma collapse_forall (Q : ascii -> bool) s : forall r,
  Q NL = true -> forallb Q s = true ->
  forallb Q (collapse_newlines r s) = true.
Proof.
  assert (He : forall r, Q NL = true -> forallb Q (emit_run r) = true).
  { intros r H. unfold emit_run.
    induction (if 4 <=? r then 3 else r) as [|k IH]; [done|].
    cbn. by rewrite H. }
  induction s as [|c s IH]; intros r Hn Hs; [by apply He|].
  cbn [forallb] in Hs. apply andb_true_iff in Hs as [Hc Hs].
  cbn [collapse_newlines]. destruct (Ascii.eqb c NL); [by apply IH|].
  rewrite forallb_app, He by done. cbn [forallb]. by rewrite Hc, IH.
Qed.

Lemma strip_forall (Q : ascii -> bool) s :
  forallb Q s = true -> forallb Q (strip s) = true.
Proof.
  intros H. destruct (strip_parts s) as (p & q & E & _ & _).
  rewrite E, !forallb_app in H.
  apply andb_true_iff in H as [_ H]. by apply andb_true_iff in H as [H _].
Qed.

End CollapseFacts.

(** * The parts of a document *)

Module PartFacts.
Import LineFacts InlineFacts SpellingFacts CollapseFacts.

Lemma one_line_strip l : one_line l = true -> one_line (strip l) = true.
Proof. apply strip_forall. Qed.

Lemma body_line_strip l : body_line l = true -> body_line (strip l) = true.
Proof.
  unfold body_line. intros H. apply andb_true_iff in H as [H1 H2].
  by rewrite one_line_strip, strip_strip, H2.
Qed.

Lemma body_line_left p l :
  all_space p = true -> body_line (p ++ l) = true -> body_line l = true.
Proof.
  intros Hp. unfold body_line.
  rewrite one_line_app, strip_space_app by done. intros H.
  apply andb_true_iff in H as [H1 H2].
  apply andb_true_iff in H1 as [_ H1]. by rewrite H1, H2.
Qed.

Lemma body_line_right l q :
  all_space q = true -> body_line (l ++ q) = true -> body_line l = true.
Proof.
  intros Hq. unfold body_line.
  rewrite one_line_app, strip_app_space by done. intros H.
  apply andb_true_iff in H as [H1 H2].
  apply andb_true_iff in H1 as [H1 _]. by rewrite H1, H2.
Qed.

Lemma forallb_Forall {A} (f : A -> bool) l :
  forallb f l = true <-> Forall (fun x => f x = true) l.
Proof.
  rewrite forallb_forall, List.Forall_forall. done.
Qed.

(** The collected lines of recognised block math *)
Lemma math_lines_ok q :
  spelled q = true ->
  forallb body_line (math_lines_of q) = true
  /\ length (math_lines_of q) <= 31
  /\ math_lines_of q <> [].
Proof.
  destruct q as [l|f|body|l1 ls|ls lk]; cbn [spelled math_lines_of];
    intros H; [done|..].
  - rewrite formula_body_line in H. apply andb_true_iff in H as [H _].
    cbn [forallb length]. rewrite H. repeat split; [lia|done].
  - apply andb_true_iff in H as [Ht H]. apply body_lines_inv in H as [H Hn].
    repeat split; try done. by destruct body.
  - apply andb_true_iff in H as [Hf H]. apply body_lines_inv in H as [H Hn].
    cbn [forallb] in *. apply andb_true_iff in H as [H1 H2].
    by rewrite body_line_strip, H2.
  - apply andb_true_iff in H as [Hf H]. apply body_lines_inv in H as [H Hn].
    rewrite forallb_app in *. apply andb_true_iff in H as [H1 H2].
    cbn [forallb] in *. apply andb_true_iff in H2 as [H2 _].
    rewrite H1, body_line_strip by done.
    rewrite length_app in *. cbn [length] in *.
    repeat split; [done|by destruct ls].
Qed.

Lemma split_nl_strip_length T :
  length (split_nl (strip T)) <= length (split_nl T).
Proof.
  destruct (strip_parts T) as (p & q & E & _ & _). rewrite E at 2.
  pose proof (split_nl_length_app p (strip T ++ q)).
  pose proof (split_nl_length_app (strip T) q).
  pose proof (split_nl_nonempty p). pose proof (split_nl_nonempty q).
  destruct (split_nl p); [done|]. destruct (split_nl q); [done|].
  cbn [length] in *. lia.
Qed.

Lemma split_text_of ls :
  ls <> [] -> Forall (fun l => one_line l = true) ls ->
  split_nl (text_of ls) = ls.
Proof.
  intros Hne Hl. unfold text_of.
  by rewrite split_nl_flat, flat_split_lines.
Qed.

(** The lines of the formula of the canonical form are body lines again. *)
Lemma formula_lines_ok q :
  spelled q = true -> body_lines (split_nl (formula_text q)) = true.
Proof.
  intros H. destruct (math_lines_ok q H) as (H1 & H2 & H3).
  assert (Hl : Forall (fun l => one_line l = true) (math_lines_of q)).
  { by apply body_lines_one_line. }
  unfold body_lines, formula_text. apply andb_true_iff. split.
  - apply forallb_Forall.
    apply (lines_strip (fun l => body_line l = true)).
    + exact body_line_left.
    + exact body_line_right.
    + rewrite split_text_of by done. by apply forallb_Forall.
  - apply Nat.leb_le.
    pose proof (split_nl_strip_length (text_of (math_lines_of q))) as Hn.
    rewrite (split_text_of (math_lines_of q)) in Hn by done. lia.
Qed.

Lemma formula_text_standard s :
  formula_text (Standard (split_nl (strip s))) = strip s.
Proof.
  unfold formula_text, text_of. cbn [math_lines_of].
  by rewrite join_split_nl, strip_strip.
Qed.

Lemma formula_text_again q :
  formula_text (Standard (split_nl (formula_text q))) = formula_text q.
Proof. unfold formula_text at 2 3. apply formula_text_standard. Qed.

Lemma is_math_canonical q : is_math (canonical q) = is_math q.
Proof. by destruct q. Qed.

Lemma is_math_settle q : is_math (settle_part q) = is_math q.
Proof. by destruct q. Qed.

Lemma is_math_le q : is_math q <= 1.
Proof. destruct q; cbn; lia. Qed.

Lemma canonical_math q :
  is_math q = 1 -> canonical q = Standard (split_nl (formula_text q)).
Proof. by destruct q. Qed.

Lemma good_math q :
  is_math q = 1 ->
  good_part q = (spelled q && truthy (formula_text q)
                 && negb (contains (repeat NL 4) (formula_text q))).
Proof. by destruct q. Qed.

Lemma canonical_good q :
  is_math q = 1 -> good_part q = true -> good_part (canonical q) = true.
Proof.
  intros Hm H. rewrite good_math in H by done.
  apply andb_true_iff in H as [H H3]. apply andb_true_iff in H as [H1 H2].
  rewrite canonical_math by done. cbn [good_part spelled].
  rewrite !formula_text_again, H2, H3, formula_lines_ok by done.
  pose proof (split_nl_nonempty (formula_text q)).
  by destruct (split_nl (formula_text q)).
Qed.

Lemma settle_part_good q :
  good_part q = true -> good_part (settle_part q) = true.
Proof.
  destruct q as [l| | | |];
    try (by apply canonical_good).
  cbn [good_part settle_part]. intros H.
  apply andb_true_iff in H as [H1 H2].
  destruct (inline_line_facts l H1 H2) as (-> & -> & _). done.
Qed.

Lemma canonical_twice q : canonical (canonical q) = canonical q.
Proof.
  destruct q as [l| | | |]; [done|..]; cbn [canonical];
    by rewrite formula_text_again.
Qed.

Lemma settle_part_twice q : settle_part (settle_part q) = settle_part q.
Proof.
  destruct q as [l| | | |];
    try (cbn [settle_part]; rewrite <- (canonical_twice _) at 2;
         by destruct (canonical _) eqn:E).
  cbn [settle_part]. by rewrite inline_line_twice.
Qed.

(** No carriage return *)
Lemma no_cr_lines s :
  no_char CR s = true -> forallb (no_char CR) (split_nl s) = true.
Proof.
  intros H. apply forallb_Forall.
  pose proof (join_split_nl s) as E. rewrite <- E in H. clear E.
  induction (split_nl s) as [|l ls IH]; [done|].
  destruct ls as [|l' ls].
  - cbn [join] in H. by repeat constructor.
  - rewrite join_cons, !no_char_app in H.
    apply andb_true_iff in H as [H1 H2]. apply andb_true_iff in H2 as [_ H2].
    constructor; [done|]. by apply IH.
Qed.

Lemma formula_no_cr q :
  forallb (no_char CR) (part_lines q) = true ->
  no_char CR (formula_text q) = true.
Proof.
  intros H. unfold formula_text. apply strip_forall. apply no_cr_join.
  apply forallb_Forall.
  destruct q as [l|f|body|l1 ls|ls lk]; cbn [part_lines math_lines_of] in *;
    [done|..].
  - cbn [forallb] in *. rewrite !no_char_app in H.
    apply andb_true_iff in H as [H _]. apply andb_true_iff in H as [_ H].
    apply andb_true_iff in H as [H _]. by rewrite H.
  - cbn [forallb] in H. rewrite forallb_app in H.
    apply andb_true_iff in H as [_ H]. by apply andb_true_iff in H as [H _].
  - cbn [forallb] in *. rewrite forallb_app, no_char_app in H.
    apply andb_true_iff in H as [H1 H2]. apply andb_true_iff in H1 as [_ H1].
    apply andb_true_iff in H2 as [H2 _].
    rewrite H2, andb_true_r. by apply strip_forall.
  - cbn [forallb] in *. rewrite !forallb_app in *. cbn [forallb] in *.
    rewrite no_char_app in H.
    apply andb_true_iff in H as [_ H]. apply andb_true_iff in H as [H1 H2].
    apply andb_true_iff in H2 as [H2 _]. apply andb_true_iff in H2 as [H2 _].
    rewrite H1. cbn [andb]. rewrite andb_true_r. by apply strip_forall.
Qed.

Lemma settle_part_no_cr q :
  good_part q = true ->
  forallb (no_char CR) (part_lines q) = true ->
  forallb (no_char CR) (part_lines (settle_part q)) = true.
Proof.
  intros Hg H.
  assert (Hc : is_math q = 1 ->
               forallb (no_char CR) (part_lines (canonical q)) = true).
  { intros Hm. rewrite canonical_math by done. cbn [part_lines forallb].
    rewrite forallb_app, no_cr_lines by (by apply formula_no_cr). done. }
  destruct q as [l| | | |]; try (by apply Hc).
  cbn [good_part settle_part part_lines forallb] in *.
  apply andb_true_iff in Hg as [H1 H2]. rewrite andb_true_r in *.
  by apply (inline_line_facts l H1 H2).
Qed.

Lemma part_lines_nonempty q : part_lines q <> [].
Proof. by destruct q. Qed.

Lemma good_part_one_line q :
  good_part q = true -> Forall (fun l => one_line l = true) (part_lines q).
Proof.
  intros H.
  destruct q as [l| | | |];
    try (apply part_lines_one_line; cbn [good_part] in H;
         apply andb_true_iff in H as [H _];
         by apply andb_true_iff in H as [H _]).
  cbn [good_part] in H. apply andb_true_iff in H as [_ H].
  unfold other_line in H. apply andb_true_iff in H as [H _].
  by repeat constructor.
Qed.

End PartFacts.

(** * Documents through the passes of [convert] *)

Module DocFacts.
Import LineFacts InlineFacts SpellingFacts CollapseFacts PartFacts.

Lemma lines_from_cons f g q rest :
  lines_from f ((g, q) :: rest) = repeat [] g ++ f q ++ lines_from f rest.
Proof. unfold lines_from. cbn [flat_map]. by rewrite <- app_assoc. Qed.

Lemma empty_lines_other g :
  Forall (fun l : str => startswith (lit "$$") (strip l) = false)
    (repeat [] g).
Proof. induction g; by constructor. Qed.

Lemma empty_lines_one_line g :
  Forall (fun l : str => one_line l = true) (repeat [] g).
Proof. induction g; by constructor. Qed.

(** ** The block pass *)

Lemma loop_empty_lines g R fuel :
  length (repeat [] g ++ R) <= fuel ->
  flat_map split_nl (block_math_loop fuel (repeat [] g ++ R))
  = repeat [] g ++ flat_map split_nl (block_math_loop (length R) R).
Proof.
  intros Hn.
  rewrite ContextProofs.block_math_loop_prefix
    by (apply empty_lines_other || done).
  by rewrite flat_map_app, flat_split_lines by apply empty_lines_one_line.
Qed.

Lemma good_math_inv q :
  is_math q = 1 -> good_part q = true ->
  spelled q = true /\ truthy (formula_text q) = true
  /\ contains (repeat NL 4) (formula_text q) = false.
Proof.
  intros Hm H. rewrite good_math in H by done.
  apply andb_true_iff in H as [H H3]. apply andb_true_iff in H as [H1 H2].
  by apply negb_true_iff in H3.
Qed.

Lemma loop_good_part q R fuel :
  good_part q = true -> length (part_lines q ++ R) <= fuel ->
  flat_map split_nl (block_math_loop fuel (part_lines q ++ R))
  = padded (canonical q)
    ++ flat_map split_nl (block_math_loop (length R) R).
Proof.
  intros Hg Hn. destruct (is_math q) eqn:Em.
  - destruct q as [l| | | |]; try discriminate.
    cbn [good_part] in Hg. apply andb_true_iff in Hg as [_ Hg].
    unfold other_line in Hg. apply andb_true_iff in Hg as [H1 H2].
    apply negb_true_iff in H2. cbn [part_lines] in *.
    rewrite ContextProofs.block_math_loop_prefix
      by (done || by repeat constructor).
    rewrite flat_map_app. cbn [flat_map]. by rewrite split_nl_one_line.
  - assert (Hm : is_math q = 1) by (pose proof (is_math_le q); lia).
    destruct (good_math_inv q Hm Hg) as (Hs & _ & _).
    rewrite loop_part, flat_map_app by done. f_equal.
    rewrite canonical_math by done. unfold padded, wrapped.
    cbn [is_math part_lines flat_map repeat app].
    rewrite (split_nl_one_line (lit "$$")) by done.
    cbn [split_nl app]. by rewrite <- app_assoc.
Qed.

Lemma block_doc rest : forall fuel,
  forallb good_part (map snd rest) = true ->
  length (lines_from part_lines rest) <= fuel ->
  flat_map split_nl (block_math_loop fuel (lines_from part_lines rest))
  = lines_from (fun q => padded (canonical q)) rest.
Proof.
  induction rest as [|[g q] rest IH]; intros fuel Hg Hn.
  - by destruct fuel.
  - rewrite !lines_from_cons in *. cbn [map snd forallb] in Hg.
    apply andb_true_iff in Hg as [Hq Hg].
    rewrite loop_empty_lines, loop_good_part by done.
    by rewrite IH.
Qed.

(** ** The inline pass *)

Lemma inline_empty_lines g R :
  inline_lines false (repeat [] g ++ R)
  = repeat [] g ++ inline_lines false R.
Proof.
  induction g as [|g IH]; [done|]. cbn [repeat app].
  change (inline_lines false ([] :: repeat [] g ++ R))
    with ([] :: inline_lines false (repeat [] g ++ R)).
  by rewrite IH.
Qed.

Lemma inline_true_body Fl : forall R,
  forallb body_line Fl = true ->
  inline_lines true (Fl ++ R) = Fl ++ inline_lines true R.
Proof.
  induction Fl as [|l Fl IH]; intros R H; [done|].
  cbn [forallb] in H. apply andb_true_iff in H as [Hl H].
  destruct (body_line_inv l Hl) as (_ & Hm & _).
  cbn [app inline_lines]. rewrite Hm. cbn [orb]. by rewrite IH.
Qed.

Lemma not_marker_line l :
  startswith (lit "$$") (strip l) = false ->
  str_eqb (strip l) (lit "$$") = false.
Proof. intros H. apply str_eqb_neq. intros E. by rewrite E in H. Qed.

Lemma inline_good_part q R :
  good_part q = true ->
  inline_lines false (padded (canonical q) ++ R)
  = padded (settle_part q) ++ inline_lines false R.
Proof.
  intros Hg. destruct (is_math q) eqn:Em.
  - destruct q as [l| | | |]; try discriminate.
    cbn [good_part] in Hg. apply andb_true_iff in Hg as [_ Hg].
    unfold other_line in Hg. apply andb_true_iff in Hg as [H1 H2].
    apply negb_true_iff in H2.
    unfold padded. cbn [canonical settle_part is_math part_lines repeat app].
    cbn [inline_lines]. rewrite not_marker_line by done.
    cbn [orb]. unfold inline_line.
    by destruct (contains (lit "$`") l).
  - assert (Hm : is_math q = 1) by (pose proof (is_math_le q); lia).
    destruct (good_math_inv q Hm Hg) as (Hs & _ & _).
    pose proof (formula_lines_ok q Hs) as Hb.
    apply body_lines_inv in Hb as [Hb _].
    replace (settle_part q) with (canonical q) by (by destruct q).
    rewrite canonical_math by done. unfold padded.
    cbn [is_math part_lines repeat app].
    rewrite <- !app_assoc. cbn [app].
    change (inline_lines false
              ([] :: lit "$$"
                  :: split_nl (formula_text q) ++ lit "$$" :: [] :: R))
      with ([] :: lit "$$"
               :: inline_lines true
                    (split_nl (formula_text q) ++ lit "$$" :: [] :: R)).
    rewrite inline_true_body by done.
    reflexivity.
Qed.

Lemma inline_doc rest :
  forallb good_part (map snd rest) = true ->
  inline_lines false (lines_from (fun q => padded (canonical q)) rest)
  = lines_from (fun q => padded (settle_part q)) rest.
Proof.
  induction rest as [|[g q] rest IH]; intros Hg; [done|].
  rewrite !lines_from_cons. cbn [map snd forallb] in Hg.
  apply andb_true_iff in Hg as [Hq Hg].
  by rewrite inline_empty_lines, inline_good_part, IH.
Qed.

End DocFacts.

(** * The newline collapse and the trim on a document *)

Module SettleFacts.
Import LineFacts InlineFacts SpellingFacts CollapseFacts PartFacts DocFacts.

Lemma emit_run_gap k : emit_run (S k) = NL :: repeat NL (Nat.min 2 k).
Proof.
  unfold emit_run. destruct (Nat.leb_spec 4 (S k)).
  - by replace (Nat.min 2 k) with 2 by lia.
  - by replace (Nat.min 2 k) with k by lia.
Qed.

Lemma emit_run_small m : m <= 1 -> emit_run m = repeat NL m.
Proof. intros H. unfold emit_run. by destruct m as [|[|m]]; [..|lia]. Qed.

Lemma core_math F :
  text_of (lit "$$" :: split_nl F ++ [lit "$$"])
  = lit "$$" ++ NL :: F ++ NL :: lit "$$".
Proof.
  unfold text_of. pose proof (split_nl_nonempty F) as Hne.
  change (lit "$$" :: split_nl F ++ [lit "$$"])
    with ([lit "$$"] ++ split_nl F ++ [lit "$$"]).
  rewrite join_app by (done || by destruct (split_nl F)).
  rewrite join_app, join_split_nl by done.
  reflexivity.
Qed.

Lemma not_nl_of_one_line c l : one_line (c :: l) = true -> Ascii.eqb c NL = false.
Proof.
  rewrite one_line_cons. intros H. apply andb_true_iff in H as [H _].
  by apply negb_true_iff.
Qed.

(** A text that neither begins nor ends with a newline and has no long
    run goes through the collapse as it is. *)
Lemma collapse_solid F t r :
  head_ok F = true -> last_ok F = true -> collapse_newlines 0 F = F ->
  collapse_newlines r (F ++ t) = emit_run r ++ F ++ collapse_newlines 0 t.
Proof.
  intros Hh Hl Hc.
  assert (A : collapse_newlines r F = emit_run r ++ F).
  { destruct F as [|c F']; [done|]. cbn in Hh. apply negb_true_iff in Hh.
    apply nonspace_not_nl in Hh. rewrite collapse_other by done.
    rewrite collapse_other in Hc by done.
    change (emit_run 0) with (@nil ascii) in Hc. cbn [app] in Hc.
    by rewrite Hc. }
  destruct F as [|z F0 _] using rev_ind; [done|].
  rewrite last_ok_snoc in Hl. apply negb_true_iff in Hl.
  apply nonspace_not_nl in Hl.
  rewrite collapse_app, A by done. by rewrite <- app_assoc.
Qed.

Lemma collapse_nl r t :
  collapse_newlines r (NL :: t) = collapse_newlines (S r) t.
Proof. cbn [collapse_newlines]. by rewrite Ascii.eqb_refl. Qed.

(** The text of a settled part goes through the collapse as it is. *)
Lemma core_collapse q t r :
  good_part q = true ->
  collapse_newlines r (text_of (part_lines (settle_part q)) ++ t)
  = emit_run r ++ text_of (part_lines (settle_part q))
    ++ collapse_newlines 0 t.
Proof.
  intros Hg. destruct (is_math q) eqn:Em.
  - destruct q as [l| | | |]; try discriminate.
    cbn [good_part] in Hg. apply andb_true_iff in Hg as [Ht Ho].
    destruct (inline_line_facts l Ht Ho) as (H1 & H2 & _).
    unfold other_line in H2. apply andb_true_iff in H2 as [H2 _].
    cbn [settle_part part_lines]. unfold text_of. cbn [join].
    destruct (inline_line l) as [|c l'] eqn:E; [done|].
    cbn [app]. rewrite collapse_other by (by eapply not_nl_of_one_line).
    rewrite collapse_line; [done|].
    rewrite one_line_cons in H2. by apply andb_true_iff in H2 as [_ H2].
  - assert (Hm : is_math q = 1) by (pose proof (is_math_le q); lia).
    destruct (good_math_inv q Hm Hg) as (Hs & Ht & Hr).
    replace (settle_part q) with (canonical q) by (by destruct q).
    rewrite canonical_math by done. cbn [part_lines].
    rewrite core_math.
    assert (HF : formula_text q <> []) by (by destruct (formula_text q)).
    destruct (strip_nonempty_ok _ HF) as [Hh Hl].
    fold (formula_text q) in Hh, Hl.
    assert (Hc : collapse_newlines 0 (formula_text q) = formula_text q).
    { by apply (collapse_short_runs (formula_text q) 0). }
    rewrite <- !app_assoc.
    rewrite (collapse_solid (lit "$$")) by done.
    cbn [app]. rewrite collapse_nl.
    rewrite <- !app_assoc. rewrite collapse_solid by done.
    cbn [app]. rewrite collapse_nl.
    rewrite (collapse_solid (lit "$$")) by done.
    reflexivity.
Qed.

Lemma join_padded q :
  join [NL] (padded q)
  = repeat NL (is_math q) ++ text_of (part_lines q)
    ++ repeat NL (is_math q).
Proof.
  unfold padded, text_of. pose proof (part_lines_nonempty q) as Hne.
  destruct (is_math q) as [|[|m]] eqn:Em.
  - cbn [repeat app]. by rewrite !app_nil_r.
  - cbn [repeat app].
    change ([] :: part_lines q ++ [[]])
      with ([[]] ++ part_lines q ++ [[]]).
    rewrite join_app by (done || by destruct (part_lines q)).
    rewrite join_app by done. reflexivity.
  - pose proof (is_math_le q). lia.
Qed.

Lemma padded_nonempty q : padded q <> [].
Proof.
  unfold padded. pose proof (part_lines_nonempty q).
  destruct (repeat [] (is_math q)); [|done]. by destruct (part_lines q).
Qed.

Lemma last_cons {A} (l : list A) : forall q p,
  List.last (q :: l) p = List.last l q.
Proof.
  induction l as [|x l IH]; intros q p; [done|].
  change (List.last (q :: x :: l) p) with (List.last (x :: l) p).
  by rewrite !IH.
Qed.

Lemma last_part_cons p g q rest :
  last_part p ((g, q) :: rest) = last_part q rest.
Proof. unfold last_part. cbn [map snd]. apply last_cons. Qed.

(** The collapse over the lines of a document after the two passes *)
Lemma collapse_doc rest : forall p r,
  forallb good_part (p :: map snd rest) = true ->
  collapse_newlines r
    (join [NL] (padded (settle_part p)
                ++ lines_from (fun q => padded (settle_part q)) rest))
  = emit_run (is_math p + r)
    ++ text_of (doc_lines (settle_part p) (settle p rest))
    ++ repeat NL (is_math (last_part p rest)).
Proof.
  induction rest as [|[g q] rest IH]; intros p r Hg;
    cbn [forallb map snd] in Hg; apply andb_true_iff in Hg as [Hp Hg].
  - cbn [lines_from flat_map settle]. unfold doc_lines.
    cbn [lines_from flat_map]. rewrite !app_nil_r.
    rewrite join_padded, is_math_settle, collapse_run.
    rewrite core_collapse by done.
    change (last_part p []) with p.
    rewrite <- (app_nil_r (repeat NL (is_math p))) at 1.
    rewrite collapse_run, Nat.add_0_r. cbn [collapse_newlines].
    rewrite (emit_run_small (is_math p)) by apply is_math_le.
    reflexivity.
  - rewrite lines_from_cons. cbn [settle]. unfold doc_lines.
    rewrite lines_from_cons, last_part_cons.
    set (X := padded (settle_part q)
              ++ lines_from (fun q0 => padded (settle_part q0)) rest).
    assert (HX : X <> []).
    { subst X. pose proof (padded_nonempty (settle_part q)).
      by destruct (padded (settle_part q)). }
    rewrite join_app
      by (apply padded_nonempty || by destruct (repeat [] g)).
    rewrite join_empty_lines by done.
    rewrite join_padded, is_math_settle, <- !app_assoc, collapse_run.
    rewrite core_collapse by done.
    rewrite collapse_run, collapse_nl, collapse_run.
    subst X. cbn [forallb map snd] in IH. rewrite IH by done.
    unfold text_of.
    rewrite join_app
      by (apply part_lines_nonempty
          || (pose proof (part_lines_nonempty (settle_part q));
              destruct (repeat [] _); [by destruct (part_lines _)|done])).
    rewrite join_empty_lines
      by (pose proof (part_lines_nonempty (settle_part q));
          by destruct (part_lines _)).
    fold (doc_lines (settle_part q) (settle q rest)).
    fold (text_of (doc_lines (settle_part q) (settle q rest))).
    fold (text_of (part_lines (settle_part p))).
    replace (is_math q + (g + S (is_math p + 0)))
      with (S (g + is_math p + is_math q)) by lia.
    rewrite emit_run_gap. rewrite <- !app_assoc. cbn [app].
    by rewrite <- !app_assoc.
Qed.

End SettleFacts.

(** * [convert] on a document *)

Module ConvertFacts.
Import LineFacts InlineFacts SpellingFacts CollapseFacts PartFacts DocFacts.
Import SettleFacts.

Lemma lines_from_forall (Q : str -> bool) f rest :
  Q [] = true ->
  forallb (fun q => forallb Q (f q)) (map snd rest) = true ->
  forallb Q (lines_from f rest) = true.
Proof.
  intros Hn. induction rest as [|[g q] rest IH]; [done|].
  cbn [map snd forallb]. intros H. apply andb_true_iff in H as [H1 H2].
  rewrite lines_from_cons, !forallb_app, H1, IH by done.
  rewrite andb_true_r. clear -Hn. induction g; [done|]. cbn. by rewrite Hn.
Qed.

Lemma lines_from_forall_inv (Q : str -> bool) f rest :
  forallb Q (lines_from f rest) = true ->
  forallb (fun q => forallb Q (f q)) (map snd rest) = true.
Proof.
  induction rest as [|[g q] rest IH]; [done|].
  rewrite lines_from_cons, !forallb_app. cbn [map snd forallb]. intros H.
  apply andb_true_iff in H as [_ H]. apply andb_true_iff in H as [H1 H2].
  by rewrite H1, IH.
Qed.

Lemma forallb_impl {A} (f g : A -> bool) l :
  (forall x, f x = true -> g x = true) ->
  forallb f l = true -> forallb g l = true.
Proof.
  intros Hi. induction l as [|x l IH]; [done|]. cbn [forallb]. intros H.
  apply andb_true_iff in H as [H1 H2]. by rewrite Hi, IH.
Qed.

Lemma good_doc_inv p rest :
  good_doc p rest = true ->
  good_part p = true /\ forallb good_part (map snd rest) = true
  /\ forallb (no_char CR) (doc_lines p rest) = true
  /\ head_ok (hd [] (part_lines p)) = true
  /\ last_ok (List.last (part_lines (last_part p rest)) []) = true.
Proof.
  unfold good_doc. cbn [forallb]. intros H.
  apply andb_true_iff in H as [H H5]. apply andb_true_iff in H as [H H4].
  apply andb_true_iff in H as [H H3]. by apply andb_true_iff in H as [H1 H2].
Qed.

Lemma doc_one_line p rest :
  good_part p = true -> forallb good_part (map snd rest) = true ->
  Forall (fun l => one_line l = true) (doc_lines p rest).
Proof.
  intros Hp Hg. unfold doc_lines. apply Forall_app. split.
  - by apply good_part_one_line.
  - apply forallb_Forall. apply lines_from_forall; [done|].
    eapply forallb_impl; [|exact Hg]. intros q Hq.
    apply forallb_Forall. by apply good_part_one_line.
Qed.

Lemma doc_lines_nonempty p rest : doc_lines p rest <> [].
Proof.
  unfold doc_lines. pose proof (part_lines_nonempty p).
  by destruct (part_lines p).
Qed.

(** The first and the last line of a document *)
Lemma doc_lines_last rest : forall p,
  exists Y,
    doc_lines p rest = Y ++ [List.last (part_lines (last_part p rest)) []].
Proof.
  induction rest as [|[g q] rest IH]; intros p.
  - exists (removelast (part_lines p)). unfold doc_lines.
    cbn [lines_from flat_map]. rewrite app_nil_r.
    apply app_removelast_last, part_lines_nonempty.
  - destruct (IH q) as [Y E]. unfold doc_lines in *.
    rewrite lines_from_cons, last_part_cons, E.
    exists (part_lines p ++ repeat [] g ++ Y). by rewrite <- !app_assoc.
Qed.

Lemma text_head_ok ls :
  head_ok (hd [] ls) = true -> head_ok (text_of ls) = true.
Proof.
  destruct ls as [|l ls]; [done|]. cbn [hd]. intros H. unfold text_of.
  destruct ls; [done|]. rewrite join_cons. by apply head_ok_app.
Qed.

Lemma text_last_ok Y z :
  last_ok z = true -> last_ok (text_of (Y ++ [z])) = true.
Proof.
  intros H. unfold text_of.
  rewrite (join_snoc_app Y [] z : join [NL] (Y ++ [z]) = _).
  by apply last_ok_app.
Qed.

Lemma settle_map p rest :
  map snd (settle p rest) = map settle_part (map snd rest).
Proof.
  revert p. induction rest as [|[g q] rest IH]; intros p; [done|].
  cbn [settle map snd]. by rewrite IH.
Qed.

Lemma last_map {A B} (f : A -> B) l : forall d,
  List.last (map f l) (f d) = f (List.last l d).
Proof.
  induction l as [|x l IH]; intros d; [done|].
  cbn [map]. rewrite !last_cons. apply IH.
Qed.

Lemma last_part_settle p rest :
  last_part (settle_part p) (settle p rest)
  = settle_part (last_part p rest).
Proof. unfold last_part. rewrite settle_map. apply last_map. Qed.

Lemma settle_ends q :
  good_part q = true ->
  head_ok (hd [] (part_lines (settle_part q)))
  = head_ok (hd [] (part_lines q))
  /\ last_ok (List.last (part_lines (settle_part q)) [])
     = last_ok (List.last (part_lines q) []).
Proof.
  intros Hg.
  assert (Hl : forall X Y : list str,
             last_ok (List.last (X ++ [lit "$$"]) [])
             = last_ok (List.last (Y ++ [lit "$$"]) [])).
  { intros X Y. by rewrite !last_last. }
  assert (Hl' : forall (X Y : list str) y,
             last_ok (List.last (X ++ [lit "$$"]) [])
             = last_ok (List.last (Y ++ [y ++ lit "$$"]) [])).
  { intros X Y y. rewrite !last_last. symmetry. by apply last_ok_app. }
  destruct q as [l|f|body|l1 ls|ls lk].
  - cbn [good_part] in Hg. apply andb_true_iff in Hg as [Ht Ho].
    destruct (inline_line_facts l Ht Ho) as (_ & _ & H1 & H2 & _).
    by cbn [settle_part part_lines hd List.last].
  - split; [done|]. cbn [settle_part canonical part_lines].
    change (lit "$$" :: ?X ++ [lit "$$"])
      with ((lit "$$" :: X) ++ [lit "$$"]).
    rewrite last_last. cbn [List.last]. symmetry.
    rewrite app_assoc. by apply last_ok_app.
  - split; [done|]. cbn [settle_part canonical part_lines].
    apply (Hl (lit "$$" :: _) (lit "$$" :: _)).
  - split; [done|]. cbn [settle_part canonical part_lines].
    apply (Hl (lit "$$" :: _) ((lit "$$" ++ l1) :: _)).
  - split; [done|]. cbn [settle_part canonical part_lines].
    apply (Hl' (lit "$$" :: _) (lit "$$" :: _)).
Qed.

(** ** What [convert] makes of a document *)

Lemma convert_doc p rest :
  good_doc p rest = true ->
  convert (text_of (doc_lines p rest))
  = text_of (doc_lines (settle_part p) (settle p rest)).
Proof.
  intros H. destruct (good_doc_inv p rest H) as (Hp & Hg & Hcr & Hh & Hl).
  pose proof (doc_one_line p rest Hp Hg) as Hone.
  pose proof (doc_lines_nonempty p rest) as Hne.
  unfold convert.
  rewrite replace_crlf_no_cr
    by (apply no_cr_join; by apply forallb_Forall).
  unfold _convert_block_math. rewrite split_text_of by done.
  assert (Hb : flat_map split_nl
                 (block_math_loop (length (doc_lines p rest))
                    (doc_lines p rest))
               = padded (canonical p)
                 ++ lines_from (fun q => padded (canonical q)) rest).
  { unfold doc_lines. rewrite loop_good_part by done.
    by rewrite block_doc. }
  unfold _convert_inline_math. rewrite split_nl_flat.
  2:{ intros E. rewrite E in Hb. cbn [flat_map] in Hb.
      pose proof (padded_nonempty (canonical p)).
      by destruct (padded (canonical p)). }
  rewrite Hb, inline_good_part, inline_doc by done.
  rewrite collapse_doc by (cbn [forallb]; by rewrite Hp, Hg).
  destruct (doc_lines_last (settle p rest) (settle_part p)) as [Y EY].
  rewrite last_part_settle in EY.
  apply strip_core.
  - rewrite Nat.add_0_r, emit_run_small by apply is_math_le.
    clear. by induction (is_math p).
  - clear. by induction (is_math _).
  - apply text_head_ok. unfold doc_lines.
    pose proof (part_lines_nonempty (settle_part p)).
    destruct (part_lines (settle_part p)) as [|x xs] eqn:E; [done|].
    cbn [app hd]. destruct (settle_ends p Hp) as [H1 _].
    rewrite E in H1. cbn [hd] in H1. by rewrite H1.
  - rewrite EY. apply text_last_ok.
    destruct (settle_ends (last_part p rest)) as [_ H2]; [|by rewrite H2].
    unfold last_part. clear -Hp Hg.
    revert p Hp. induction (map snd rest) as [|x l IH]; intros p Hp; [done|].
    cbn [forallb] in Hg. apply andb_true_iff in Hg as [Hx Hg].
    rewrite last_cons. by apply IH.
Qed.

(** The settled document is a document of the same kind. *)
Lemma good_doc_settle p rest :
  good_doc p rest = true ->
  good_doc (settle_part p) (settle p rest) = true.
Proof.
  intros H. destruct (good_doc_inv p rest H) as (Hp & Hg & Hcr & Hh & Hl).
  assert (Hlast : good_part (last_part p rest) = true).
  { unfold last_part. clear -Hp Hg.
    revert p Hp. induction (map snd rest) as [|x l IH]; intros p Hp; [done|].
    cbn [forallb] in Hg. apply andb_true_iff in Hg as [Hx Hg].
    rewrite last_cons. by apply IH. }
  unfold good_doc. cbn [forallb].
  rewrite settle_part_good, last_part_settle by done.
  destruct (settle_ends p Hp) as [-> _].
  destruct (settle_ends _ Hlast) as [_ ->]. rewrite Hh, Hl, !andb_true_r.
  cbn [andb]. apply andb_true_iff. split.
  - rewrite settle_map. clear -Hg.
    induction (map snd rest) as [|x l IH]; [done|].
    cbn [forallb map] in *. apply andb_true_iff in Hg as [Hx Hg].
    by rewrite settle_part_good, IH.
  - unfold doc_lines in *. rewrite forallb_app in *.
    apply andb_true_iff in Hcr as [H1 H2].
    rewrite settle_part_no_cr by done. cbn [andb].
    apply lines_from_forall; [done|]. apply lines_from_forall_inv in H2.
    rewrite settle_map. clear -Hg H2.
    induction (map snd rest) as [|x l IH]; [done|].
    cbn [forallb map] in *. apply andb_true_iff in Hg as [Hx Hg].
    apply andb_true_iff in H2 as [Hc H2].
    by rewrite settle_part_no_cr, IH.
Qed.

(** ** Settling again *)

Lemma settle_again rest : forall p,
  set_off p rest = true ->
  settle (settle_part p) (settle p rest) = settle p rest.
Proof.
  induction rest as [|[g q] rest IH]; intros p H; [done|].
  cbn [set_off] in H. apply andb_true_iff in H as [H1 H2].
  cbn [settle]. rewrite !is_math_settle, settle_part_twice, IH by done.
  do 2 f_equal. pose proof (is_math_le p). pose proof (is_math_le q).
  apply orb_true_iff in H1 as [H1|H1].
  - apply Nat.eqb_eq in H1. lia.
  - apply Nat.leb_le in H1. lia.
Qed.

Lemma settle_thrice rest : forall p,
  settle (settle_part p) (settle (settle_part p) (settle p rest))
  = settle (settle_part p) (settle p rest).
Proof.
  induction rest as [|[g q] rest IH]; intros p; [done|].
  cbn [settle]. rewrite !is_math_settle, !settle_part_twice.
  rewrite IH. do 2 f_equal.
  pose proof (is_math_le p). pose proof (is_math_le q). lia.
Qed.

Lemma settle_not_again rest : forall p,
  set_off p rest = false ->
  settle (settle_part p) (settle p rest) <> settle p rest.
Proof.
  induction rest as [|[g q] rest IH]; intros p H; [done|].
  cbn [set_off] in H. cbn [settle].
  rewrite !is_math_settle, settle_part_twice.
  intros E. injection E as E1 E2.
  apply andb_false_iff in H as [H|H].
  - apply orb_false_iff in H as [H1 H2].
    apply Nat.eqb_neq in H1. apply Nat.leb_gt in H2.
    pose proof (is_math_le p). pose proof (is_math_le q).
    assert (g = 0) as -> by lia.
    destruct (is_math p) as [|[|?]], (is_math q) as [|[|?]];
      try lia; discriminate.
  - by apply (IH q).
Qed.

(** The text of a document tells the empty lines between its parts. *)
Lemma repeat_nl_inj a : forall b c X c' Y,
  Ascii.eqb c NL = false -> Ascii.eqb c' NL = false ->
  repeat NL a ++ c :: X = repeat NL b ++ c' :: Y ->
  a = b /\ c :: X = c' :: Y.
Proof.
  induction a as [|a IH]; intros [|b] c X c' Y Hc Hc' E;
    cbn [repeat app] in E.
  - done.
  - injection E as -> _. by rewrite Ascii.eqb_refl in Hc.
  - injection E as <- _. by rewrite Ascii.eqb_refl in Hc'.
  - injection E as E. by destruct (IH b c X c' Y Hc Hc' E) as [-> ?].
Qed.

Lemma doc_text_head p rest :
  good_part p = true ->
  exists c X,
    text_of (doc_lines p rest) = c :: X /\ Ascii.eqb c NL = false.
Proof.
  intros Hg.
  assert (H : exists c x xs,
             part_lines p = (c :: x) :: xs /\ Ascii.eqb c NL = false).
  { destruct p as [l| | | |];
      try (by exists "$"%char; eexists; eexists).
    cbn [good_part] in Hg. apply andb_true_iff in Hg as [Ht Ho].
    unfold other_line in Ho. apply andb_true_iff in Ho as [Ho _].
    destruct l as [|c l]; [done|]. exists c, l, [].
    split; [done|]. by eapply not_nl_of_one_line. }
  destruct H as (c & x & xs & E & Hc). unfold doc_lines, text_of.
  rewrite E. cbn [app].
  destruct (xs ++ lines_from part_lines rest) as [|y ys].
  - by exists c, x.
  - rewrite join_cons. by eexists c, _.
Qed.

Lemma doc_text_cons p g q rest :
  text_of (doc_lines p ((g, q) :: rest))
  = text_of (part_lines p)
    ++ NL :: repeat NL g ++ text_of (doc_lines q rest).
Proof.
  unfold doc_lines, text_of. rewrite lines_from_cons.
  pose proof (part_lines_nonempty q) as Hq.
  rewrite join_app
    by (apply part_lines_nonempty
        || (destruct (repeat [] g); [by destruct (part_lines q)|done])).
  by rewrite join_empty_lines by (by destruct (part_lines q)).
Qed.

Lemma doc_text_inj rest1 : forall rest2 p,
  map snd rest1 = map snd rest2 ->
  forallb good_part (map snd rest1) = true ->
  text_of (doc_lines p rest1) = text_of (doc_lines p rest2) ->
  rest1 = rest2.
Proof.
  induction rest1 as [|[g1 q1] r1 IH]; intros [|[g2 q2] r2] p Hm Hg E;
    try done.
  cbn [map snd] in Hm. injection Hm as <- Hm.
  cbn [map snd forallb] in Hg. apply andb_true_iff in Hg as [Hq Hg].
  rewrite !doc_text_cons in E. apply app_inv_head in E.
  injection E as E.
  destruct (doc_text_head q1 r1 Hq) as (c & X & E1 & Hc).
  destruct (doc_text_head q1 r2 Hq) as (c' & Y & E2 & Hc').
  rewrite E1, E2 in E.
  destruct (repeat_nl_inj g1 g2 c X c' Y Hc Hc' E) as [-> E'].
  rewrite <- E1, <- E2 in E'. by rewrite (IH r2 q1 Hm Hg E').
Qed.

(** A second conversion changes a document whose block math is not set
    off. *)
Lemma convert_doc_again p rest :
  good_doc p rest = true ->
  convert (convert (text_of (doc_lines p rest)))
  = convert (text_of (doc_lines p rest)) ->
  set_off p rest = true.
Proof.
  intros H E. pose proof (convert_doc p rest H) as H1.
  pose proof (good_doc_settle p rest H) as G1.
  pose proof (convert_doc _ _ G1) as H2.
  rewrite settle_part_twice in H2. rewrite H1, H2 in E.
  destruct (good_doc_inv _ _ G1) as (_ & Hg & _).
  destruct (set_off p rest) eqn:Es; [done|].
  destruct (settle_not_again rest p Es). symmetry.
  apply (doc_text_inj _ _ (settle_part p)); [|done|by symmetry].
  rewrite !settle_map. generalize (map snd rest) as L. intros L.
  symmetry. rewrite map_map. apply map_ext. intros q.
  apply settle_part_twice.
Qed.

(** ** Settled documents *)

Lemma settled_part_fixed q :
  good_part q = true -> settled_part q = true -> settle_part q = q.
Proof.
  intros Hg H. destruct q as [l|f|body|l1 ls|ls lk]; try done.
  - cbn [settled_part settle_part] in *. f_equal. unfold inline_line.
    destruct (contains (lit "$`") l); [done|]. cbn [orb] in H.
    apply Nat.leb_le in H. by apply sub_inline_lone.
  - cbn [settled_part settle_part canonical] in *. f_equal.
    apply andb_true_iff in H as [H1 H2].
    destruct (good_math_inv (Standard body) eq_refl Hg) as (Hs & _ & _).
    cbn [spelled] in Hs. apply andb_true_iff in Hs as [Ht Hs].
    apply body_lines_inv in Hs as [Hs _].
    apply body_lines_one_line in Hs.
    unfold formula_text. cbn [math_lines_of].
    assert (Hne : body <> []) by (by destruct body).
    rewrite strip_ok; [by apply split_text_of| |].
    + by apply text_head_ok.
    + rewrite (app_removelast_last [] Hne). by apply text_last_ok.
Qed.

Lemma settled_fixed p rest :
  good_doc p rest = true -> settled p rest = true ->
  settle_part p = p /\ settle p rest = rest.
Proof.
  intros H Hs. destruct (good_doc_inv p rest H) as (Hp & Hg & _).
  unfold settled in Hs. cbn [forallb] in Hs.
  apply andb_true_iff in Hs as [Hs Hgap]. apply andb_true_iff in Hs as [H1 H2].
  split; [by apply settled_part_fixed|].
  clear H H1 Hp. revert p Hgap. 
  induction rest as [|[g q] rest IH]; intros p Hgap; [done|].
  cbn [map snd forallb settled_gaps settle] in *.
  apply andb_true_iff in Hg as [Hq Hg]. apply andb_true_iff in H2 as [Hsq H2].
  apply andb_true_iff in Hgap as [Hgq Hgap]. apply Nat.eqb_eq in Hgq.
  by rewrite <- Hgq, settled_part_fixed, IH.
Qed.

(** ** A text without formulas *)

Lemma dollars_left p l : dollars (p ++ l) <= 1 -> dollars l <= 1.
Proof. rewrite dollars_app. lia. Qed.

Lemma dollars_right l q : dollars (l ++ q) <= 1 -> dollars l <= 1.
Proof. rewrite dollars_app. lia. Qed.

Lemma convert_lone x :
  no_char CR x = true ->
  Forall (fun l => dollars l <= 1) (split_nl x) ->
  convert x = strip (collapse_newlines 0 x)
  /\ convert (convert x) = convert x.
Proof.
  intros Hcr Hd.
  assert (Hc : forall y, no_char CR y = true ->
               Forall (fun l => dollars l <= 1) (split_nl y) ->
               convert y = strip (collapse_newlines 0 y)).
  { intros y Hy Hl. unfold convert. rewrite replace_crlf_no_cr by done.
    rewrite block_pass_other by (by apply lone_not_marker).
    by rewrite inline_pass_lone. }
  split; [by apply Hc|]. rewrite (Hc x) by done.
  set (y := strip (collapse_newlines 0 x)).
  rewrite Hc.
  - rewrite (collapse_short_runs y 0).
    + apply strip_strip.
    + cbn [repeat app]. subst y. apply contains_strip.
      apply collapse_no_long_run.
  - subst y. apply strip_forall. by apply collapse_forall.
  - subst y. apply (lines_strip (fun l => dollars l <= 1)).
    + intros p l _. apply dollars_left.
    + intros l q _. apply dollars_right.
    + apply (lines_collapse (fun l => dollars l <= 1)); [|done].
      cbn. lia.
Qed.

End ConvertFacts.

(** C5 (as amended).  Where [convert] is idempotent.

    A document is a first part and further parts, each after a number of
    empty lines; a part is a line outside block math (not empty, its
    trimmed text not starting with [$$]) or block math in one of its
    spellings (recognised by the block pass, the formula not empty and
    without a run of four newlines); the document has no carriage return
    and no white space at its two ends.  For such a document:
    - [convert] gives the settled document: every line outside block math
      as the inline pass leaves it, block math in the canonical form
      [$$ / formula / $$], and between two parts the empty lines there
      were, one more for each of the two that is block math, at most two;
    - a second conversion gives the same text,
      [convert (convert x) = convert x], exactly when block math is set
      off: an empty line or more between block math and a line outside
      block math;
    - a settled document (lines outside block math with the canonical
      marker or at most one dollar, block math in the canonical form with a
      trimmed formula, exactly two empty lines next to block math and at
      most two elsewhere) comes back exactly: [convert x = x];
    - a third conversion never changes the result of the second.

    A text without carriage return whose lines have at most one dollar
    each: [convert (convert y) = convert y].

    A document that is one block formula on a formula line [f], in one of
    the four spellings: [convert] gives [$$ / f / $$], and the same again
    when applied to its result. *)
Theorem convert_idempotent_when_set_off :
  (forall (p : part) (rest : list (nat * part)),
     good_doc p rest = true ->
     convert (text_of (doc_lines p rest))
     = text_of (doc_lines (settle_part p) (settle p rest))
     /\ (convert (convert (text_of (doc_lines p rest)))
         = convert (text_of (doc_lines p rest))
         <-> set_off p rest = true)
     /\ (settled p rest = true ->
         convert (text_of (doc_lines p rest)) = text_of (doc_lines p rest))
     /\ convert (convert (convert (text_of (doc_lines p rest))))
        = convert (convert (text_of (doc_lines p rest))))
  /\ (forall y : str,
        no_char CR y = true ->
        Forall (fun l => dollars l <= 1) (split_nl y) ->
        convert (convert y) = convert y)
  /\ (forall f y : str,
        formula_line f = true ->
        In y [ text_of [lit "$$"; f; lit "$$"];
               text_of [lit "$$" ++ f ++ lit "$$"];
               text_of [lit "$$" ++ f; lit "$$"];
               text_of [lit "$$"; f ++ lit "$$"] ] ->
        convert y = text_of [lit "$$"; f; lit "$$"]
        /\ convert (convert y) = convert y).
Proof.
  split; [|split].
  - intros p rest H.
    pose proof (ConvertFacts.convert_doc p rest H) as H1.
    pose proof (ConvertFacts.good_doc_settle p rest H) as G1.
    pose proof (ConvertFacts.convert_doc _ _ G1) as H2.
    pose proof (ConvertFacts.good_doc_settle _ _ G1) as G2.
    pose proof (ConvertFacts.convert_doc _ _ G2) as H3.
    rewrite PartFacts.settle_part_twice in H2.
    repeat rewrite PartFacts.settle_part_twice in H3.
    rewrite ConvertFacts.settle_thrice in H3.
    split; [exact H1|]. split; [|split].
    + split; [by apply ConvertFacts.convert_doc_again|].
      intros Hs. rewrite H1, H2.
      by rewrite ConvertFacts.settle_again.
    + intros Hs. rewrite H1.
      by destruct (ConvertFacts.settled_fixed p rest H Hs) as [-> ->].
    + by rewrite H1, H2, H3.
  - intros y Hcr Hd. by apply ConvertFacts.convert_lone.
  - intros f y Hf Hy.
    pose proof (PipelineProofs.convert_spellings f y Hf Hy) as Hc.
    split; [exact Hc|]. rewrite Hc.
    apply (PipelineProofs.convert_spellings f); [done|by left].
Qed.

Lemma convert_idempotent_when_set_off_witness :
  convert
    (convert
       (text_of [ lit "Let $x$ be given, for $5."; [];
                  lit "$$a = b"; lit "  + c"; lit "$$"; [];
                  lit "and"; lit "so on."; []; [];
                  lit "$$"; lit "E = mc^2"; lit "$$" ]))
  = convert
      (text_of [ lit "Let $x$ be given, for $5."; [];
                 lit "$$a = b"; lit "  + c"; lit "$$"; [];
                 lit "and"; lit "so on."; []; [];
                 lit "$$"; lit "E = mc^2"; lit "$$" ])
  /\ convert
       (text_of [ lit "Let $`x`$ be."; []; [];
                  lit "$$"; lit "a = b"; lit "  + c"; lit "$$"; []; [];
                  lit "So." ])
     = text_of [ lit "Let $`x`$ be."; []; [];
                 lit "$$"; lit "a = b"; lit "  + c"; lit "$$"; []; [];
                 lit "So." ].
Proof.
  split.
  - refine (proj2 (proj1 (proj2
              (proj1 convert_idempotent_when_set_off
                 (TextLine (lit "Let $x$ be given, for $5."))
                 [ (1, OpenInline (lit "a = b") [lit "  + c"]);
                   (1, TextLine (lit "and"));
                   (0, TextLine (lit "so on."));
                   (2, Standard [lit "E = mc^2"]) ] _))) _);
      vm_compute; reflexivity.
  - refine (proj1 (proj2 (proj2
              (proj1 convert_idempotent_when_set_off
                 (TextLine (lit "Let $`x`$ be."))
                 [ (2, Standard [lit "a = b"; lit "  + c"]);
                   (2, TextLine (lit "So.")) ] _))) _);
      vm_compute; reflexivity.
Defined.

(** * A sentence with trailing white space *)

Module SentenceProofs.
Import SegmentProofs SpanProofs PipelineProofs SpellingFacts.

Lemma rstrip_last_ok s : negb (truthy (rstrip s)) || last_ok (rstrip s) = true.
Proof.
  unfold rstrip, last_ok. rewrite rev_involutive.
  destruct (lstrip (rev s)) as [|z r] eqn:E; [done|].
  cbn [rev]. rewrite <- E. rewrite lstrip_head_ok; [|by rewrite E].
  apply orb_true_r.
Qed.

Lemma rstrip_after a post :
  last_ok a = true -> rstrip (a ++ post) = a ++ rstrip post.
Proof.
  intros Ha. destruct (rstrip_parts post) as (q & Hq & Hs).
  rewrite Hq at 1. rewrite app_assoc, rstrip_app_space by done.
  apply rstrip_ok.
  pose proof (rstrip_last_ok post) as H.
  destruct (rstrip post) as [|z r]; [by rewrite app_nil_r|].
  by apply last_ok_app.
Qed.

Lemma strip_head_ok s : head_ok s = true -> strip s = rstrip s.
Proof.
  intros Hs. unfold strip.
  destruct (rstrip_parts s) as (q & Hq & Hsp).
  destruct (rstrip s) as [|a r]; [done|].
  rewrite Hq in Hs. simpl in Hs. apply negb_true_iff in Hs.
  by apply lstrip_cons.
Qed.

Lemma convert_sentence_any pre c post :
  text_head pre = true -> no_dollar pre = true -> one_line pre = true ->
  no_dollar c = true -> truthy c = true -> one_line c = true ->
  no_char "`"%char (pre ++ c ++ post) = true ->
  blank c || currency_like c = false ->
  no_dollar post = true -> one_line post = true ->
  convert (pre ++ lit "$" ++ c ++ lit "$" ++ post)
  = pre ++ (lit "$`" ++ c ++ lit "`$") ++ rstrip post.
Proof.
  intros Hh Hpre Hlpre Hc Htc Hlc Hbt Hkeep Hpost Hlpost.
  set (line := pre ++ lit "$" ++ c ++ lit "$" ++ post).
  assert (Hspan : line = span_line pre [(c, post)]).
  { unfold span_line. cbn [map concat]. by rewrite app_nil_r. }
  assert (Hok : spans_ok [(c, post)] = true).
  { cbn [spans_ok]. by rewrite Hc, Htc, Hlc, Hpost, Hlpost, orb_true_r. }
  assert (Hline : one_line line = true).
  { rewrite Hspan. by apply span_line_one_line. }
  assert (Hbq : no_char "`"%char line = true).
  { subst line. rewrite !no_char_app in *.
    apply andb_true_iff in Hbt as [-> [-> ->]%andb_true_iff]. done. }
  unfold convert.
  rewrite replace_crlf_one_line by done.
  rewrite block_pass_other.
  2:{ rewrite split_nl_one_line by done. repeat constructor.
      destruct (text_head_facts line (text_head_app pre _ Hh))
        as (H1 & _ & _).
      rewrite strip_head_ok by done. subst line.
      rewrite !app_assoc, rstrip_after by (by apply last_ok_app).
      rewrite <- !app_assoc.
      destruct (text_head_facts _
                  (text_head_app pre
                     (lit "$" ++ c ++ lit "$" ++ rstrip post) Hh))
        as (H1' & _ & H3).
      set (X := pre ++ lit "$" ++ c ++ lit "$" ++ rstrip post) in *.
      destruct X as [|a l]; [done|].
      change (lit "$") with ["$"%char] in H3.
      change (lit "$$") with ["$"%char; "$"%char].
      rewrite startswith_cons in *.
      rewrite startswith_nil, andb_true_r in H3. by rewrite H3. }
  rewrite convert_inline_one_line;
    [|done|rewrite Hspan; by apply spans_line_not_marker
     |by apply contains_no_backtick].
  unfold sub_inline_line. rewrite Hspan at 2.
  rewrite sub_inline_spans; [|done|done| |by rewrite <- Hspan].
  2:{ intros ->. done. }
  unfold rewritten_line. cbn [map concat]. rewrite Hkeep, app_nil_r.
  rewrite <- !app_assoc.
  set (line' := pre ++ lit "$`" ++ c ++ lit "`$" ++ post).
  assert (Hline' : one_line line' = true).
  { subst line'. by rewrite !one_line_app, Hlpre, Hlc, Hlpost. }
  rewrite collapse_one_line by done.
  rewrite strip_head_ok.
  - subst line'. rewrite !app_assoc, rstrip_after by (by apply last_ok_app).
    by rewrite <- !app_assoc.
  - by destruct (text_head_facts line'
                   (text_head_app pre (lit "$`" ++ c ++ lit "`$" ++ post) Hh))
      as (H1 & _).
Qed.

(** What holds of a text holds of it without its trailing white space. *)
Lemma rstrip_keeps post :
  plain_text post = true -> one_line post = true ->
  plain_text (rstrip post) = true /\ one_line (rstrip post) = true
  /\ length (rstrip post) <= length post.
Proof.
  intros Hp Hl. destruct (rstrip_parts post) as (q & Hq & _).
  rewrite Hq in Hp, Hl.
  rewrite plain_text_app in Hp. rewrite one_line_app in Hl.
  apply andb_true_iff in Hp as [-> _]. apply andb_true_iff in Hl as [-> _].
  split; [done|]. split; [done|].
  rewrite Hq at 2. rewrite length_app. lia.
Qed.

End SentenceProofs.

(** X20.  From a sentence to its block.  A line that starts with an
    ordinary character and holds one single-dollar span, [pre $c$ post],
    where [pre] and [post] have no dollar and no markup and at most
    [MAX_TEXT_LENGTH] characters each, and [c] has no dollar and no
    backtick and is neither blank nor a number: the blocks built from the
    converted text are one paragraph whose rich text is the text of [pre],
    an equation element with expression [c], and the text of [post]
    without its trailing white space (none when nothing is left of
    [post]). *)
Theorem sentence_with_inline_formula (pre c post : str) :
  text_head pre = true -> plain_text pre = true ->
  no_dollar pre = true -> one_line pre = true ->
  no_dollar c = true -> truthy c = true -> one_line c = true ->
  no_char "`"%char c = true ->
  blank c || currency_like c = false ->
  plain_text post = true -> no_dollar post = true -> one_line post = true ->
  length pre <= MAX_TEXT_LENGTH -> length post <= MAX_TEXT_LENGTH ->
  build_blocks (convert (pre ++ lit "$" ++ c ++ lit "$" ++ post))
  = [rich_block "paragraph"
       (_chunk_text pre None ++ [EquationItem c]
        ++ _chunk_text (rstrip post) None)].
Proof.
  intros Hh Hp Hd Hl Hdc Htc Hlc Hbc Hk Hpp Hdp Hlp Hn1 Hn2.
  destruct (SentenceProofs.rstrip_keeps post Hpp Hlp) as (Hp' & Hl' & Hn').
  rewrite SentenceProofs.convert_sentence_any; try done.
  - apply PipelineProofs.build_sentence; try done.
    + apply SentenceProofs.rstrip_last_ok.
    + lia.
  - rewrite !PassProofs.no_char_app, Hbc.
    by rewrite !PipelineProofs.plain_no_backtick.
Qed.

Lemma sentence_with_inline_formula_witness :
  build_blocks (convert (lit "Let $x^2$ be even.  "))
  = [rich_block "paragraph"
       [TextItem (lit "Let ") None; EquationItem (lit "x^2");
        TextItem (lit " be even.") None]]
  /\ build_blocks (convert (lit "So $x^2$ "))
     = [rich_block "paragraph"
          [TextItem (lit "So ") None; EquationItem (lit "x^2")]].
Proof.
  split.
  - apply (sentence_with_inline_formula (lit "Let ") (lit "x^2")
             (lit " be even.  ")); try reflexivity.
    all: apply Nat.leb_le; reflexivity.
  - apply (sentence_with_inline_formula (lit "So ") (lit "x^2") (lit " "));
      try reflexivity.
    all: apply Nat.leb_le; reflexivity.
Defined.

(** * The delivery engine when nothing is refused *)

Module AcceptedProofs.
Import EnforceProofs DeliveryProofs.

Section Engine.

Variable remote : Type.
Variable requests : remote -> request -> response * remote.

Lemma append_remaining_trace page_id fuel : forall remaining s,
  (forall s req, ok (requests s req).1 = true) ->
  length remaining <= fuel ->
  exists answers s',
    map fst answers
    = map (fun k => firstn 100 (skipn (k * 100) remaining))
          (seq 0 (ceil_div (length remaining) 100))
    /\ Forall (fun a => ok (snd a) = true) answers
    /\ append_remaining remote requests fuel page_id remaining s
       = (tt, s', append_trace page_id answers).
Proof.
  induction fuel as [|fuel IH]; intros remaining s Hacc Hf.
  - destruct remaining; [|simpl in Hf; lia].
    exists [], s. rewrite ceil_div_0 by lia. by repeat split.
  - destruct remaining as [|b remaining].
    { exists [], s. rewrite ceil_div_0 by lia. by repeat split. }
    rewrite append_remaining_cons, append_blocks_eq.
    pose proof (Hacc s (PatchChildren page_id (firstn 100 (b :: remaining))))
      as Hok.
    destruct (requests s _) as [resp s1]. cbn [fst] in Hok. rewrite Hok.
    destruct (IH (skipn 100 (b :: remaining)) s1 Hacc)
      as (answers & s' & Hm & Hall & ->).
    { rewrite length_drop. cbn [length] in *. lia. }
    exists ((firstn 100 (b :: remaining), resp) :: answers), s'.
    split; [|split; [by constructor|done]].
    rewrite (ceil_div_step (length (b :: remaining)) 100)
      by (cbn [length]; lia).
    rewrite length_drop in Hm.
    rewrite <- cons_seq, <- seq_shift, !map_cons, map_map.
    cbn [fst]. rewrite Hm. f_equal. apply map_ext. intros k.
    by rewrite drop_drop.
Qed.

End Engine.

End AcceptedProofs.

(** X26.  A run without refusal.  When the remote system accepts every
    request, [create_page] returns the response to the creation request,
    and its events are exactly: the creation request with the first 100
    blocks, then, for each slice of 100 of the blocks after them, in
    order, one append request with that slice to the page that the
    creation response names, with its accepting answer, followed by a
    pause of 0.35 s.  Nothing is logged, there is no other request and no
    other pause, and the bodies of the requests put end to end are the
    blocks, each sent once. *)
Theorem accepted_run_sends_each_block_once
    (remote : Type) (requests : remote -> request -> response * remote)
    (title parent : str) (blocks : list block) (s s1 : remote)
    (r1 : response) :
  (forall s req, ok (requests s req).1 = true) ->
  requests s (PostPage title parent (firstn 100 blocks)) = (r1, s1) ->
  let rest := skipn 100 blocks in
  exists answers s',
    map fst answers
    = map (fun k => firstn 100 (skipn (k * 100) rest))
          (seq 0 (ceil_div (length rest) 100))
    /\ Forall (fun a => ok (snd a) = true) answers
    /\ create_page remote requests title blocks parent s
       = (Some r1, s',
          Call (PostPage title parent (firstn 100 blocks)) r1
          :: append_trace (json_id r1) answers)
    /\ firstn 100 blocks ++ concat (map fst answers) = blocks.
Proof.
  intros Hacc Hreq rest. subst rest.
  rewrite DeliveryProofs.create_page_eq, Hreq.
  pose proof (Hacc s (PostPage title parent (firstn 100 blocks))) as Hok.
  rewrite Hreq in Hok. cbn [fst] in Hok. rewrite Hok.
  destruct (AcceptedProofs.append_remaining_trace remote requests
              (json_id r1) (length (skipn 100 blocks)) (skipn 100 blocks)
              s1 Hacc (Nat.le_refl _))
    as (answers & s' & Hm & Hall & ->).
  exists answers, s'. split; [exact Hm|]. split; [exact Hall|].
  split; [done|].
  rewrite Hm, EnforceProofs.slices_concat_seq. apply firstn_skipn.
Qed.

Lemma accepted_run_sends_each_block_once_witness :
  exists answers s',
    map fst answers = [repeat divider_block 100; repeat divider_block 50]
    /\ create_page nat accept_all (lit "T") (repeat divider_block 250)
         (lit "P") 0
       = (Some (Response 200 (lit "page-1")), s',
          Call (PostPage (lit "T") (lit "P") (repeat divider_block 100))
            (Response 200 (lit "page-1"))
          :: append_trace (lit "page-1") answers).
Proof.
  destruct (accepted_run_sends_each_block_once nat accept_all (lit "T")
              (lit "P") (repeat divider_block 250) 0 1
              (Response 200 (lit "page-1")) (fun _ _ => eq_refl) eq_refl)
    as (answers & s' & Hm & _ & H & _).
  exists answers, s'. split; [|exact H].
  rewrite Hm. reflexivity.
Defined.

(** * Where the batch pauses *)

Module BatchTraceProofs.

Section Batch.

Variable remote : Type.
Variable requests : remote -> request -> response * remote.
Variable path : Type.
Variable path_str : path -> str.
Variable path_stem : path -> str.
Variable read_text : path -> str.
Variable json_url : response -> str.
Variable client : bool.
Variable parent_page_id : option str.

Abbreviation process_file :=
  (process_file remote requests path path_str path_stem read_text json_url
     client parent_page_id).
Abbreviation process_loop :=
  (process_loop remote requests path path_str path_stem read_text json_url
     client parent_page_id).

Lemma filter_none {A} (f : A -> bool) (l : list A) :
  List.filter f l = [] -> existsb f l = false.
Proof.
  induction l as [|x l IH]; [done|]. cbn [List.filter existsb].
  destruct (f x); [done|]. exact IH.
Qed.

Lemma interleave_cons {A} (sep l l' : list A) ls :
  interleave sep (l :: l' :: ls) = l ++ sep ++ interleave sep (l' :: ls).
Proof. reflexivity. Qed.

(** The events of the loop: for each file the entry of the loop and the
    events of [process_file], and the pause between two files. *)
Lemma process_loop_trace total filepaths upload : forall idx s,
  idx + length filepaths = S total ->
  exists per_file,
    Forall2 (fun fp evs =>
               exists s0, evs = LogInfo :: (process_file fp upload s0).2)
            filepaths per_file
    /\ (process_loop total idx filepaths upload s).2
       = interleave (if upload then [Wait 500] else []) per_file.
Proof.
  induction filepaths as [|fp filepaths IH]; intros idx s Hidx.
  - exists []. split; [constructor|done].
  - cbn [BatchProcessor.process_loop].
    destruct (process_file fp upload s) as [[result s1] e1] eqn:E1.
    destruct (IH (S idx) s1) as (per_file & Hall & Htrace);
      [cbn [length] in Hidx; lia|].
    destruct (process_loop total (S idx) filepaths upload s1)
      as [[results s2] e2].
    cbn [snd] in *. subst e2.
    exists ((LogInfo :: e1) :: per_file). split.
    + constructor; [|exact Hall]. exists s. by rewrite E1.
    + destruct filepaths as [|fp' filepaths].
      * inversion Hall; subst. cbn [interleave].
        cbn [length] in Hidx.
        destruct (Nat.ltb_spec idx total); [lia|].
        by rewrite andb_false_r, !app_nil_r.
      * inversion Hall as [|? e' ? per_file' _ _]; subst.
        rewrite interleave_cons. cbn [length] in Hidx.
        destruct (Nat.ltb_spec idx total); [|lia].
        rewrite andb_true_r. cbn [app]. by destruct upload.
Qed.

End Batch.

End BatchTraceProofs.

(** X28.  The batch.  [process_files] returns one result per file, in
    order, whatever the remote system answers.  Its events are, file after
    file in order, an info entry followed by the events of [process_file]
    on that file, and, when [upload] is set, one pause of 0.5 s between
    the events of two consecutive files: none before the first file, none
    after the last one, and none inside the events of a file.  The pauses
    are taken also when no page can be created for want of a client or a
    parent page; without [upload] there is no pause.  When [upload] is not
    set, or there is no client, or no parent page, no request is made. *)
Theorem batch_pauses_between_files
    (remote : Type) (requests : remote -> request -> response * remote)
    (path : Type) (path_str path_stem read_text : path -> str)
    (json_url : response -> str) (client : bool)
    (parent_page_id : option str)
    (filepaths : list path) (upload : bool) (s : remote) :
  let '(results, _, evs) :=
    process_files remote requests path path_str path_stem read_text
      json_url client parent_page_id filepaths upload s in
  map file results = map path_str filepaths
  /\ (exists per_file,
        Forall2 (fun fp e =>
                   exists s0,
                     e = LogInfo
                         :: (process_file remote requests path path_str
                               path_stem read_text json_url client
                               parent_page_id fp upload s0).2)
                filepaths per_file
        /\ Forall (fun e => existsb is_wait e = false) per_file
        /\ evs = interleave (if upload then [Wait 500] else []) per_file)
  /\ length (List.filter is_wait evs)
     = (if upload then length filepaths - 1 else 0)
  /\ (upload && client
      && match parent_page_id with Some p => truthy p | None => false end
      = false ->
      existsb of_client evs = false).
Proof.
  unfold process_files.
  pose proof (BatchProofs.process_loop_spec remote requests path path_str
                path_stem read_text json_url client parent_page_id
                (length filepaths) filepaths upload 1 s eq_refl) as H.
  destruct (BatchTraceProofs.process_loop_trace remote requests path path_str
              path_stem read_text json_url client parent_page_id
              (length filepaths) filepaths upload 1 s eq_refl)
    as (per_file & Hall & Htrace).
  destruct (process_loop _ _ _ _ _ _ _ _ _ _ _ _ _ s) as [[results s'] evs].
  cbn [fst snd] in *. destruct H as (H1 & H2 & H3).
  split; [exact H1|]. split; [|by split].
  exists per_file. split; [exact Hall|]. split; [|exact Htrace].
  clear -Hall. induction Hall as [|fp e fps es [s0 ->] _ IH]; constructor.
  - cbn [existsb is_wait orb].
    destruct (BatchProofs.process_file_spec remote requests path path_str
                path_stem read_text json_url client parent_page_id fp upload
                s0) as (_ & Hw & _).
    by apply BatchTraceProofs.filter_none.
  - exact IH.
Qed.

Lemma batch_pauses_between_files_witness :
  (process_files nat accept_all str id id id (fun _ => []) false
     (Some (lit "P")) [lit "# A"; lit "$$x$$"] true 0).2
  = [LogInfo; LogInfo; Wait 500; LogInfo; LogInfo]
  /\ existsb of_client
       (process_files nat accept_all str id id id (fun _ => []) false
          (Some (lit "P")) [lit "# A"; lit "$$x$$"] true 0).2
     = false.
Proof.
  pose proof (batch_pauses_between_files nat accept_all str id id id
                (fun _ => []) false (Some (lit "P"))
                [lit "# A"; lit "$$x$$"] true 0) as H.
  destruct (process_files nat accept_all str id id id (fun _ => []) false
              (Some (lit "P")) [lit "# A"; lit "$$x$$"] true 0)
    as [[results s'] evs] eqn:E.
  destruct H as (_ & _ & _ & Hc). split; [|exact (Hc eq_refl)].
  apply (f_equal snd) in E. cbn [snd] in E. rewrite <- E.
  vm_compute. reflexivity.
Defined.
